(** * Web components: counter, todo list, theme toggle, icon loader, hamburger menu

    A shallow embedding of the custom elements of
    [counterComponent.js] and [iconThemeAware.js].

    Conventions of the embedding:
    - every custom element is a record holding the fields the class assigns
      on [this] together with the part of its DOM subtree the methods read
      or write (attributes, text content, child lists);
    - a DOM lookup that can come back [null] is an [option];
    - a method that can throw returns a [completion];
    - JavaScript numbers that only ever hold integers (counters, clock
      readings, pixel sizes) are [Z]; all of them stay far inside the range
      in which a double represents every integer exactly;
    - markup-level strings (attribute names and values, event kinds,
      identifiers, URLs) are [string]; free text typed by the user is a
      list of UTF-16 code units, since [String.prototype.trim] is defined on
      code units outside the 8-bit range as well. *)

From Stdlib Require Import ZArith Lia Ascii String.
From stdpp Require Import gmap strings list.

Open Scope string_scope.
Open Scope list_scope.
Open Scope Z_scope.

(** ** Platform: numbers, strings and completions *)

Module JS.

(** How a call ends: normally with a value, or abruptly with a thrown error. *)
Inductive js_error : Type :=
  | TypeError (msg : string)
  | SyntaxError (msg : string)
  | Error (msg : string).

Inductive completion (A : Type) : Type :=
  | Normal (a : A)
  | Throw (e : js_error).
Arguments Normal {A} a.
Arguments Throw {A} e.

Definition is_normal {A} (c : completion A) : bool :=
  match c with Normal _ => true | Throw _ => false end.

(** *** Decimal digits *)

Definition digit_char (d : Z) : ascii := ascii_of_nat (48 + Z.to_nat d).

Definition digit_val (c : ascii) : option Z :=
  let n := Z.of_nat (nat_of_ascii c) in
  if (48 <=? n) && (n <=? 57) then Some (n - 48) else None.

(** [digits_go fuel n acc] writes the decimal digits of [n] in front of
    [acc], least significant digit first. *)
Fixpoint digits_go (fuel : nat) (n : Z) (acc : string) : string :=
  match fuel with
  | O => acc
  | S f =>
      let acc' := String (digit_char (n mod 10)) acc in
      if n / 10 =? 0 then acc' else digits_go f (n / 10) acc'
  end.

Definition digits (n : Z) : string :=
  digits_go (S (Z.to_nat (Z.log2 n))) n EmptyString.

(** [Number.prototype.toString] / [String(n)] on an integer. *)
Definition number_to_string (z : Z) : string :=
  if z <? 0 then String "-" (digits (- z)) else digits z.

(** *** parseInt(s, 10) *)

(** StrWhiteSpaceChar, restricted to the code units an 8-bit string holds. *)
Definition is_str_white_space (c : ascii) : bool :=
  let n := nat_of_ascii c in
  bool_decide (n = 9 ∨ n = 10 ∨ n = 11 ∨ n = 12 ∨ n = 13 ∨ n = 32 ∨ n = 160)%nat.

Fixpoint skip_white_space (s : string) : string :=
  match s with
  | String c r => if is_str_white_space c then skip_white_space r else s
  | EmptyString => s
  end.

(** Reads digits while there are some, accumulating their value. *)
Fixpoint parse_digits (a : Z) (s : string) : Z :=
  match s with
  | String c r =>
      match digit_val c with
      | Some d => parse_digits (10 * a + d) r
      | None => a
      end
  | EmptyString => a
  end.

Definition starts_with_digit (s : string) : bool :=
  match s with
  | String c _ => bool_decide (is_Some (digit_val c))
  | EmptyString => false
  end.

(** [None] stands for NaN. *)
Definition parseInt (s : string) : option Z :=
  let s1 := skip_white_space s in
  let '(sign, s2) :=
    match s1 with
    | String "-" r => (-1, r)
    | String "+" r => (1, r)
    | _ => (1, s1)
    end in
  if starts_with_digit s2 then Some (sign * parse_digits 0 s2) else None.

(** *** String.prototype.trim on code units *)

Definition code_unit := N.
Definition jsstring := list code_unit.

(** WhiteSpace and LineTerminator code points of ECMAScript. *)
Definition is_white_space (c : code_unit) : bool :=
  (((9 <=? c) && (c <=? 13)) || (c =? 32) || (c =? 160) || (c =? 5760)
   || ((8192 <=? c) && (c <=? 8202)) || (c =? 8232) || (c =? 8233)
   || (c =? 8239) || (c =? 8287) || (c =? 12288) || (c =? 65279))%N.

Fixpoint trimStart (s : jsstring) : jsstring :=
  match s with
  | c :: r => if is_white_space c then trimStart r else s
  | [] => []
  end.

Definition trimEnd (s : jsstring) : jsstring := rev (trimStart (rev s)).

Definition trim (s : jsstring) : jsstring := trimEnd (trimStart s).

(** An ASCII literal as a sequence of code units. *)
Fixpoint of_ascii (s : string) : jsstring :=
  match s with
  | String c r => N_of_ascii c :: of_ascii r
  | EmptyString => []
  end.

End JS.

(** ** DOM elements as attribute maps *)

Module DOM.

(** The attributes of an element; [getAttribute] of a missing attribute is
    [null]. *)
Record element : Type := Element {
  tag : string;
  attrs : gmap string string
}.

Definition getAttribute (name : string) (el : element) : option string :=
  attrs el !! name.

Definition setAttribute (name value : string) (el : element) : element :=
  Element (tag el) (<[name := value]> (attrs el)).

Arguments getAttribute : simpl never.
Arguments setAttribute : simpl never.

End DOM.

(** ** counterComponent.js *)

Module Counter.
Import JS DOM.

(** [count-total]: its [count] attribute and the span its shadow root shows. *)
Record CountTotal : Type := {
  ct_element : element;
  ct_span : string
}.

(** Text a template literal splices in for [getAttribute(..)]. *)
Definition template_text (v : option string) : string :=
  match v with Some s => s | None => "null" end.

(** CountTotal.render *)
Definition CountTotal_render (ct : CountTotal) : CountTotal :=
  {| ct_element := ct_element ct;
     ct_span := template_text (getAttribute "count" (ct_element ct)) |}.

(** CountTotal.attributeChangedCallback *)
Definition CountTotal_attributeChangedCallback (name : string) (ct : CountTotal)
  : CountTotal :=
  if bool_decide (name = "count") then CountTotal_render ct else ct.

(** [setAttribute] on a [count-total], followed by the reaction the browser
    runs for an observed attribute. *)
Definition CountTotal_setAttribute (name value : string) (ct : CountTotal)
  : CountTotal :=
  let ct' := {| ct_element := setAttribute name value (ct_element ct);
                ct_span := ct_span ct |} in
  if bool_decide (name = "count")
  then CountTotal_attributeChangedCallback name ct'
  else ct'.

(** [counter-component]. [total] is the [count-total] child of the shadow
    root, absent until [render] has run; [listening] records that [hydrate]
    has registered the root on both buttons. [count] is a JavaScript number
    that moves by one per event. *)
Record CounterRoot : Type := {
  count : Z;
  total : option CountTotal;
  listening : bool
}.

Definition constructor : CounterRoot :=
  {| count := 0; total := None; listening := false |}.

(** CounterRoot.render: the markup carries [count="${this.count}"], and the
    new child renders itself when it is connected. *)
Definition render (c : CounterRoot) : CounterRoot :=
  let el := Element "count-total" {[ "count" := number_to_string (count c) ]} in
  {| count := count c;
     total := Some (CountTotal_render {| ct_element := el; ct_span := EmptyString |});
     listening := false |}.

(** CounterRoot.hydrate: [querySelector] finds the buttons only in rendered
    markup. *)
Definition hydrate (c : CounterRoot) : completion CounterRoot :=
  match total c with
  | Some _ =>
      Normal {| count := count c; total := total c; listening := true |}
  | None => Throw (TypeError "Cannot read properties of null (reading 'addEventListener')")
  end.

Definition connectedCallback (c : CounterRoot) : completion CounterRoot :=
  hydrate (render c).

(** CounterRoot.update *)
Definition update (c : CounterRoot) : completion CounterRoot :=
  match total c with
  | Some ct =>
      Normal {| count := count c;
                total := Some (CountTotal_setAttribute "count"
                                 (number_to_string (count c)) ct);
                listening := listening c |}
  | None => Throw (TypeError "Cannot read properties of null (reading 'setAttribute')")
  end.

(** An [Event]: only its type is read. *)
Record Event : Type := { type : string }.

(** CounterRoot.handleEvent *)
Definition handleEvent (event : Event) (c : CounterRoot) : completion CounterRoot :=
  let c' :=
    if bool_decide (type event = "increment") then
      {| count := count c + 1; total := total c; listening := listening c |}
    else if bool_decide (type event = "decrement") then
      {| count := count c - 1; total := total c; listening := listening c |}
    else c in
  update c'.

(** The events a session delivers, one after the other; an uncaught error
    ends the session. *)
Fixpoint deliver (events : list Event) (c : CounterRoot) : completion CounterRoot :=
  match events with
  | [] => Normal c
  | e :: rest =>
      match handleEvent e c with
      | Normal c' => deliver rest c'
      | Throw err => Throw err
      end
  end.

(** What the buttons dispatch. *)
Definition increment : Event := {| type := "increment" |}.
Definition decrement : Event := {| type := "decrement" |}.

(** How many events of a kind a sequence holds. *)
Definition occurrences (kind : string) (events : list Event) : Z :=
  Z.of_nat (length (filter (λ e, type e = kind) events)).

(** The [count] attribute of the [count-total] child, when there is one. *)
Definition count_attribute (c : CounterRoot) : option string :=
  match total c with
  | Some ct => getAttribute "count" (ct_element ct)
  | None => None
  end.

Definition displayed_total (c : CounterRoot) : option string :=
  match total c with
  | Some ct => Some (ct_span ct)
  | None => None
  end.

(** The child shows the count of the root: attribute and span. *)
Definition in_sync (c : CounterRoot) : Prop :=
  is_Some (total c)
  ∧ count_attribute c = Some (number_to_string (count c))
  ∧ displayed_total c = Some (number_to_string (count c)).

(** What one event adds to the count. *)
Definition delta (e : Event) : Z :=
  if bool_decide (type e = "increment") then 1
  else if bool_decide (type e = "decrement") then -1 else 0.

End Counter.

(** ** iconThemeAware.js: the todo list *)

Module Todo.
Import JS.

(** A [todo-item] element: [node] tells apart two elements that carry the
    same attributes. *)
Record TodoItem : Type := {
  node : nat;
  text_attr : jsstring;
  id_attr : string
}.

(** What the children dispatch upwards. *)
Inductive CustomEvent : Type :=
  | TodoInputSubmit (text : jsstring) (id : string)
  | TodoItemDelete (id : string)
  | Other (type : string).

(** *** todo-input *)

(** The submit listener of [todo-input]. [raw] is [formData.get("todo")]
    ([None] for [null]), [now] is the reading of [Date.now()]. The result is
    the event dispatched, if any. *)
Definition submit_listener (raw : option jsstring) (now : Z) : option CustomEvent :=
  let value := trim <$> raw in
  let id := number_to_string now in
  match value with
  | None => None
  | Some [] => None
  | Some (c :: r) => Some (TodoInputSubmit (c :: r) id)
  end.

(** *** todo-count *)

(** The number written back into [textContent]; NaN stays NaN. *)
Definition number_text (n : option Z) : string :=
  match n with Some z => number_to_string z | None => "NaN" end.

Definition incrementCount (textContent : string) : string :=
  number_text ((λ n, n + 1) <$> parseInt textContent).

Definition decrementCount (textContent : string) : string :=
  number_text ((λ n, n - 1) <$> parseInt textContent).

(** *** todo-list *)

(** [querySelector('todo-item[id="<id>"]')]: the first item in tree order
    whose [id] attribute is the identifier. Identifiers are the decimal
    strings [todo-input] makes, which need no escaping in the selector. *)
Fixpoint query_todo_item (id : string) (items : list TodoItem) : option TodoItem :=
  match items with
  | [] => None
  | it :: rest =>
      if bool_decide (id_attr it = id) then Some it else query_todo_item id rest
  end.

(** [item.remove()]: takes one element, the one with this node, out of the
    list. *)
Fixpoint remove_node (n : nat) (items : list TodoItem) : list TodoItem :=
  match items with
  | [] => []
  | it :: rest =>
      if bool_decide (node it = n) then rest else it :: remove_node n rest
  end.

Definition createListItem (fresh : nat) (text : jsstring) (id : string)
    (listUl : list TodoItem) : list TodoItem :=
  listUl ++ [ {| node := fresh; text_attr := text; id_attr := id |} ].

Definition deleteListItem (id : string) (listUl : list TodoItem) : list TodoItem :=
  match query_todo_item id listUl with
  | None => listUl
  | Some itemToRemove => remove_node (node itemToRemove) listUl
  end.

(** *** todo-component *)

(** [listUl] holds the children of [#todo-list-ul] in tree order,
    [count_text] the text of the [div] in [todo-count], [todoItems] the array
    the component keeps, [delete_listeners] the nodes on which the component
    listens for [todo-item-delete], [created] the number of elements made so
    far. *)
Record TodoComponent : Type := {
  listUl : list TodoItem;
  count_text : string;
  todoItems : list TodoItem;
  delete_listeners : list nat;
  created : nat
}.

(** The component after [connectedCallback]: an empty list, the count "0". *)
Definition connected : TodoComponent :=
  {| listUl := []; count_text := "0"; todoItems := [];
     delete_listeners := []; created := O |}.

(** [addEventListener] with the same listener and type twice registers once. *)
Definition add_listener (n : nat) (ls : list nat) : list nat :=
  if bool_decide (n ∈ ls) then ls else ls ++ [n].

Definition appendTodoItem (id : string) (c : TodoComponent) : TodoComponent :=
  match query_todo_item id (listUl c) with
  | None => c
  | Some newItem =>
      {| listUl := listUl c; count_text := count_text c;
         todoItems := todoItems c ++ [newItem];
         delete_listeners := add_listener (node newItem) (delete_listeners c);
         created := created c |}
  end.

Definition removeTodoItem (id : string) (c : TodoComponent) : TodoComponent :=
  {| listUl := listUl c; count_text := count_text c;
     todoItems := filter (λ item, id_attr item ≠ id) (todoItems c);
     delete_listeners := delete_listeners c;
     created := created c |}.

(** todo-component handleEvent. [todoInput.update()] renders the form anew,
    which holds no state of this model. The lookups stand for selectors
    built from the identifier as it is: they are those of the code for
    identifiers of decimal digits, which is what [todo-input] dispatches and
    what the delete button of an item reads back, and for items whose text
    holds no markup. *)
Definition handleEvent (event : CustomEvent) (c : TodoComponent) : TodoComponent :=
  match event with
  | TodoInputSubmit text id =>
      let c1 := {| listUl := createListItem (created c) text id (listUl c);
                   count_text := count_text c; todoItems := todoItems c;
                   delete_listeners := delete_listeners c;
                   created := S (created c) |} in
      let c2 := appendTodoItem id c1 in
      {| listUl := listUl c2; count_text := incrementCount (count_text c2);
         todoItems := todoItems c2; delete_listeners := delete_listeners c2;
         created := created c2 |}
  | TodoItemDelete id =>
      let c1 := {| listUl := deleteListItem id (listUl c);
                   count_text := count_text c; todoItems := todoItems c;
                   delete_listeners := delete_listeners c;
                   created := created c |} in
      let c2 := removeTodoItem id c1 in
      {| listUl := listUl c2; count_text := decrementCount (count_text c2);
         todoItems := todoItems c2; delete_listeners := delete_listeners c2;
         created := created c2 |}
  | Other _ => c
  end.

(** A submit of the form: the listener of [todo-input] runs, and the event
    it dispatches, if any, reaches the component. *)
Definition submit (raw : option jsstring) (now : Z) (c : TodoComponent)
  : TodoComponent :=
  match submit_listener raw now with
  | Some event => handleEvent event c
  | None => c
  end.

(** What happens to the composite over time: the form is submitted, or the
    delete button of an item delivers [todo-item-delete] with the [id]
    attribute of that item. *)
Inductive action : Type :=
  | Submit (raw : option jsstring) (now : Z)
  | Delete (id : string).

Definition step (c : TodoComponent) (a : action) : TodoComponent :=
  match a with
  | Submit raw now => submit raw now c
  | Delete id => handleEvent (TodoItemDelete id) c
  end.

Definition run (trace : list action) : TodoComponent :=
  fold_left step trace connected.

(** The identifiers the submits of a trace have assigned, oldest first. *)
Fixpoint assigned_ids (trace : list action) : list string :=
  match trace with
  | [] => []
  | Submit raw now :: rest =>
      match submit_listener raw now with
      | Some (TodoInputSubmit _ id) => id :: assigned_ids rest
      | _ => assigned_ids rest
      end
  | Delete _ :: rest => assigned_ids rest
  end.

(** Identifiers are compared as the numbers they spell. *)
Definition id_lt (a b : string) : Prop :=
  match parseInt a, parseInt b with
  | Some x, Some y => x < y
  | _, _ => False
  end.

(** The number the count shows. *)
Definition displayed_count (c : TodoComponent) : option Z :=
  parseInt (count_text c).

(** The second testable property of the specification, at one submit that
    follows a trace: a text that is not blank appends exactly one entry, with
    an identifier strictly greater than every identifier assigned before, and
    the displayed count goes up by exactly one; a blank text changes neither
    the list nor the count. *)
Definition submit_property (trace : list action) (raw : option jsstring)
    (now : Z) : Prop :=
  let c := run trace in
  let c' := submit raw now c in
  match trim <$> raw with
  | Some (ch :: rest) =>
      ∃ item n,
        listUl c' = listUl c ++ [item]
        ∧ Forall (λ id, id_lt id (id_attr item)) (assigned_ids trace)
        ∧ displayed_count c = Some n
        ∧ displayed_count c' = Some (n + 1)
  | _ => listUl c' = listUl c ∧ count_text c' = count_text c
  end.

(** No two items of the list are the same element, and every element was
    made by the component. *)
Definition well_formed (c : TodoComponent) : Prop :=
  NoDup (node <$> listUl c)
  ∧ Forall (λ item, (node item < created c)%nat) (listUl c).

(** The clock has moved on since every earlier submit that assigned an
    identifier. *)
Definition clock_advanced (trace : list action) (now : Z) : Prop :=
  ∀ raw t, Submit raw t ∈ trace → submit_listener raw t ≠ None → t < now.

End Todo.

(** ** iconThemeAware.js: the theme toggle *)

Module ToggleTheme.
Import JS DOM.

(** The document and the component together: [data_theme] is the
    [data-theme] attribute of the root element of the document,
    [prefers_dark] the answer of the colour-scheme media query ([false] also
    when [matchMedia] is missing), [icons] the [icon-sun] and [icon-moon]
    children of the shadow root once [render] has made them, [listening]
    whether the component listens on them. *)
Record State : Type := {
  data_theme : option string;
  prefers_dark : bool;
  icons : option (element * element);
  listening : bool
}.

Definition sun (s : State) : option element := fst <$> icons s.
Definition moon (s : State) : option element := snd <$> icons s.

(** setSystemTheme *)
Definition setSystemTheme (s : State) : State :=
  match data_theme s with
  | Some _ => s
  | None =>
      let systemTheme := if prefers_dark s then "dark" else "light" in
      {| data_theme := Some systemTheme; prefers_dark := prefers_dark s;
         icons := icons s; listening := listening s |}
  end.

(** [a || b] on a string that may be [null]: the empty string is falsy. *)
Definition or_default (v : option string) (d : string) : string :=
  match v with
  | Some EmptyString => d
  | Some t => t
  | None => d
  end.

(** setIconVisibility *)
Definition setIconVisibility (icon : string) (s : State) : string :=
  let dataTheme := or_default (data_theme s) "light" in
  if bool_decide (icon = "sun") then
    (if bool_decide (dataTheme = "dark") then "true" else "false")
  else if bool_decide (icon = "moon") then
    (if bool_decide (dataTheme = "light") then "true" else "false")
  else "false".

(** render *)
Definition render (s : State) : State :=
  {| data_theme := data_theme s; prefers_dark := prefers_dark s;
     icons := Some
       (Element "icon-sun" {[ "data-active" := setIconVisibility "sun" s ]},
        Element "icon-moon" {[ "data-active" := setIconVisibility "moon" s ]});
     listening := listening s |}.

(** hydrate / addEventListeners *)
Definition hydrate (s : State) : State :=
  {| data_theme := data_theme s; prefers_dark := prefers_dark s;
     icons := icons s;
     listening := bool_decide (is_Some (icons s)) |}.

Definition connectedCallback (s : State) : State :=
  hydrate (render (setSystemTheme s)).

(** The custom events of the icons: a type and [detail.id]. *)
Record CustomEvent : Type := { type : string; detail_id : string }.

Definition clicked_sun : CustomEvent := {| type := "clicked-sun"; detail_id := "sun" |}.
Definition clicked_moon : CustomEvent := {| type := "clicked-moon"; detail_id := "moon" |}.

(** [querySelector(..)?.setAttribute("data-active", v)] on both icons,
    followed by the write of the document theme. *)
Definition set_icons (moon_active sun_active theme : string) (s : State) : State :=
  {| data_theme := Some theme; prefers_dark := prefers_dark s;
     icons := (λ p, (setAttribute "data-active" sun_active (fst p),
                     setAttribute "data-active" moon_active (snd p))) <$> icons s;
     listening := listening s |}.

(** handleIconClick *)
Definition handleIconClick (event : CustomEvent) (s : State) : State :=
  let s1 :=
    if bool_decide (detail_id event = "moon")
    then set_icons "false" "true" "dark" s else s in
  if bool_decide (detail_id event = "sun")
  then set_icons "true" "false" "light" s1 else s1.

(** handleEvent *)
Definition handleEvent (event : CustomEvent) (s : State) : State :=
  if bool_decide (type event = "clicked-sun") then handleIconClick event s
  else if bool_decide (type event = "clicked-moon") then handleIconClick event s
  else s.

(** An icon is active when its [data-active] attribute is "true". *)
Definition active (el : option element) : bool :=
  bool_decide ((el ≫= getAttribute "data-active") = Some "true").

Definition sun_active (s : State) : bool := active (sun s).
Definition moon_active (s : State) : bool := active (moon s).

(** The events a session delivers to the toggle, one after the other. *)
Definition deliver (events : list CustomEvent) (s : State) : State :=
  fold_left (λ st e, handleEvent e st) events s.

(** What the two icons dispatch when clicked. *)
Definition from_icon (event : CustomEvent) : Prop :=
  event = clicked_sun ∨ event = clicked_moon.



End ToggleTheme.

(** ** iconThemeAware.js: the hamburger menu *)

Module Hamburger.
Import JS DOM.

(** *** JSON.parse *)

(** JSON values. A number keeps the literal as written; a string is a
    sequence of code units. *)
#[warnings="-register-all"] Inductive json : Type :=
  | JNull
  | JBool (b : bool)
  | JNumber (literal : jsstring)
  | JString (s : jsstring)
  | JArray (items : list json)
  | JObject (members : list (jsstring * json)).

Definition is_json_ws (c : code_unit) : bool :=
  ((c =? 32) || (c =? 9) || (c =? 10) || (c =? 13))%N.

Fixpoint skip_ws (s : jsstring) : jsstring :=
  match s with
  | c :: r => if is_json_ws c then skip_ws r else s
  | [] => []
  end.

Definition is_digit (c : code_unit) : bool := ((48 <=? c) && (c <=? 57))%N.

Definition hex_val (c : code_unit) : option N :=
  (if (48 <=? c) && (c <=? 57) then Some (c - 48)
   else if (65 <=? c) && (c <=? 70) then Some (c - 55)
   else if (97 <=? c) && (c <=? 102) then Some (c - 87)
   else None)%N.

(** The digits at the front of [s], and what follows them. *)
Fixpoint span_digits (s : jsstring) : jsstring * jsstring :=
  match s with
  | c :: r =>
      if is_digit c then let '(ds, rest) := span_digits r in (c :: ds, rest)
      else ([], s)
  | [] => ([], [])
  end.

(** What follows a keyword at the front of [s]. *)
Fixpoint strip_prefix (keyword s : jsstring) : option jsstring :=
  match keyword, s with
  | [], _ => Some s
  | k :: keyword', c :: r => if (k =? c)%N then strip_prefix keyword' r else None
  | _ :: _, [] => None
  end.

(** An optional minus sign. *)
Definition parse_sign (s : jsstring) : jsstring * jsstring :=
  match s with
  | c :: r => if (c =? 45)%N then ([c], r) else ([], s)
  | [] => ([], s)
  end.

(** int: a zero, or digits that do not start with a zero. *)
Definition parse_int (s : jsstring) : option (jsstring * jsstring) :=
  match span_digits s with
  | ([], _) => None
  | (d :: more, rest) =>
      if (d =? 48)%N && negb (bool_decide (more = [])) then None
      else Some (d :: more, rest)
  end.

(** frac: nothing, or a point and at least one digit. *)
Definition parse_frac (s : jsstring) : option (jsstring * jsstring) :=
  match s with
  | c :: r =>
      if (c =? 46)%N then
        match span_digits r with
        | ([], _) => None
        | (fs, rest) => Some (c :: fs, rest)
        end
      else Some ([], s)
  | [] => Some ([], s)
  end.

(** An optional plus or minus sign. *)
Definition parse_exp_sign (s : jsstring) : jsstring * jsstring :=
  match s with
  | c :: r => if ((c =? 43) || (c =? 45))%N then ([c], r) else ([], s)
  | [] => ([], s)
  end.

(** exp: nothing, or e or E, an optional sign and at least one digit. *)
Definition parse_exp (s : jsstring) : option (jsstring * jsstring) :=
  match s with
  | e :: r =>
      if ((e =? 101) || (e =? 69))%N then
        let '(sign, r1) := parse_exp_sign r in
        match span_digits r1 with
        | ([], _) => None
        | (es, rest) => Some (e :: sign ++ es, rest)
        end
      else Some ([], s)
  | [] => Some ([], s)
  end.

(** number = [-] int [frac] [exp] *)
Definition parse_number (s : jsstring) : option (jsstring * jsstring) :=
  let '(sign, s1) := parse_sign s in
  match parse_int s1 with
  | None => None
  | Some (int, s2) =>
      match parse_frac s2 with
      | None => None
      | Some (frac, s3) =>
          match parse_exp s3 with
          | None => None
          | Some (exp, s4) => Some (sign ++ int ++ frac ++ exp, s4)
          end
      end
  end.

(** The code unit an escape letter stands for. *)
Definition escape (e : code_unit) : option code_unit :=
  (if e =? 34 then Some 34
   else if e =? 92 then Some 92
   else if e =? 47 then Some 47
   else if e =? 98 then Some 8
   else if e =? 102 then Some 12
   else if e =? 110 then Some 10
   else if e =? 114 then Some 13
   else if e =? 116 then Some 9
   else None)%N.

(** The characters of a string up to its closing quote. *)
Fixpoint parse_chars (s : jsstring) : option (jsstring * jsstring) :=
  match s with
  | [] => None
  | c :: r =>
      if (c =? 34)%N then Some ([], r)
      else if (c =? 92)%N then
        match r with
        | [] => None
        | e :: r1 =>
            if (e =? 117)%N then
              match r1 with
              | h1 :: h2 :: h3 :: h4 :: r2 =>
                  match hex_val h1, hex_val h2, hex_val h3, hex_val h4 with
                  | Some a, Some b, Some c, Some d =>
                      match parse_chars r2 with
                      | Some (cs, rest) =>
                          Some ((a * 4096 + b * 256 + c * 16 + d)%N :: cs, rest)
                      | None => None
                      end
                  | _, _, _, _ => None
                  end
              | _ => None
              end
            else
              match escape e with
              | Some u =>
                  match parse_chars r1 with
                  | Some (cs, rest) => Some (u :: cs, rest)
                  | None => None
                  end
              | None => None
              end
        end
      else if (c <? 32)%N then None
      else
        match parse_chars r with
        | Some (cs, rest) => Some (c :: cs, rest)
        | None => None
        end
  end.

(** A value that is a single word: a keyword or a number. *)
Definition parse_word (s : jsstring) : option (json * jsstring) :=
  match s with
  | c :: _ =>
      if is_digit c || (c =? 45)%N then
        match parse_number s with
        | Some (literal, rest) => Some (JNumber literal, rest)
        | None => None
        end
      else
        match strip_prefix (of_ascii "null") s with
        | Some rest => Some (JNull, rest)
        | None =>
            match strip_prefix (of_ascii "true") s with
            | Some rest => Some (JBool true, rest)
            | None =>
                match strip_prefix (of_ascii "false") s with
                | Some rest => Some (JBool false, rest)
                | None => None
                end
            end
        end
  | [] => None
  end.

(** The next code unit is [c]: what follows it. *)
Definition expect (c : code_unit) (s : jsstring) : option jsstring :=
  match s with
  | x :: r => if (x =? c)%N then Some r else None
  | [] => None
  end.

(** value, elements of an array after its bracket, members of an object
    after its brace. Every call passes on less fuel; [JSON_parse] starts with
    more than the text can use. *)
Fixpoint parse_value (fuel : nat) (s : jsstring) : option (json * jsstring) :=
  match fuel with
  | O => None
  | S f =>
      match skip_ws s with
      | [] => None
      | c :: r =>
          if (c =? 34)%N then
            match parse_chars r with
            | Some (cs, rest) => Some (JString cs, rest)
            | None => None
            end
          else if (c =? 91)%N then
            match expect 93%N (skip_ws r) with
            | Some rest => Some (JArray [], rest)
            | None =>
                match parse_elements f r with
                | Some (vs, rest) => Some (JArray vs, rest)
                | None => None
                end
            end
          else if (c =? 123)%N then
            match expect 125%N (skip_ws r) with
            | Some rest => Some (JObject [], rest)
            | None =>
                match parse_members f r with
                | Some (ms, rest) => Some (JObject ms, rest)
                | None => None
                end
            end
          else parse_word (c :: r)
      end
  end
with parse_elements (fuel : nat) (s : jsstring) : option (list json * jsstring) :=
  match fuel with
  | O => None
  | S f =>
      match parse_value f s with
      | Some (v, r) =>
          match expect 93%N (skip_ws r) with
          | Some rest => Some ([v], rest)
          | None =>
              match expect 44%N (skip_ws r) with
              | Some r' =>
                  match parse_elements f r' with
                  | Some (vs, rest) => Some (v :: vs, rest)
                  | None => None
                  end
              | None => None
              end
          end
      | None => None
      end
  end
with parse_members (fuel : nat) (s : jsstring)
    : option (list (jsstring * json) * jsstring) :=
  match fuel with
  | O => None
  | S f =>
      match expect 34%N (skip_ws s) with
      | Some r =>
          match parse_chars r with
          | Some (key, r1) =>
              match expect 58%N (skip_ws r1) with
              | Some r2 =>
                  match parse_value f r2 with
                  | Some (v, r3) =>
                      match expect 125%N (skip_ws r3) with
                      | Some rest => Some ([(key, v)], rest)
                      | None =>
                          match expect 44%N (skip_ws r3) with
                          | Some r4 =>
                              match parse_members f r4 with
                              | Some (ms, rest) => Some ((key, v) :: ms, rest)
                              | None => None
                              end
                          | None => None
                          end
                      end
                  | None => None
                  end
              | None => None
              end
          | None => None
          end
      | None => None
      end
  end.

(** The fuel [JSON_parse] gives the parser. *)
Definition fuel_for (text : jsstring) : nat := (2 * length text + 3)%nat.

(** [JSON.parse(text)]: [None] when it throws a SyntaxError. *)
Definition JSON_parse (text : jsstring) : option json :=
  match parse_value (fuel_for text) text with
  | Some (v, rest) =>
      match skip_ws rest with
      | [] => Some v
      | _ => None
      end
  | None => None
  end.

(** A text is valid JSON when some amount of fuel lets the parser read a
    value that is followed by white space only. *)
Definition valid_json (text : jsstring) : Prop :=
  ∃ fuel v rest, parse_value fuel text = Some (v, rest) ∧ skip_ws rest = [].

(** A parse that succeeds with fuel [f] does not lengthen the text, and
    succeeds all the same with any fuel above twice what it consumed. *)
Definition value_fuel_ok (f : nat) : Prop :=
  ∀ s v rest,
    parse_value f s = Some (v, rest) →
    (length rest ≤ length s)%nat
    ∧ ∀ F, (2 * (length s - length rest) + 1 ≤ F)%nat →
           parse_value F s = Some (v, rest).

Definition elements_fuel_ok (f : nat) : Prop :=
  ∀ s vs rest,
    parse_elements f s = Some (vs, rest) →
    (length rest < length s)%nat
    ∧ ∀ F, (2 * (length s - length rest) ≤ F)%nat →
           parse_elements F s = Some (vs, rest).

Definition members_fuel_ok (f : nat) : Prop :=
  ∀ s ms rest,
    parse_members f s = Some (ms, rest) →
    (length rest < length s)%nat
    ∧ ∀ F, (2 * (length s - length rest) ≤ F)%nat →
           parse_members F s = Some (ms, rest).

(** The member of an object a key names; of duplicate keys the last one
    counts. *)
Fixpoint lookup_member (k : jsstring) (members : list (jsstring * json))
  : option json :=
  match members with
  | [] => None
  | (k', v) :: rest =>
      match lookup_member k rest with
      | Some later => Some later
      | None => if bool_decide (k' = k) then Some v else None
      end
  end.

(** Property access [v.k] on a parsed value other than [null]: [None] for
    [undefined]. *)
Definition field (k : string) (v : json) : option json :=
  match v with
  | JObject members => lookup_member (of_ascii k) members
  | _ => None
  end.

(** *** hamburger-nav *)

(** An anchor with id [hm-nav-link]: the values assigned to its text and
    taken for its address. The [hx-*] attributes derive from the address and
    are left out. *)
Record anchor : Type := {
  a_name : option json;
  a_url : option json
}.

(** A list item made by [createLinkItem]: a plain link, or a parent entry
    (an anchor of class [link-parent] without id) over its sub-links. *)
Inductive nav_li : Type :=
  | LinkItem (a : anchor)
  | ParentItem (name : option json) (subs : list anchor).

(** Whether [String(v)] returns for a parsed value. An object with a
    member named [toString] has no callable [toString] (a parsed member is
    never a function) and a [valueOf] that gives no primitive, so its
    conversion throws a TypeError; an array joins the conversions of its
    elements; everything else converts. *)
Fixpoint converts (v : json) : bool :=
  match v with
  | JObject members =>
      bool_decide (lookup_member (of_ascii "toString") members = None)
  | JArray items => forallb converts items
  | _ => true
  end.

(** The conversion of a property that is assigned to [textContent] or
    passed to [setAttribute]: [undefined] and [null] never throw. *)
Definition to_text (v : option json) : completion unit :=
  match v with
  | Some value =>
      if converts value then Normal tt
      else Throw (TypeError "Cannot convert object to primitive value")
  | None => Normal tt
  end.

(** createSubLinkItem: the name is assigned to [textContent], the address
    is passed to [setAttribute]. *)
Definition createSubLinkItem (child : json) : completion anchor :=
  match child with
  | JNull => Throw (TypeError "Cannot read properties of null (reading 'name')")
  | _ =>
      match to_text (field "name" child) with
      | Throw e => Throw e
      | Normal _ =>
          match to_text (field "url" child) with
          | Throw e => Throw e
          | Normal _ =>
              Normal {| a_name := field "name" child; a_url := field "url" child |}
          end
      end
  end.

Fixpoint createSubLinkItems (children : list json) : completion (list anchor) :=
  match children with
  | [] => Normal []
  | child :: rest =>
      match createSubLinkItem child with
      | Throw e => Throw e
      | Normal a =>
          match createSubLinkItems rest with
          | Throw e => Throw e
          | Normal more => Normal (a :: more)
          end
      end
  end.

(** createLinkItem. In both branches the name is assigned to
    [textContent] first; a plain link passes its address to [setAttribute]
    when the address is truthy, and a value that does not convert is an
    object or an array, which is truthy. *)
Definition createLinkItem (link : json) : completion nav_li :=
  match link with
  | JNull => Throw (TypeError "Cannot read properties of null (reading 'children')")
  | _ =>
      match field "children" link with
      | Some (JArray (child :: rest)) =>
          match to_text (field "name" link) with
          | Throw e => Throw e
          | Normal _ =>
              match createSubLinkItems (child :: rest) with
              | Throw e => Throw e
              | Normal subs => Normal (ParentItem (field "name" link) subs)
              end
          end
      | _ =>
          match to_text (field "name" link) with
          | Throw e => Throw e
          | Normal _ =>
              match to_text (field "url" link) with
              | Throw e => Throw e
              | Normal _ =>
                  Normal (LinkItem {| a_name := field "name" link;
                                      a_url := field "url" link |})
              end
          end
      end
  end.

Fixpoint createLinkItems (links : list json) : completion (list nav_li) :=
  match links with
  | [] => Normal []
  | link :: rest =>
      match createLinkItem link with
      | Throw e => Throw e
      | Normal li =>
          match createLinkItems rest with
          | Throw e => Throw e
          | Normal more => Normal (li :: more)
          end
      end
  end.

(** [hamburger-nav]: [dataLinks] is the field of that name ([None] for
    [undefined] and, before [render], for [null]); [nav_items] the list items
    under [#hm-nav], absent while the element has no rendered content;
    [console] what was logged; [hydrated] whether [hydrate] has run. *)
Record HamburgerNav : Type := {
  dataLinks : option json;
  nav_items : option (list nav_li);
  console : list string;
  hydrated : bool
}.

Definition nav_constructor : HamburgerNav :=
  {| dataLinks := None; nav_items := None; console := []; hydrated := false |}.

(** getDataLinks: [raw] is the [data-links] attribute of the first
    [hamburger-menu] of the document; [JSON.parse(null)] parses the text
    "null". The result is the value returned ([None] for [undefined]) and
    the lines logged. *)
Definition getDataLinks (raw : option jsstring) : option json * list string :=
  let text := match raw with Some t => t | None => of_ascii "null" end in
  match JSON_parse text with
  | Some links => (Some links, [])
  | None => (None, ["Invalid JSON in data-links:"])
  end.

(** HamburgerNav.render: the state it leaves and how it ends. *)
Definition nav_render (raw : option jsstring) (n : HamburgerNav)
  : HamburgerNav * completion unit :=
  let '(links, logged) := getDataLinks raw in
  let n1 := {| dataLinks := links; nav_items := nav_items n;
               console := (console n ++ logged)%list; hydrated := hydrated n |} in
  match links with
  | None =>
      (n1, Throw (TypeError "Cannot read properties of undefined (reading 'forEach')"))
  | Some JNull =>
      (n1, Throw (TypeError "Cannot read properties of null (reading 'forEach')"))
  | Some (JArray items) =>
      match createLinkItems items with
      | Throw e => (n1, Throw e)
      | Normal lis =>
          ({| dataLinks := links; nav_items := Some lis;
              console := console n1; hydrated := hydrated n1 |}, Normal tt)
      end
  | Some _ => (n1, Throw (TypeError "this.dataLinks.forEach is not a function"))
  end.

(** HamburgerNav.connectedCallback: [hydrate] runs only when [render] has
    returned. The call of the fragment-swap library at the end of [hydrate]
    belongs to that library and is taken to return. *)
Definition nav_connectedCallback (raw : option jsstring) (n : HamburgerNav)
  : HamburgerNav * completion unit :=
  match nav_render raw n with
  | (n1, Normal _) =>
      ({| dataLinks := dataLinks n1; nav_items := nav_items n1;
          console := console n1; hydrated := true |}, Normal tt)
  | (n1, Throw e) => (n1, Throw e)
  end.

(** The anchors with id [hm-nav-link] under a nav, in tree order. *)
Definition anchors_of (li : nav_li) : list anchor :=
  match li with
  | LinkItem a => [a]
  | ParentItem _ subs => subs
  end.

Definition nav_links (n : HamburgerNav) : list anchor :=
  match nav_items n with
  | Some lis => concat (anchors_of <$> lis)
  | None => []
  end.

(** *** hamburger-menu *)

(** [icon_el] and [nav_el] are the [hamburger-icon] and [hamburger-nav]
    children once rendered, [nav] the state of the latter; [hmIcon] and
    [hmNav] tell whether the fields of these names hold them;
    [icon_listener] whether the icon has its click listener; [hmNavLinks] how
    many anchors [querySelectorAll("#hm-nav-link")] found, each of which got
    a click listener. *)
Record HamburgerMenu : Type := {
  data_links : option jsstring;
  rendered : bool;
  icon_el : option element;
  nav_el : option element;
  nav : HamburgerNav;
  hmIcon : bool;
  hmNav : bool;
  icon_listener : bool;
  hmNavLinks : nat
}.

Definition menu_constructor (data_links : option jsstring) : HamburgerMenu :=
  {| data_links := data_links; rendered := false; icon_el := None;
     nav_el := None; nav := nav_constructor; hmIcon := false; hmNav := false;
     icon_listener := false; hmNavLinks := O |}.

(** HamburgerMenu.render. The new [hamburger-nav] child is connected at
    once; an error its callback throws is reported by the browser and is
    returned here next to the state. *)
Definition menu_render (m : HamburgerMenu) : HamburgerMenu * completion unit :=
  if rendered m then (m, Normal tt)
  else
    let '(n, outcome) := nav_connectedCallback (data_links m) nav_constructor in
    ({| data_links := data_links m; rendered := true;
        icon_el := Some (Element "hamburger-icon"
                           {[ "data-active" := "false"; "id" := "hm-icon" ]});
        nav_el := Some (Element "hamburger-nav"
                          {[ "data-active" := "false"; "id" := "hm-nav" ]});
        nav := n; hmIcon := hmIcon m; hmNav := hmNav m;
        icon_listener := icon_listener m; hmNavLinks := hmNavLinks m |},
     outcome).

(** attachEventListener: binds [hmIcon], gives it a click listener when it
    is there, and gives every anchor with id [hm-nav-link] a click
    listener. *)
Definition attachEventListener (m : HamburgerMenu) : HamburgerMenu :=
  let found := bool_decide (is_Some (icon_el m)) in
  {| data_links := data_links m; rendered := rendered m; icon_el := icon_el m;
     nav_el := nav_el m; nav := nav m; hmIcon := found; hmNav := hmNav m;
     icon_listener := icon_listener m || found;
     hmNavLinks := length (nav_links (nav m)) |}.

(** The element a bound field holds. *)
Definition bound (is_bound : bool) (el : option element) : option element :=
  if is_bound then el else None.

(** setMenuState *)
Definition setMenuState (m : HamburgerMenu) : completion HamburgerMenu :=
  match bound (hmIcon m) (icon_el m), bound (hmNav m) (nav_el m) with
  | Some icon, Some nv =>
      Normal {| data_links := data_links m; rendered := rendered m;
                icon_el := Some (setAttribute "data-active" "false" icon);
                nav_el := Some (setAttribute "data-active" "false" nv);
                nav := nav m; hmIcon := hmIcon m; hmNav := hmNav m;
                icon_listener := icon_listener m; hmNavLinks := hmNavLinks m |}
  | _, _ => Throw (TypeError "Cannot read properties of null (reading 'setAttribute')")
  end.

(** HamburgerMenu.hydrate: binds [hmNav], then runs [attachEventListener]
    and [setMenuState]. *)
Definition menu_hydrate (m : HamburgerMenu) : completion HamburgerMenu :=
  let m1 := {| data_links := data_links m; rendered := rendered m;
               icon_el := icon_el m; nav_el := nav_el m; nav := nav m;
               hmIcon := hmIcon m;
               hmNav := bool_decide (is_Some (nav_el m));
               icon_listener := icon_listener m; hmNavLinks := hmNavLinks m |} in
  setMenuState (attachEventListener m1).

(** [String(b)] *)
Definition boolean_to_string (b : bool) : string :=
  if b then "true" else "false".

(** toggleAttribute *)
Definition toggleAttribute (m : HamburgerMenu) : completion HamburgerMenu :=
  match bound (hmIcon m) (icon_el m), bound (hmNav m) (nav_el m) with
  | Some icon, Some nv =>
      let current := bool_decide (getAttribute "data-active" icon = Some "true") in
      Normal {| data_links := data_links m; rendered := rendered m;
                icon_el := Some (setAttribute "data-active"
                                   (boolean_to_string (negb current)) icon);
                nav_el := Some (setAttribute "data-active"
                                  (boolean_to_string (negb current)) nv);
                nav := nav m; hmIcon := hmIcon m; hmNav := hmNav m;
                icon_listener := icon_listener m; hmNavLinks := hmNavLinks m |}
  | _, _ => Throw (TypeError "Cannot read properties of null (reading 'getAttribute')")
  end.

(** A click on the hamburger icon runs its listener, if it has one. *)
Definition click_icon (m : HamburgerMenu) : completion HamburgerMenu :=
  if icon_listener m then toggleAttribute m else Normal m.

(** A click on the [i]-th anchor with id [hm-nav-link]. *)
Definition click_link (i : nat) (m : HamburgerMenu) : completion HamburgerMenu :=
  if bool_decide (i < hmNavLinks m)%nat then toggleAttribute m else Normal m.

Definition icon_active (m : HamburgerMenu) : option string :=
  icon_el m ≫= getAttribute "data-active".

Definition nav_active (m : HamburgerMenu) : option string :=
  nav_el m ≫= getAttribute "data-active".

(** HamburgerMenu.connectedCallback, with every element of the file defined
    before the menu is connected. An error of the child is reported, not
    thrown into [render]. *)
Definition menu_connectedCallback (m : HamburgerMenu) : completion HamburgerMenu :=
  menu_hydrate (fst (menu_render m)).

(** The menu of a page, connected once. *)
Definition connected_menu (data_links : option jsstring) : completion HamburgerMenu :=
  menu_connectedCallback (menu_constructor data_links).

(** What the user clicks. *)
Inductive click : Type :=
  | ClickIcon
  | ClickLink (i : nat).

Definition do_click (c : click) (m : HamburgerMenu) : completion HamburgerMenu :=
  match c with
  | ClickIcon => click_icon m
  | ClickLink i => click_link i m
  end.

Fixpoint do_clicks (cs : list click) (m : HamburgerMenu) : completion HamburgerMenu :=
  match cs with
  | [] => Normal m
  | c :: rest =>
      match do_click c m with
      | Normal m' => do_clicks rest m'
      | Throw e => Throw e
      end
  end.

(** A click that finds a listener. *)
Definition has_listener (c : click) (m : HamburgerMenu) : Prop :=
  match c with
  | ClickIcon => icon_listener m = true
  | ClickLink i => (i < hmNavLinks m)%nat
  end.

(** The menu is open when both elements are active. *)
Definition menu_state (m : HamburgerMenu) (open : bool) : Prop :=
  icon_active m = Some (boolean_to_string open)
  ∧ nav_active m = Some (boolean_to_string open).

(** The sixth testable property of the specification, at one menu and one
    link: a click on the icon gives both elements the same new value, the
    opposite of the old one, and a click on the link leaves both
    inactive. *)
Definition menu_property (m : HamburgerMenu) (i : nat) : Prop :=
  (∀ open m', menu_state m open → click_icon m = Normal m' →
              menu_state m' (negb open))
  ∧ (∀ m', click_link i m = Normal m' → menu_state m' false).

(** A JSON string literal for an ASCII text without quotes or backslashes. *)
Definition quoted (s : string) : jsstring := 34%N :: of_ascii s ++ [34%N].

(** The text of a small navigation: a plain link, and a parent entry with
    one sub-link. *)
Definition sample_links : jsstring :=
  of_ascii "[{" ++ quoted "name" ++ of_ascii ":" ++ quoted "Home" ++ of_ascii ","
  ++ quoted "url" ++ of_ascii ":" ++ quoted "/" ++ of_ascii "},{"
  ++ quoted "name" ++ of_ascii ":" ++ quoted "Docs" ++ of_ascii ","
  ++ quoted "children" ++ of_ascii ":[{" ++ quoted "name" ++ of_ascii ":"
  ++ quoted "Api" ++ of_ascii "," ++ quoted "url" ++ of_ascii ":"
  ++ quoted "/api" ++ of_ascii "}]}]".

(** The fields [toggleAttribute] goes through are bound and the icon has
    its listener. *)
Definition wired (m : HamburgerMenu) : Prop :=
  hmIcon m = true ∧ hmNav m = true ∧ icon_listener m = true.

End Hamburger.

(** ** iconThemeAware.js: the icon loader *)

Module IconLoader.
Import JS DOM.

Definition Blob := string.

(** How a [fetch] ends: it rejects, or resolves with a response. *)
Inductive fetch_outcome : Type :=
  | NetworkError
  | Response (ok : bool) (statusText : string) (body : Blob).

(** The surroundings of the component: the [data-theme] attribute of the
    document, the colour-scheme preference, the network (what the [n]-th
    request, for a URL, is answered with), whether the cache storage refuses
    writes, the URLs requested so far (oldest first), the named caches and
    the lines written to the console (oldest first). *)
Record World : Type := {
  data_theme : option string;
  prefers_dark : bool;
  network : nat → string → fetch_outcome;
  storage_full : bool;
  requests : list string;
  caches : gmap string (gmap string Blob);
  console : list string
}.

(** An [img] element appended to the container. *)
Record img : Type := {
  img_width : Z;
  img_height : Z;
  img_blob : Blob;
  img_alt : string
}.

(** The element: its attributes, the children of [#icon-container] (absent
    until [render] has made the container), whether the mutation observer is
    registered, and the fields ([None] for [undefined] or [null]). *)
Record Loader : Type := {
  host : element;
  container : option (list img);
  observer : bool;
  currentTheme : option string;
  iconLight : option Blob;
  iconDark : option Blob;
  iconHeight : option Z;
  iconWidth : option Z;
  srcLight : option string;
  srcDark : option string;
  name : option string;
  cache : option string
}.

Record State : Type := { world : World; self : Loader }.

(** *** Field updates *)

Definition set_data_theme (v : option string) (w : World) : World :=
  {| data_theme := v; prefers_dark := prefers_dark w; network := network w;
     storage_full := storage_full w; requests := requests w; caches := caches w;
     console := console w |}.

Definition set_requests (v : list string) (w : World) : World :=
  {| data_theme := data_theme w; prefers_dark := prefers_dark w;
     network := network w; storage_full := storage_full w; requests := v;
     caches := caches w; console := console w |}.

Definition set_caches (v : gmap string (gmap string Blob)) (w : World) : World :=
  {| data_theme := data_theme w; prefers_dark := prefers_dark w;
     network := network w; storage_full := storage_full w;
     requests := requests w; caches := v; console := console w |}.

Definition set_console (v : list string) (w : World) : World :=
  {| data_theme := data_theme w; prefers_dark := prefers_dark w;
     network := network w; storage_full := storage_full w;
     requests := requests w; caches := caches w; console := v |}.

Definition set_container (v : option (list img)) (l : Loader) : Loader :=
  {| host := host l; container := v; observer := observer l;
     currentTheme := currentTheme l; iconLight := iconLight l;
     iconDark := iconDark l; iconHeight := iconHeight l;
     iconWidth := iconWidth l; srcLight := srcLight l; srcDark := srcDark l;
     name := name l; cache := cache l |}.

Definition set_observer (v : bool) (l : Loader) : Loader :=
  {| host := host l; container := container l; observer := v;
     currentTheme := currentTheme l; iconLight := iconLight l;
     iconDark := iconDark l; iconHeight := iconHeight l;
     iconWidth := iconWidth l; srcLight := srcLight l; srcDark := srcDark l;
     name := name l; cache := cache l |}.

Definition set_currentTheme (v : option string) (l : Loader) : Loader :=
  {| host := host l; container := container l; observer := observer l;
     currentTheme := v; iconLight := iconLight l;
     iconDark := iconDark l; iconHeight := iconHeight l;
     iconWidth := iconWidth l; srcLight := srcLight l; srcDark := srcDark l;
     name := name l; cache := cache l |}.

Definition set_iconLight (v : option Blob) (l : Loader) : Loader :=
  {| host := host l; container := container l; observer := observer l;
     currentTheme := currentTheme l; iconLight := v;
     iconDark := iconDark l; iconHeight := iconHeight l;
     iconWidth := iconWidth l; srcLight := srcLight l; srcDark := srcDark l;
     name := name l; cache := cache l |}.

Definition set_iconDark (v : option Blob) (l : Loader) : Loader :=
  {| host := host l; container := container l; observer := observer l;
     currentTheme := currentTheme l; iconLight := iconLight l;
     iconDark := v; iconHeight := iconHeight l;
     iconWidth := iconWidth l; srcLight := srcLight l; srcDark := srcDark l;
     name := name l; cache := cache l |}.

(** *** Computations over the state that may throw *)

Definition M (A : Type) : Type := State → completion A * State.

Definition ret {A} (a : A) : M A := λ s, (Normal a, s).

Definition bind {A B} (m : M A) (k : A → M B) : M B :=
  λ s, match m s with
       | (Normal a, s') => k a s'
       | (Throw e, s') => (Throw e, s')
       end.

Definition throw {A} (e : js_error) : M A := λ s, (Throw e, s).

(** [try { body } catch (e) { handler }] *)
Definition try_catch {A} (body : M A) (handler : js_error → M A) : M A :=
  λ s, match body s with
       | (Normal a, s') => (Normal a, s')
       | (Throw e, s') => handler e s'
       end.

Definition get : M State := λ s, (Normal s, s).
Definition modify_world (f : World → World) : M unit :=
  λ s, (Normal tt, {| world := f (world s); self := self s |}).
Definition modify_self (f : Loader → Loader) : M unit :=
  λ s, (Normal tt, {| world := world s; self := f (self s) |}).

Notation "'let*' x := m 'in' k" := (bind m (λ x, k))
  (at level 10, x name, m at level 100, k at level 200).
Notation "m ;; k" := (bind m (λ _, k))
  (at level 100, k at level 200, right associativity).

(** *** Reading the surroundings *)

(** getDimensionAttribute. The size is the integer [parseInt] reads, which
    a JavaScript number holds exactly up to a magnitude of 2^53. *)
Definition getDimensionAttribute (el : element) (attrName : string) (fallback : Z)
  : Z :=
  match getAttribute attrName el with
  | Some attr =>
      match parseInt attr with
      | Some value => value
      | None => fallback
      end
  | None => fallback
  end.

(** getSystemTheme *)
Definition getSystemTheme : M string :=
  let* s := get in
  match data_theme (world s) with
  | Some theme => ret theme
  | None =>
      let theme := if prefers_dark (world s) then "dark" else "light" in
      modify_world (set_data_theme (Some theme)) ;;
      ret theme
  end.

(** Text a template literal splices in for a string that may be [null]. *)
Definition template_text (v : option string) : string :=
  match v with Some t => t | None => "null" end.

(** initCache: [caches.open] makes the cache when there is none of that
    name and hands it out. *)
Definition initCache (cacheName : option string) : M (option string) :=
  let key := template_text cacheName in
  let* s := get in
  match caches (world s) !! key with
  | Some _ => ret (Some key)
  | None =>
      modify_world (λ w, set_caches (<[key := ∅]> (caches w)) w) ;;
      ret (Some key)
  end.

(** getCacheItem *)
Definition getCacheItem (cache : option string) (key : option string)
  : M (option Blob) :=
  match cache with
  | None => ret None
  | Some cacheName =>
      match key with
      | None => ret None
      | Some k =>
          let* s := get in
          ret (caches (world s) !! cacheName ≫= (λ entries, entries !! k))
      end
  end.

(** getIcon *)
Definition getIcon (cache : option string) (iconSrc : option string)
  : M (option Blob) :=
  getCacheItem cache iconSrc.

(** initIcons *)
Definition initIcons (cache : option string) (srcLight srcDark : option string)
  : M unit :=
  let* light := getIcon cache srcLight in
  modify_self (set_iconLight light) ;;
  let* dark := getIcon cache srcDark in
  modify_self (set_iconDark dark).

(** *** The network *)

(** [fetch(url)]: one more request; a rejection is thrown at the [await]. *)
Definition fetch (url : string) : M (bool * string * Blob) :=
  let* s := get in
  let outcome := network (world s) (length (requests (world s))) url in
  modify_world (λ w, set_requests (requests w ++ [url])%list w) ;;
  match outcome with
  | NetworkError => throw (TypeError "Failed to fetch")
  | Response ok statusText body => ret (ok, statusText, body)
  end.

(** [cache.put(url, response)] *)
Definition cache_put (cacheName url : string) (body : Blob) : M unit :=
  let* s := get in
  if storage_full (world s) then throw (Error "QuotaExceededError")
  else
    modify_world (λ w,
      set_caches
        (<[cacheName := <[url := body]> (default ∅ (caches w !! cacheName))]>
           (caches w)) w).

(** An empty string is falsy, like [null]. *)
Definition truthy (v : option string) : option string :=
  match v with
  | Some EmptyString => None
  | _ => v
  end.

(** [console.log], [console.warn] and [console.error]: one more line. *)
Definition console_write (line : string) : M unit :=
  modify_world (λ w, set_console (console w ++ [line]) w).

(** fetchIcon. Its first statement logs the source, so the console tells
    how often it has been called. *)
Definition fetchIcon (iconSrc : option string) (cache : option string)
  : M (option Blob) :=
  console_write (template_text iconSrc) ;;
  match truthy iconSrc, cache with
  | Some src, Some cacheName =>
      try_catch
        (let* response := fetch src in
         let '(ok, statusText, body) := response in
         if negb ok
         then throw (Error ("Failed to fetch icon: " +:+ statusText))
         else
           cache_put cacheName src body ;;
           ret (Some body))
        (λ error, console_write "Error fetching icon:" ;; ret None)
  | _, _ =>
      console_write "Icon source or cache not available" ;;
      ret None
  end.

(** *** Presentation *)

(** insertIcon *)
Definition insertIcon (height width : Z) (theme : string) : M unit :=
  let* s := get in
  match container (self s) with
  | None => ret tt
  | Some _ =>
      modify_self (set_container (Some [])) ;;
      (if bool_decide (theme = "light") then
         match iconLight (self s) with
         | Some blob =>
             match iconWidth (self s), iconHeight (self s) with
             | Some _, Some _ =>
                 modify_self (λ l, set_container
                   (Some (default [] (container l) ++
                          [ {| img_width := width; img_height := height;
                               img_blob := blob; img_alt := "Light Icon" |} ])%list) l)
             | _, _ =>
                 throw (Error "iconWidth and iconHeight must be set before calling insertIcon")
             end
         | None => ret tt
         end
       else ret tt) ;;
      (if bool_decide (theme = "dark") then
         match iconDark (self s) with
         | Some blob =>
             match iconWidth (self s), iconHeight (self s) with
             | Some w, Some h =>
                 modify_self (λ l, set_container
                   (Some (default [] (container l) ++
                          [ {| img_width := w; img_height := h;
                               img_blob := blob; img_alt := "Dark Icon" |} ])%list) l)
             | _, _ =>
                 throw (Error "iconWidth and iconHeight must be set before calling insertIcon")
             end
         | None => ret tt
         end
       else ret tt)
  end.

(** render: the shadow root gets its style and an empty [#icon-container]. *)
Definition render : M unit :=
  modify_self (set_container (Some [])).

(** A mutation record: only its type is read. *)
Record MutationRecord : Type := { mutation_type : string }.

(** The body of the observer's loop, for one record. *)
Definition on_mutation (mutation : MutationRecord) : M unit :=
  if bool_decide (mutation_type mutation = "attributes") then
    let* s := get in
    let theme := data_theme (world s) in
    (match currentTheme (self s), theme with
     | Some _, Some t => modify_self (set_currentTheme (Some t))
     | _, _ => ret tt
     end) ;;
    let* s1 := get in
    let show :=
      match iconHeight (self s1), iconWidth (self s1), currentTheme (self s1) with
      | Some h, Some w, Some current => insertIcon h w current
      | _, _, _ => ret tt
      end in
    if bool_decide (theme = Some "light") then show
    else if bool_decide (theme = Some "dark") then show
    else ret tt
  else ret tt.

(** The callback of the mutation observer. *)
Fixpoint observer_callback (mutationsList : list MutationRecord) : M unit :=
  match mutationsList with
  | [] => ret tt
  | mutation :: rest => on_mutation mutation ;; observer_callback rest
  end.

(** observeAttributes *)
Definition observeAttributes : M unit :=
  modify_self (set_observer true).

(** *** Lifecycle *)

(** initVariables *)
Definition initVariables : M unit :=
  let* theme := getSystemTheme in
  let* s := get in
  let el := host (self s) in
  modify_self (λ l,
    {| host := host l; container := container l; observer := observer l;
       currentTheme := Some theme;
       iconLight := None;
       iconDark := None;
       iconHeight := Some (getDimensionAttribute el "data-height" 64);
       iconWidth := Some (getDimensionAttribute el "data-width" 64);
       srcLight := getAttribute "data-src-light" el;
       srcDark := getAttribute "data-src-dark" el;
       name := getAttribute "data-name" el;
       cache := cache l |}) ;;
  let* opened := initCache (getAttribute "data-name" el) in
  modify_self (λ l,
    {| host := host l; container := container l; observer := observer l;
       currentTheme := currentTheme l; iconLight := iconLight l;
       iconDark := iconDark l; iconHeight := iconHeight l;
       iconWidth := iconWidth l; srcLight := srcLight l; srcDark := srcDark l;
       name := name l; cache := opened |}).

(** hydrate *)
Definition hydrate : M unit :=
  initVariables ;;
  let* s := get in
  match cache (self s) with
  | None => throw (Error "Cache was not initialized")
  | Some _ =>
      match truthy (srcLight (self s)), truthy (srcDark (self s)) with
      | Some _, Some _ =>
          initIcons (cache (self s)) (srcLight (self s)) (srcDark (self s)) ;;
          let* s1 := get in
          (match iconLight (self s1) with
           | None =>
               let* icon := fetchIcon (srcLight (self s1)) (cache (self s1)) in
               modify_self (set_iconLight icon)
           | Some _ => ret tt
           end) ;;
          let* s2 := get in
          (match iconDark (self s2) with
           | None =>
               let* icon := fetchIcon (srcDark (self s2)) (cache (self s2)) in
               modify_self (set_iconDark icon)
           | Some _ => ret tt
           end) ;;
          let* s3 := get in
          match iconWidth (self s3), iconHeight (self s3) with
          | Some w, Some h =>
              match currentTheme (self s3) with
              | Some theme =>
                  insertIcon h w theme ;;
                  observeAttributes
              | None => throw (Error "currentTheme must be set before calling insertIcon")
              end
          | _, _ =>
              throw (Error "iconWidth and iconHeight must be set before calling insertIcon")
          end
      | _, _ => throw (Error "Missing icon source(s): srcLight or srcDark is null")
      end
  end.

(** connectedCallback *)
Definition connectedCallback : M unit := render ;; hydrate.

(** The element as its constructor leaves it. *)
Definition constructor (attributes : gmap string string) : Loader :=
  {| host := Element "icon-theme-aware" attributes; container := None;
     observer := false; currentTheme := None; iconLight := None;
     iconDark := None; iconHeight := None; iconWidth := None;
     srcLight := None; srcDark := None; name := None; cache := None |}.

(** A write of the [data-theme] attribute of the document by anyone; a
    registered observer is then called with the record of the change. *)
Definition theme_change (theme : string) : M unit :=
  modify_world (set_data_theme (Some theme)) ;;
  let* s := get in
  if observer (self s)
  then observer_callback [ {| mutation_type := "attributes" |} ]
  else ret tt.

Fixpoint theme_changes (themes : list string) : M unit :=
  match themes with
  | [] => ret tt
  | theme :: rest => theme_change theme ;; theme_changes rest
  end.

(** *** Notions the properties are stated with *)

(** The next request for a URL fails: the fetch rejects, or the response is
    not ok. *)
Definition fetch_fails (w : World) (url : string) : Prop :=
  match network w (length (requests w)) url with
  | NetworkError => True
  | Response ok _ _ => ok = false
  end.

(** The blob held for a theme: only "light" and "dark" have one. *)
Definition variant (theme : string) (l : Loader) : option Blob :=
  if bool_decide (theme = "light") then iconLight l
  else if bool_decide (theme = "dark") then iconDark l
  else None.

(** The image [insertIcon] makes for a theme, when it makes one. *)
Definition picture (height width : Z) (theme : string) (l : Loader) : option img :=
  match variant theme l, iconWidth l, iconHeight l with
  | Some blob, Some w, Some h =>
      Some (if bool_decide (theme = "light")
            then {| img_width := width; img_height := height;
                    img_blob := blob; img_alt := "Light Icon" |}
            else {| img_width := w; img_height := h;
                    img_blob := blob; img_alt := "Dark Icon" |})
  | _, _, _ => None
  end.

(** How [insertIcon] ends: it throws when it has a blob to show and no
    sizes. *)
Definition insertIcon_outcome (theme : string) (l : Loader) : completion unit :=
  match variant theme l, iconWidth l, iconHeight l with
  | Some _, Some _, Some _ => Normal tt
  | Some _, _, _ =>
      Throw (Error "iconWidth and iconHeight must be set before calling insertIcon")
  | None, _, _ => Normal tt
  end.

(** The children of the container in the ready state, for a theme. *)
Definition shown (theme : string) (l : Loader) : list img :=
  match iconHeight l, iconWidth l with
  | Some h, Some w => option_list (picture h w theme l)
  | _, _ => []
  end.

(** The component has reached the ready state from [before]:
    [connectedCallback] has returned. *)
Definition ready (before s : State) : Prop :=
  connectedCallback before = (Normal tt, s).



(** A triple: what holds of the result and the state when a computation
    started under [P] returns. *)
Definition hoare {A} (P : State → Prop) (m : M A) (Q : A → State → Prop) : Prop :=
  ∀ s, P s → match m s with
             | (Normal a, s') => Q a s'
             | (Throw _, _) => True
             end.


(** *** A page to run the component on *)

(** A network on which every request is answered with the bytes named
    after the URL. *)
Definition network_up : nat → string → fetch_outcome :=
  λ _ url, Response true "OK" ("bytes of " +:+ url).

(** A network on which the first request is answered with a 404 and every
    later one is rejected. *)
Definition network_down : nat → string → fetch_outcome :=
  λ n _, match n with
         | O => Response false "Not Found" EmptyString
         | S _ => NetworkError
         end.

(** A document with the given theme and network, empty cache storage, and
    an [icon-theme-aware] element fresh from its constructor. *)
Definition page (theme : option string) (net : nat → string → fetch_outcome)
  : State :=
  {| world := {| data_theme := theme; prefers_dark := false; network := net;
                 storage_full := false; requests := []; caches := ∅;
                 console := [] |};
     self := constructor {[ "data-src-light" := "/sun.svg";
                            "data-src-dark" := "/moon.svg";
                            "data-name" := "icons";
                            "data-width" := "32" ]} |}.

End IconLoader.

(** ** Further parts of the components *)

(** *** counter-component: a second connection *)

Module CounterMore.
Import JS DOM Counter.

(** The element is taken out of the document and put back: the browser
    calls [connectedCallback] again, between two runs of events. *)
Definition deliver_reconnect_deliver (first second : list Event) (c : CounterRoot)
  : completion CounterRoot :=
  match deliver first c with
  | Throw e => Throw e
  | Normal c1 =>
      match connectedCallback c1 with
      | Throw e => Throw e
      | Normal c2 => deliver second c2
      end
  end.

End CounterMore.

(** *** todo-item and the bookkeeping of todo-component *)

Module TodoMore.
Import JS Todo.

(** A text without the code unit [<]. [todo-item] splices its [text]
    attribute into its markup, where such a text makes a text node and
    nothing else: the only button of the item is its delete button, and the
    only [todo-item] elements below the list are its children. *)
Definition plain_text (t : jsstring) : bool :=
  forallb (λ c, negb (c =? 60)%N) t.

(** A text of decimal digits, like the identifiers [todo-input] makes. The
    lists look an item up with the selector [todo-item[id="<id>"]], into
    which the identifier goes as it is: for such an identifier the selector
    is well formed and matches the items with that [id] attribute. *)
Fixpoint digits_only (s : string) : bool :=
  match s with
  | EmptyString => true
  | String c r => bool_decide (is_Some (digit_val c)) && digits_only r
  end.

(** The traces the model of the lists is exact for: every text submitted
    is plain and every delete carries an identifier of digits. *)
Definition plain (a : action) : bool :=
  match a with
  | Submit raw _ =>
      match raw with
      | Some t => plain_text t
      | None => true
      end
  | Delete id => digits_only id
  end.

Definition plain_trace (trace : list action) : bool := forallb plain trace.

(** The click listener of the delete button of a [todo-item] with a plain
    text: it dispatches [todo-item-delete] with the [id] attribute of the
    item; the event reaches the component through the listener the component
    put on that item, if it put one. *)
Definition click_delete (item : TodoItem) (c : TodoComponent) : TodoComponent :=
  if bool_decide (node item ∈ delete_listeners c)
  then handleEvent (TodoItemDelete (id_attr item)) c
  else c.

(** The deletes of a trace, started in [c], that name no entry of the list
    when they arrive. *)
Fixpoint missed_from (c : TodoComponent) (trace : list action) : nat :=
  match trace with
  | [] => O
  | a :: rest =>
      (match a with
       | Delete id =>
           match query_todo_item id (listUl c) with
           | None => 1%nat
           | Some _ => O
           end
       | Submit _ _ => O
       end + missed_from (step c a) rest)%nat
  end.

Definition missed_deletes (trace : list action) : nat :=
  missed_from connected trace.

(** The component keeps a listener on every item of the list, and its array
    is the list. *)
Definition array_mirrors_list (c : TodoComponent) : Prop :=
  todoItems c = listUl c
  ∧ Forall (λ item, node item ∈ delete_listeners c) (listUl c).

(** What holds of the component after a trace that never assigned an
    identifier twice: the array is the list, every item has its listener,
    and the identifiers in the list are distinct ones the input assigned. *)
Definition tidy (trace : list action) : Prop :=
  array_mirrors_list (run trace)
  ∧ Forall (λ item, id_attr item ∈ assigned_ids trace) (listUl (run trace))
  ∧ NoDup (id_attr <$> listUl (run trace)).

End TodoMore.
(** *** The theme toggle together with its two icons *)

Module ToggleIcons.
Import JS DOM ToggleTheme.

(** The [div] an icon renders into itself ([#icon-sun], [#icon-moon]): its
    class list, and its [tabIndex] once a script has assigned one. *)
Record Div : Type := { classList : list string; tabIndex : option Z }.

(** [classList.add], [classList.remove] and the [tabIndex] setter. *)
Definition classList_add (token : string) (d : Div) : Div :=
  {| classList := if bool_decide (token ∈ classList d) then classList d
                  else classList d ++ [token];
     tabIndex := tabIndex d |}.

Definition classList_remove (token : string) (d : Div) : Div :=
  {| classList := filter (λ t, t ≠ token) (classList d);
     tabIndex := tabIndex d |}.

Definition set_tabIndex (v : Z) (d : Div) : Div :=
  {| classList := classList d; tabIndex := Some v |}.

(** The tokens the last placeholder of a [class] attribute contributes. *)
Definition class_tokens (display : string) : list string :=
  match display with
  | EmptyString => []
  | _ => [display]
  end.

Record MutationRecord : Type := { mutation_type : string }.

(** **** icon-sun *)

(** setDisplay *)
Definition sun_setDisplay (data_theme : option string) : string :=
  let dataTheme := or_default data_theme "light" in
  if bool_decide (dataTheme = "dark") then "active" else EmptyString.

(** render: the [div] that becomes the content of the element. *)
Definition sun_render (data_theme : option string) : Div :=
  {| classList := ["icon"; "icon-sun"] ++ class_tokens (sun_setDisplay data_theme);
     tabIndex := None |}.

(** hydrate, on the result of [querySelector("#icon-sun")]. *)
Definition sun_hydrate (found : option Div) : completion Div :=
  match found with
  | None => Throw (Error "icon-sun element not found")
  | Some icon => Normal icon
  end.

Definition sun_connectedCallback (data_theme : option string) : completion Div :=
  sun_hydrate (Some (sun_render data_theme)).

(** The body of the loop of the observer of [observeAttributes];
    [data_active] is the attribute of the element as the callback runs. *)
Definition sun_on_mutation (data_active : option string)
    (mutation : MutationRecord) (icon : option Div) : completion (option Div) :=
  if bool_decide (mutation_type mutation = "attributes") then
    if bool_decide (data_active = Some "true") then
      match icon with
      | None => Throw (Error "icon is not initialized")
      | Some d => Normal (Some (set_tabIndex 0 (classList_add "active" d)))
      end
    else
      match icon with
      | None => Throw (Error "icon is not initialized")
      | Some d => Normal (Some (set_tabIndex (-1) (classList_remove "active" d)))
      end
  else Normal icon.

Fixpoint sun_observer (data_active : option string)
    (mutationsList : list MutationRecord) (icon : option Div)
  : completion (option Div) :=
  match mutationsList with
  | [] => Normal icon
  | mutation :: rest =>
      match sun_on_mutation data_active mutation icon with
      | Throw e => Throw e
      | Normal icon' => sun_observer data_active rest icon'
      end
  end.

(** **** icon-moon *)

Definition moon_setDisplay (data_theme : option string) : string :=
  let dataTheme := or_default data_theme "light" in
  if bool_decide (dataTheme = "light") then "active" else EmptyString.

Definition moon_render (data_theme : option string) : Div :=
  {| classList := ["icon"; "icon-moon"] ++ class_tokens (moon_setDisplay data_theme);
     tabIndex := None |}.

Definition moon_hydrate (found : option Div) : completion Div :=
  match found with
  | None => Throw (Error "icon-moon element not found")
  | Some icon => Normal icon
  end.

Definition moon_connectedCallback (data_theme : option string) : completion Div :=
  moon_hydrate (Some (moon_render data_theme)).

Definition moon_on_mutation (data_active : option string)
    (mutation : MutationRecord) (icon : option Div) : completion (option Div) :=
  if bool_decide (mutation_type mutation = "attributes") then
    if bool_decide (data_active = Some "true") then
      match icon with
      | None => Throw (Error "icon is not initialized")
      | Some d => Normal (Some (classList_add "active" d))
      end
    else
      match icon with
      | None => Throw (Error "icon is not initialized")
      | Some d => Normal (Some (classList_remove "active" d))
      end
  else Normal icon.

Fixpoint moon_observer (data_active : option string)
    (mutationsList : list MutationRecord) (icon : option Div)
  : completion (option Div) :=
  match mutationsList with
  | [] => Normal icon
  | mutation :: rest =>
      match moon_on_mutation data_active mutation icon with
      | Throw e => Throw e
      | Normal icon' => moon_observer data_active rest icon'
      end
  end.

(** **** The toggle and its icons on one page *)

Record Page : Type := {
  toggle : State;
  sun_icon : option Div;
  moon_icon : option Div
}.

(** The toggle is connected; its rendering creates the two icons, which
    render and hydrate in turn. *)
Definition connect (s : State) : completion Page :=
  let t := connectedCallback s in
  match sun_connectedCallback (data_theme t) with
  | Throw e => Throw e
  | Normal si =>
      match moon_connectedCallback (data_theme t) with
      | Throw e => Throw e
      | Normal mi =>
          Normal {| toggle := t; sun_icon := Some si; moon_icon := Some mi |}
      end
  end.

(** The records queued for one icon while the toggle handles an event: one
    for every [setAttribute] on the icon. *)
Definition icon_records (event : CustomEvent) : list MutationRecord :=
  if bool_decide (type event = "clicked-sun")
     || bool_decide (type event = "clicked-moon")
  then (if bool_decide (detail_id event = "moon")
        then [ {| mutation_type := "attributes" |} ] else [])
       ++ (if bool_decide (detail_id event = "sun")
           then [ {| mutation_type := "attributes" |} ] else [])
  else [].

(** One event reaches the toggle; afterwards the observers of the icons run
    on the records queued meanwhile. *)
Definition click (event : CustomEvent) (p : Page) : completion Page :=
  let t := handleEvent event (toggle p) in
  match sun_observer (sun t ≫= getAttribute "data-active")
          (icon_records event) (sun_icon p) with
  | Throw e => Throw e
  | Normal si =>
      match moon_observer (moon t ≫= getAttribute "data-active")
              (icon_records event) (moon_icon p) with
      | Throw e => Throw e
      | Normal mi => Normal {| toggle := t; sun_icon := si; moon_icon := mi |}
      end
  end.

Fixpoint clicks (events : list CustomEvent) (p : Page) : completion Page :=
  match events with
  | [] => Normal p
  | e :: rest =>
      match click e p with
      | Throw err => Throw err
      | Normal p' => clicks rest p'
      end
  end.

Definition session (s : State) (events : list CustomEvent) : completion Page :=
  match connect s with
  | Throw e => Throw e
  | Normal p => clicks events p
  end.

(** The style sheet of the toggle shows an icon exactly when its [div] has
    the class [active]. *)
Definition shown (icon : option Div) : bool :=
  match icon with
  | Some d => bool_decide ("active" ∈ classList d)
  | None => false
  end.

(** Both icons are there, and each is shown exactly when its [data-active]
    attribute is "true". *)
Definition icons_mirror_attributes (p : Page) : Prop :=
  is_Some (icons (toggle p))
  ∧ is_Some (sun_icon p) ∧ is_Some (moon_icon p)
  ∧ shown (sun_icon p) = sun_active (toggle p)
  ∧ shown (moon_icon p) = moon_active (toggle p).

End ToggleIcons.

(** *** More of the icon loader *)

Module IconLoaderMore.
Import JS DOM IconLoader.

(** disconnectedCallback: the observer, when there is one, is disconnected. *)
Definition disconnectedCallback : M unit :=
  let* s := get in
  if observer (self s) then modify_self (set_observer false) else ret tt.

(** What the cache of a name holds for a URL. *)
Definition cached (w : World) (cacheName url : string) : option Blob :=
  caches w !! cacheName ≫= (λ entries, entries !! url).

(** The request a connection has to make for a variant: none when the
    cache holds it. *)
Definition missing (w : World) (cacheName url : string) : list string :=
  match cached w cacheName url with
  | Some _ => []
  | None => [url]
  end.

(** The theme [getSystemTheme] answers with. *)
Definition system_theme (w : World) : string :=
  match data_theme w with
  | Some theme => theme
  | None => if prefers_dark w then "dark" else "light"
  end.

(** The name of the cache the element opens. *)
Definition cache_name (s : State) : string :=
  template_text (getAttribute "data-name" (host (self s))).

(** The element names both sources, neither of them empty. *)
Definition sources (s : State) (light dark : string) : Prop :=
  getAttribute "data-src-light" (host (self s)) = Some light
  ∧ light ≠ EmptyString
  ∧ getAttribute "data-src-dark" (host (self s)) = Some dark
  ∧ dark ≠ EmptyString.

Definition has_sources (s : State) : bool :=
  bool_decide (is_Some (truthy (getAttribute "data-src-light" (host (self s))))
               ∧ is_Some (truthy (getAttribute "data-src-dark" (host (self s))))).

(** From [w] to [w'] the document, the preference, the network and the
    storage quota are the same, and no entry of the cache has gone. *)
Definition grows (cacheName : string) (w w' : World) : Prop :=
  data_theme w' = data_theme w
  ∧ prefers_dark w' = prefers_dark w
  ∧ network w' = network w
  ∧ storage_full w' = storage_full w
  ∧ ∀ url blob, cached w cacheName url = Some blob →
                is_Some (cached w' cacheName url).

(** The next request for a URL is answered with an ok response of that
    body. *)
Definition answers (w : World) (url : string) (body : Blob) : Prop :=
  ∃ statusText,
    network w (length (requests w)) url = Response true statusText body.

End IconLoaderMore.

(** *** More of the hamburger menu *)

Module HamburgerMore.
Import JS DOM Hamburger.

(** Whether a click finds a listener. *)
Definition listens (m : HamburgerMenu) (c : click) : bool :=
  match c with
  | ClickIcon => icon_listener m
  | ClickLink i => bool_decide (i < hmNavLinks m)%nat
  end.




Definition is_null (v : json) : bool :=
  match v with
  | JNull => true
  | _ => false
  end.

(** A property that can be assigned to [textContent] or passed to
    [setAttribute]. *)
Definition text_ok (v : option json) : bool :=
  match v with
  | Some value => converts value
  | None => true
  end.

(** A child [createSubLinkItem] gets through: it is not [null], and its
    name and address convert to strings. *)
Definition child_ok (child : json) : bool :=
  negb (is_null child)
  && text_ok (field "name" child) && text_ok (field "url" child).

(** An entry of [data-links] that [createLinkItem] gets through: it is not
    [null], its name converts to a string, and so does its address or,
    when it has a non-empty array of children, every child is one that
    [createSubLinkItem] gets through. *)
Definition entry_ok (link : json) : bool :=
  negb (is_null link)
  && text_ok (field "name" link)
  && match field "children" link with
     | Some (JArray (child :: rest)) => forallb child_ok (child :: rest)
     | _ => text_ok (field "url" link)
     end.

(** The anchors with id [hm-nav-link] an entry is rendered with: one for
    each child, or its own. *)
Definition anchors_for (link : json) : nat :=
  match field "children" link with
  | Some (JArray (child :: rest)) => length (child :: rest)
  | _ => 1%nat
  end.

(** The text [getDataLinks] parses. *)
Definition links_text (raw : option jsstring) : jsstring :=
  match raw with
  | Some t => t
  | None => of_ascii "null"
  end.

End HamburgerMore.

(** *** What the icon and the panel of the hamburger menu show *)

Module HamburgerViews.
Import JS DOM Hamburger HamburgerMore.

(** An element below [hamburger-icon] or [hamburger-nav], as far as the
    observers and the click listeners read and write it. *)
Record node : Type := {
  n_tag : string;
  n_id : option string;
  n_classList : list string;
  n_tabIndex : option Z
}.

Definition add_class (token : string) (n : node) : node :=
  {| n_tag := n_tag n; n_id := n_id n;
     n_classList := if bool_decide (token ∈ n_classList n) then n_classList n
                    else n_classList n ++ [token];
     n_tabIndex := n_tabIndex n |}.

Definition remove_class (token : string) (n : node) : node :=
  {| n_tag := n_tag n; n_id := n_id n;
     n_classList := filter (λ t, t ≠ token) (n_classList n);
     n_tabIndex := n_tabIndex n |}.

(** [classList.toggle] *)
Definition toggle_class (token : string) (n : node) : node :=
  if bool_decide (token ∈ n_classList n) then remove_class token n
  else add_class token n.

Definition with_tabIndex (v : Z) (n : node) : node :=
  {| n_tag := n_tag n; n_id := n_id n; n_classList := n_classList n;
     n_tabIndex := Some v |}.

Record MutationRecord : Type := { mutation_type : string }.

(** **** hamburger-icon *)

(** HamburgerIcon.render: the container [hydrate] binds to [hmIcon]. *)
Definition icon_render : node :=
  {| n_tag := "div"; n_id := Some "hm-icon-container";
     n_classList := ["hm-icon-container"]; n_tabIndex := Some 0 |}.

(** The loop body of the observer of HamburgerIcon.observeAttributes. *)
Definition icon_on_mutation (data_active : option string)
    (mutation : MutationRecord) (hmIcon : node) : node :=
  if bool_decide (mutation_type mutation = "attributes") then
    if bool_decide (data_active = Some "true")
    then add_class "active" hmIcon
    else remove_class "active" hmIcon
  else hmIcon.

Definition icon_observer (data_active : option string)
    (mutationsList : list MutationRecord) (hmIcon : node) : node :=
  fold_left (λ icon mutation, icon_on_mutation data_active mutation icon)
    mutationsList hmIcon.

(** **** hamburger-nav *)

(** The elements [createLinkItem] makes for an entry: the list item with
    its anchor, and for an entry with children the list item, the anchor of
    class [link-parent], the list of class [hm-nav-sub-ul] and in it the
    anchors [createSubLinkItem] makes. *)
Inductive entry : Type :=
  | PlainEntry (li a : node)
  | ParentEntry (li a subUl : node) (subs : list node).

Definition li_view (li : nav_li) : entry :=
  match li with
  | LinkItem _ =>
      PlainEntry
        {| n_tag := "li"; n_id := None; n_classList := []; n_tabIndex := None |}
        {| n_tag := "a"; n_id := Some "hm-nav-link";
           n_classList := ["hm-nav-link"]; n_tabIndex := Some 0 |}
  | ParentItem _ subs =>
      ParentEntry
        {| n_tag := "li"; n_id := None; n_classList := []; n_tabIndex := Some 0 |}
        {| n_tag := "a"; n_id := None; n_classList := ["link-parent"];
           n_tabIndex := None |}
        {| n_tag := "ul"; n_id := None; n_classList := ["hm-nav-sub-ul"];
           n_tabIndex := None |}
        ((λ _, {| n_tag := "a"; n_id := Some "hm-nav-link";
                  n_classList := ["hm-nav-sub-link"];
                  n_tabIndex := Some 0 |}) <$> subs)
  end.


Definition entry_map (f : node → node) (e : entry) : entry :=
  match e with
  | PlainEntry li a => PlainEntry (f li) (f a)
  | ParentEntry li a subUl subs => ParentEntry (f li) (f a) (f subUl) (f <$> subs)
  end.

(** [querySelectorAll("#id")] with [forEach(f)] on the result: [f] works in
    place on every element of that id. The observers use lists taken at
    [hydrate]; no element is added or removed and no id changes afterwards,
    so the lists hold what the selector would find. *)
Definition for_each_with_id (id : string) (f : node → node)
    (entries : list entry) : list entry :=
  entry_map (λ n, if bool_decide (n_id n = Some id) then f n else n) <$> entries.

(** The list [ul#hm-nav], which [hydrate] binds to [hmNav], and the
    entries below it. *)
Record NavView : Type := {
  nav_hmNav : node;
  entries : list entry
}.

(** HamburgerNav.render, as far as the elements go. *)
Definition nav_rendering (lis : list nav_li) : NavView :=
  {| nav_hmNav := {| n_tag := "ul"; n_id := Some "hm-nav";
                     n_classList := ["hm-nav-ul"]; n_tabIndex := None |};
     entries := li_view <$> lis |}.

(** The loop body of the observer of HamburgerNav.observeAttributes. *)
Definition nav_on_mutation (data_active : option string)
    (mutation : MutationRecord) (v : NavView) : NavView :=
  if bool_decide (mutation_type mutation = "attributes") then
    if bool_decide (data_active = Some "true") then
      {| nav_hmNav := add_class "active" (nav_hmNav v);
         entries :=
           for_each_with_id "hm-nav-sub-link"
             (λ link, with_tabIndex 0 (remove_class "open" link))
             (for_each_with_id "hm-nav-link" (with_tabIndex 0) (entries v)) |}
    else
      {| nav_hmNav := remove_class "active" (nav_hmNav v);
         entries :=
           for_each_with_id "hm-nav-sub-link"
             (λ link, with_tabIndex (-1) (remove_class "open" link))
             (for_each_with_id "hm-nav-link" (with_tabIndex (-1)) (entries v)) |}
  else v.

Definition nav_observer (data_active : option string)
    (mutationsList : list MutationRecord) (v : NavView) : NavView :=
  fold_left (λ view mutation, nav_on_mutation data_active mutation view)
    mutationsList v.

(** The click listener [createLinkItem] puts on the list item of an entry
    with children: it toggles the class [open] on the list item and on its
    sub-list. The list item of a plain link has no listener. *)
Definition li_click (e : entry) : entry :=
  match e with
  | PlainEntry li a => PlainEntry li a
  | ParentEntry li a subUl subs =>
      ParentEntry (toggle_class "open" li) a (toggle_class "open" subUl) subs
  end.

(** The anchors with id [hm-nav-link] in an entry. *)
Definition entry_anchors (e : entry) : nat :=
  match e with
  | PlainEntry _ _ => 1%nat
  | ParentEntry _ _ _ subs => length subs
  end.

(** A click on the [i]-th anchor with id [hm-nav-link] bubbles to the list
    item the anchor lies in. *)
Fixpoint bubble_from_anchor (i : nat) (es : list entry) : list entry :=
  match es with
  | [] => []
  | e :: rest =>
      if bool_decide (i < entry_anchors e)%nat then li_click e :: rest
      else e :: bubble_from_anchor (i - entry_anchors e) rest
  end.

(** **** The menu with its two children *)

(** What the user clicks: the icon, the [i]-th anchor with id
    [hm-nav-link], or the [j]-th list item of the navigation anywhere but
    on such an anchor. A key press of Enter or Space is turned into clicks
    by the [keydown] listeners: on the icon, on an anchor (and, as the key
    press bubbles from a sub-link, once more on its list item) or on the
    list item of an entry with children. What the fragment-swap library
    does on a click of an anchor lies outside the menu. *)
Inductive gesture : Type :=
  | OnIcon
  | OnLink (i : nat)
  | OnEntry (j : nat).

(** What a gesture does to the list items. *)
Definition gesture_entries (es : list entry) (g : gesture) : list entry :=
  match g with
  | OnIcon => es
  | OnLink i => bubble_from_anchor i es
  | OnEntry j => alter li_click j es
  end.

(** The clicks among the gestures that can reach the menu. *)
Definition menu_click (g : gesture) : option click :=
  match g with
  | OnIcon => Some ClickIcon
  | OnLink i => Some (ClickLink i)
  | OnEntry _ => None
  end.

(** [nav_view] is absent when the navigation has not been hydrated: it
    has no content then, and no observer. *)
Record Page : Type := {
  menu : HamburgerMenu;
  icon_view : node;
  nav_view : option NavView
}.

Definition hydrated_view (n : HamburgerNav) : option NavView :=
  if hydrated n then nav_rendering <$> nav_items n else None.

(** The menu is connected. [setMenuState] has written [data-active] on
    both children, so each observer gets one record. *)
Definition connect (links : option jsstring) : completion Page :=
  match connected_menu links with
  | Throw e => Throw e
  | Normal m =>
      let records := [ {| mutation_type := "attributes" |} ] in
      Normal {| menu := m;
                icon_view := icon_observer (icon_active m) records icon_render;
                nav_view := nav_observer (nav_active m) records
                              <$> hydrated_view (nav m) |}
  end.

(** A gesture. The listeners run first: the one of the menu, when the
    click finds it, in which [toggleAttribute] writes [data-active] on both
    children, and then the one of the list item the click bubbles to.
    Afterwards each observer gets one record for the write, if there was
    one. *)
Definition gesture_page (g : gesture) (p : Page) : completion Page :=
  let clicked (v : NavView) : NavView :=
    {| nav_hmNav := nav_hmNav v; entries := gesture_entries (entries v) g |} in
  match menu_click g with
  | None =>
      Normal {| menu := menu p; icon_view := icon_view p;
                nav_view := clicked <$> nav_view p |}
  | Some c =>
      match do_click c (menu p) with
      | Throw e => Throw e
      | Normal m =>
          let records :=
            if listens (menu p) c then [ {| mutation_type := "attributes" |} ]
            else [] in
          Normal {| menu := m;
                    icon_view := icon_observer (icon_active m) records (icon_view p);
                    nav_view := (λ v, nav_observer (nav_active m) records (clicked v))
                                  <$> nav_view p |}
      end
  end.

Fixpoint gestures_page (gs : list gesture) (p : Page) : completion Page :=
  match gs with
  | [] => Normal p
  | g :: rest =>
      match gesture_page g p with
      | Throw e => Throw e
      | Normal p' => gestures_page rest p'
      end
  end.

Definition session (links : option jsstring) (gs : list gesture) : completion Page :=
  match connect links with
  | Throw e => Throw e
  | Normal p => gestures_page gs p
  end.









End HamburgerViews.

(** *** The hamburger menu leaving the document and coming back *)

Module MenuLifecycle.
Import JS DOM Hamburger.

(** The menu together with the click listeners it has registered: those on
    its icon, and those on each of the anchors with id [hm-nav-link] that
    are in the navigation now. Every call of [attachEventListener] makes new
    functions and adds them, and an element keeps one entry for each. *)
Record Attached : Type := {
  the_menu : HamburgerMenu;
  icon_listeners : nat;
  link_listeners : nat
}.

Definition created (links : option jsstring) : Attached :=
  {| the_menu := menu_constructor links; icon_listeners := O;
     link_listeners := O |}.

Definition with_nav (n : HamburgerNav) (m : HamburgerMenu) : HamburgerMenu :=
  {| data_links := data_links m; rendered := rendered m; icon_el := icon_el m;
     nav_el := nav_el m; nav := n; hmIcon := hmIcon m; hmNav := hmNav m;
     icon_listener := icon_listener m; hmNavLinks := hmNavLinks m |}.

(** HamburgerMenu.connectedCallback and what follows it.

    The first time, [render] makes the children, the navigation renders its
    anchors at once, and [attachEventListener] gives the icon and each
    anchor one listener.

    Every later time [render] returns at once; [attachEventListener] adds
    one more listener to the icon and to the anchors that are there. The
    children are connected after the menu: the navigation then renders
    again, which replaces its anchors by new ones that have no listener of
    the menu, unless its rendering fails and leaves the old content. *)
Definition connectedCallback (a : Attached) : completion Attached :=
  match menu_connectedCallback (the_menu a) with
  | Throw e => Throw e
  | Normal m =>
      let icons := if hmIcon m then S (icon_listeners a) else icon_listeners a in
      if rendered (the_menu a) then
        let '(n, outcome) := nav_connectedCallback (data_links m) (nav m) in
        Normal {| the_menu := with_nav n m; icon_listeners := icons;
                  link_listeners := if is_normal outcome then O
                                    else S (link_listeners a) |}
      else
        Normal {| the_menu := m; icon_listeners := icons;
                  link_listeners := S (link_listeners a) |}
  end.

(** HamburgerMenu.disconnectedCallback: [removeEventListener] is given
    [this.handleIconClick], which the class does not define, and for the
    links a function made on the spot. Neither is a registered listener, so
    nothing is removed. *)
Definition disconnectedCallback (a : Attached) : Attached := a.

(** A click on an element: its listeners run one after the other. *)
Fixpoint run_listeners (k : nat) (m : HamburgerMenu) : completion HamburgerMenu :=
  match k with
  | O => Normal m
  | S k' =>
      match toggleAttribute m with
      | Throw e => Throw e
      | Normal m' => run_listeners k' m'
      end
  end.

(** A click on the icon, or on the [i]-th anchor with id [hm-nav-link] of
    the navigation as it is now. *)
Definition click_on (c : click) (a : Attached) : completion Attached :=
  let k := match c with
           | ClickIcon => icon_listeners a
           | ClickLink i =>
               if bool_decide (i < length (nav_links (nav (the_menu a))))%nat
               then link_listeners a else O
           end in
  match run_listeners k (the_menu a) with
  | Throw e => Throw e
  | Normal m => Normal {| the_menu := m; icon_listeners := icon_listeners a;
                          link_listeners := link_listeners a |}
  end.

Fixpoint clicks_on (cs : list click) (a : Attached) : completion Attached :=
  match cs with
  | [] => Normal a
  | c :: rest =>
      match click_on c a with
      | Throw e => Throw e
      | Normal a' => clicks_on rest a'
      end
  end.

(** The menu is taken out of the document and put back, [n] times. *)
Fixpoint reconnections (n : nat) (a : Attached) : completion Attached :=
  match n with
  | O => Normal a
  | S n' =>
      match connectedCallback (disconnectedCallback a) with
      | Throw e => Throw e
      | Normal a' => reconnections n' a'
      end
  end.

(** How many of the clicks are on the icon. *)
Definition icon_clicks (cs : list click) : nat :=
  length (List.filter (λ c, match c with ClickIcon => true | _ => false end) cs).

(** The menu has been rendered and holds both children. *)
Definition mounted (m : HamburgerMenu) : Prop :=
  rendered m = true ∧ is_Some (icon_el m) ∧ is_Some (nav_el m).

(** No anchor of the navigation has a listener of the menu. *)
Definition links_deaf (a : Attached) : Prop :=
  link_listeners a = O ∨ nav_links (nav (the_menu a)) = [].

End MenuLifecycle.


(** ** Proof tools *)

Module Tactics.
Import JS IconLoader.

(** Splits a decimal digit into its ten cases. *)
Ltac digit_cases d H :=
  let Hd := fresh "Hd" in
  assert (d = 0 ∨ d = 1 ∨ d = 2 ∨ d = 3 ∨ d = 4 ∨ d = 5 ∨ d = 6 ∨ d = 7
          ∨ d = 8 ∨ d = 9) as Hd by lia;
  clear H; repeat destruct Hd as [-> | Hd]; try subst d.

(** Evaluates the character of a literal digit. *)
Ltac eval_digit_char :=
  repeat match goal with
  | |- context [digit_char ?k] =>
      let c := eval vm_compute in (digit_char k) in
      change (digit_char k) with c
  end.


(** Unfolds the plumbing of a computation. *)
Ltac unfold_M :=
  unfold bind, ret, throw, get, modify_self, modify_world, try_catch in *;
  cbn [world self fst snd] in *.

End Tactics.

Module DOMFacts.
Import DOM.

Lemma getAttribute_setAttribute name value el :
  getAttribute name (setAttribute name value el) = Some value.
Proof. unfold getAttribute, setAttribute. cbn [attrs]. apply lookup_insert_eq. Qed.

Lemma getAttribute_setAttribute_ne name other value el :
  other ≠ name →
  getAttribute name (setAttribute other value el) = getAttribute name el.
Proof.
  intros H. unfold getAttribute, setAttribute. cbn [attrs].
  by apply lookup_insert_ne.
Qed.

End DOMFacts.

Module JSFacts.
Import JS Tactics.

Lemma digit_val_digit_char d : 0 <= d < 10 → digit_val (digit_char d) = Some d.
Proof.
  intros H. digit_cases d H; reflexivity.
Qed.

Lemma digit_char_not_space d :
  0 <= d < 10 → is_str_white_space (digit_char d) = false.
Proof.
  intros H. digit_cases d H; reflexivity.
Qed.

Lemma digit_char_not_sign d :
  0 <= d < 10 → digit_char d ≠ "-"%char ∧ digit_char d ≠ "+"%char.
Proof.
  intros H. digit_cases d H; split; discriminate.
Qed.

(** Reading back the digits [digits_go] wrote continues with the number
    they spell. *)
Lemma parse_digits_go fuel : ∀ n acc,
  0 <= n < 2 ^ Z.of_nat fuel →
  ∃ k, 0 <= k ∧ ∀ a, parse_digits a (digits_go fuel n acc)
                     = parse_digits (a * 10 ^ k + n) acc.
Proof.
  induction fuel as [|f IH]; intros n acc Hn.
  - exists 0. split; [lia|]. intros a. simpl in *. f_equal. lia.
  - cbn [digits_go].
    assert (0 <= n mod 10 < 10) as Hm by (apply Z.mod_pos_bound; lia).
    destruct (Z.eqb_spec (n / 10) 0) as [Hz | Hz].
    + exists 1. split; [lia|]. intros a. cbn [parse_digits].
      rewrite digit_val_digit_char by done. f_equal.
      pose proof (Z.div_mod n 10). lia.
    + destruct (IH (n / 10) (String (digit_char (n mod 10)) acc)) as (k & Hk & E).
      { split; [apply Z.div_pos; lia|].
        rewrite Nat2Z.inj_succ, Z.pow_succ_r in Hn by lia.
        apply Z.div_lt_upper_bound; lia. }
      exists (k + 1). split; [lia|]. intros a. rewrite E. cbn [parse_digits].
      rewrite digit_val_digit_char by done. f_equal.
      rewrite Z.pow_add_r by lia. pose proof (Z.div_mod n 10). lia.
Qed.

(** The text of a number starts with a digit. *)
Lemma digits_go_head f n acc :
  0 <= n → ∃ d rest, 0 <= d < 10 ∧ digits_go (S f) n acc = String (digit_char d) rest.
Proof.
  revert n acc. induction f as [|f IH]; intros n acc Hn.
  - cbn [digits_go]. exists (n mod 10), acc. split.
    + apply Z.mod_pos_bound; lia.
    + by destruct (n / 10 =? 0).
  - cbn [digits_go]. destruct (Z.eqb_spec (n / 10) 0).
    + exists (n mod 10), acc. split; [apply Z.mod_pos_bound; lia|done].
    + apply (IH (n / 10)). apply Z.div_pos; lia.
Qed.

Lemma log2_fuel n : 0 <= n → n < 2 ^ Z.of_nat (S (Z.to_nat (Z.log2 n))).
Proof.
  intros Hn. rewrite Nat2Z.inj_succ, Z2Nat.id by apply Z.log2_nonneg.
  destruct (Z.eq_dec n 0) as [-> | Hz]; [done|].
  apply Z.log2_spec. lia.
Qed.

(** What [parseInt] does with a text that starts with a digit: no space
    to skip, no sign to take. *)
Lemma parseInt_digit_head d rest :
  0 <= d < 10 →
  parseInt (String (digit_char d) rest)
  = Some (parse_digits 0 (String (digit_char d) rest)).
Proof.
  intros H. digit_cases d H; unfold parseInt; cbn [skip_white_space];
    (rewrite digit_char_not_space by lia); eval_digit_char;
    cbv beta iota; cbn [starts_with_digit];
    (rewrite bool_decide_true by (by eexists)); f_equal; lia.
Qed.

Lemma parseInt_minus_digit_head d rest :
  0 <= d < 10 →
  parseInt (String "-" (String (digit_char d) rest))
  = Some (- parse_digits 0 (String (digit_char d) rest)).
Proof.
  intros H. digit_cases d H; unfold parseInt; cbn [skip_white_space];
    (replace (is_str_white_space "-") with false by reflexivity);
    eval_digit_char; cbv beta iota; cbn [starts_with_digit];
    (rewrite bool_decide_true by (by eexists)); f_equal; lia.
Qed.

Lemma parse_digits_digits n : 0 <= n → parse_digits 0 (digits n) = n.
Proof.
  intros Hn. unfold digits.
  destruct (parse_digits_go (S (Z.to_nat (Z.log2 n))) n EmptyString) as (k & _ & P).
  { split; [done|]. by apply log2_fuel. }
  rewrite P. cbn [parse_digits]. lia.
Qed.

(** Reading back a printed integer gives the integer. *)
Lemma parseInt_number_to_string z : parseInt (number_to_string z) = Some z.
Proof.
  unfold number_to_string. destruct (Z.ltb_spec z 0) as [Hneg | Hpos].
  - pose proof (parse_digits_digits (- z) ltac:(lia)) as P. unfold digits in *.
    destruct (digits_go_head (Z.to_nat (Z.log2 (- z))) (- z) EmptyString ltac:(lia))
      as (d & rest & Hd & E).
    rewrite E in *. rewrite parseInt_minus_digit_head by done. f_equal. lia.
  - pose proof (parse_digits_digits z Hpos) as P. unfold digits in *.
    destruct (digits_go_head (Z.to_nat (Z.log2 z)) z EmptyString Hpos)
      as (d & rest & Hd & E).
    rewrite E in *. rewrite parseInt_digit_head by done. by f_equal.
Qed.

(** *** trim *)

Lemma trimStart_split s :
  ∃ l, s = (l ++ trimStart s)%list ∧ Forall (λ c, is_white_space c = true) l.
Proof.
  induction s as [|c r (l & E & F)]; [by exists []|].
  cbn [trimStart]. destruct (is_white_space c) eqn:W.
  - exists (c :: l). split; [by rewrite E at 1|by constructor].
  - by exists [].
Qed.

Lemma trimStart_head s c r : trimStart s = c :: r → is_white_space c = false.
Proof.
  induction s as [|x s IH]; [done|]. cbn [trimStart].
  destruct (is_white_space x) eqn:W; [done|]. by intros [= -> ->].
Qed.

Lemma trimStart_keeps_last l c :
  is_white_space c = false → ∃ l', trimStart (l ++ [c]) = (l' ++ [c])%list.
Proof.
  intros W. induction l as [|x l (l' & E)]; cbn [app trimStart].
  - rewrite W. by exists [].
  - destruct (is_white_space x); [by exists l'|]. by exists (x :: l).
Qed.

Lemma trimEnd_split s :
  ∃ r, s = (trimEnd s ++ r)%list ∧ Forall (λ c, is_white_space c = true) r.
Proof.
  destruct (trimStart_split (rev s)) as (l & E & F).
  exists (rev l). split.
  - unfold trimEnd. rewrite <- rev_app_distr, <- E. by rewrite rev_involutive.
  - by apply Forall_rev.
Qed.

Lemma trimEnd_last s t c : trimEnd s = (t ++ [c])%list → is_white_space c = false.
Proof.
  unfold trimEnd. intros E.
  apply (f_equal (@rev _)) in E. rewrite rev_involutive, rev_app_distr in E.
  by apply trimStart_head in E.
Qed.

Lemma trimEnd_head c r :
  is_white_space c = false → ∃ r', trimEnd (c :: r) = c :: r'.
Proof.
  intros W. unfold trimEnd. cbn [rev].
  destruct (trimStart_keeps_last (rev r) c W) as (l' & ->).
  rewrite rev_app_distr. by exists (rev l').
Qed.

(** [trim] takes away white space at both ends, and nothing else. *)
Lemma trim_split s :
  ∃ l r, s = (l ++ trim s ++ r)%list
         ∧ Forall (λ c, is_white_space c = true) l
         ∧ Forall (λ c, is_white_space c = true) r.
Proof.
  destruct (trimStart_split s) as (l & E & Fl).
  destruct (trimEnd_split (trimStart s)) as (r & E' & Fr).
  exists l, r. unfold trim. by rewrite <- E', <- E.
Qed.

Lemma trim_head s c r : trim s = c :: r → is_white_space c = false.
Proof.
  unfold trim. destruct (trimStart s) as [|x t] eqn:E; [done|].
  pose proof (trimStart_head _ _ _ E) as W.
  destruct (trimEnd_head x t W) as (r' & ->). by intros [= <- _].
Qed.

Lemma trim_last s t c : trim s = (t ++ [c])%list → is_white_space c = false.
Proof. apply trimEnd_last. Qed.

End JSFacts.
(** ** JSON texts *)

Module JSONFacts.
Import JS Hamburger.

Lemma skip_ws_length s : (length (skip_ws s) ≤ length s)%nat.
Proof.
  induction s as [|c r IH]; cbn [skip_ws length]; [lia|].
  destruct (is_json_ws c); cbn [length]; lia.
Qed.

Lemma expect_length c s r : expect c s = Some r → length s = S (length r).
Proof.
  destruct s as [|x s]; [done|]. cbn [expect].
  destruct (x =? c)%N; [|done]. by intros [= ->].
Qed.

Lemma span_digits_length s ds rest :
  span_digits s = (ds, rest) → (length rest ≤ length s)%nat.
Proof.
  revert ds rest. induction s as [|c r IH]; intros ds rest; cbn [span_digits].
  - intros [= <- <-]. done.
  - destruct (is_digit c).
    + destruct (span_digits r) as [ds' rest'] eqn:E. intros [= <- <-].
      specialize (IH _ _ eq_refl). cbn [length]. lia.
    + intros [= <- <-]. done.
Qed.

Lemma strip_prefix_length keyword : ∀ s r,
  strip_prefix keyword s = Some r → (length r ≤ length s)%nat.
Proof.
  induction keyword as [|k keyword IH]; intros s r; cbn [strip_prefix].
  - by intros [= ->].
  - destruct s as [|c s]; [done|]. destruct (k =? c)%N; [|done].
    intros H. apply IH in H. cbn [length]. lia.
Qed.

Lemma parse_sign_length s sign rest :
  parse_sign s = (sign, rest) → (length rest ≤ length s)%nat.
Proof.
  unfold parse_sign. destruct s as [|c r]; [by intros [= <- <-]|].
  destruct (c =? 45)%N; intros [= <- <-]; cbn [length]; lia.
Qed.

Lemma parse_exp_sign_length s sign rest :
  parse_exp_sign s = (sign, rest) → (length rest ≤ length s)%nat.
Proof.
  unfold parse_exp_sign. destruct s as [|c r]; [by intros [= <- <-]|].
  destruct ((c =? 43) || (c =? 45))%N; intros [= <- <-]; cbn [length]; lia.
Qed.

Lemma parse_int_length s int rest :
  parse_int s = Some (int, rest) → (length rest ≤ length s)%nat.
Proof.
  unfold parse_int. destruct (span_digits s) as [[|d more] r] eqn:E; [done|].
  apply span_digits_length in E.
  destruct ((d =? 48)%N && negb (bool_decide (more = []))); [done|].
  by intros [= <- <-].
Qed.

Lemma parse_frac_length s frac rest :
  parse_frac s = Some (frac, rest) → (length rest ≤ length s)%nat.
Proof.
  unfold parse_frac. destruct s as [|c r]; [by intros [= <- <-]|].
  destruct (c =? 46)%N; [|by intros [= <- <-]].
  destruct (span_digits r) as [[|d fs] r'] eqn:E; [done|].
  apply span_digits_length in E. intros [= <- <-]. cbn [length]. lia.
Qed.

Lemma parse_exp_length s exp rest :
  parse_exp s = Some (exp, rest) → (length rest ≤ length s)%nat.
Proof.
  unfold parse_exp. destruct s as [|e r]; [by intros [= <- <-]|].
  destruct ((e =? 101) || (e =? 69))%N; [|by intros [= <- <-]].
  destruct (parse_exp_sign r) as [sign r1] eqn:Es.
  apply parse_exp_sign_length in Es.
  destruct (span_digits r1) as [[|d es] r'] eqn:E; [done|].
  apply span_digits_length in E. intros [= <- <-]. cbn [length]. lia.
Qed.

Lemma parse_number_length s literal rest :
  parse_number s = Some (literal, rest) → (length rest ≤ length s)%nat.
Proof.
  unfold parse_number.
  destruct (parse_sign s) as [sign s1] eqn:E1. apply parse_sign_length in E1.
  destruct (parse_int s1) as [[int s2]|] eqn:E2; [|done].
  apply parse_int_length in E2.
  destruct (parse_frac s2) as [[frac s3]|] eqn:E3; [|done].
  apply parse_frac_length in E3.
  destruct (parse_exp s3) as [[exp s4]|] eqn:E4; [|done].
  apply parse_exp_length in E4. intros [= <- <-]. lia.
Qed.

Lemma parse_chars_length s : ∀ cs rest,
  parse_chars s = Some (cs, rest) → (length rest < length s)%nat.
Proof.
  induction s as [s IH] using (induction_ltof1 _ (@length code_unit)).
  unfold ltof in IH. intros cs rest. destruct s as [|c r]; [done|].
  cbn [parse_chars]. destruct (c =? 34)%N.
  { intros [= <- <-]. cbn [length]. lia. }
  destruct (c =? 92)%N.
  - destruct r as [|e r1]; [done|]. destruct (e =? 117)%N.
    + destruct r1 as [|h1 [|h2 [|h3 [|h4 r2]]]]; try done.
      destruct (hex_val h1), (hex_val h2), (hex_val h3), (hex_val h4); try done.
      destruct (parse_chars r2) as [[cs' rest']|] eqn:E; [|done].
      apply IH in E; [|cbn [length]; lia].
      intros [= <- <-]. cbn [length]. lia.
    + destruct (escape e); [|done].
      destruct (parse_chars r1) as [[cs' rest']|] eqn:E; [|done].
      apply IH in E; [|cbn [length]; lia].
      intros [= <- <-]. cbn [length]. lia.
  - destruct (c <? 32)%N; [done|].
    destruct (parse_chars r) as [[cs' rest']|] eqn:E; [|done].
    apply IH in E; [|cbn [length]; lia].
    intros [= <- <-]. cbn [length]. lia.
Qed.

Lemma parse_word_length s v rest :
  parse_word s = Some (v, rest) → (length rest ≤ length s)%nat.
Proof.
  unfold parse_word. destruct s as [|c r]; [done|].
  destruct (is_digit c || (c =? 45)%N).
  - destruct (parse_number (c :: r)) as [[literal rest']|] eqn:E; [|done].
    apply parse_number_length in E. by intros [= <- <-].
  - destruct (strip_prefix (of_ascii "null") (c :: r)) eqn:E1.
    { apply strip_prefix_length in E1. by intros [= <- <-]. }
    destruct (strip_prefix (of_ascii "true") (c :: r)) eqn:E2.
    { apply strip_prefix_length in E2. by intros [= <- <-]. }
    destruct (strip_prefix (of_ascii "false") (c :: r)) eqn:E3; [|done].
    apply strip_prefix_length in E3. by intros [= <- <-].
Qed.

Lemma value_step f :
  elements_fuel_ok f → members_fuel_ok f → value_fuel_ok (S f).
Proof.
  intros He Hm s v rest. cbn [parse_value].
  pose proof (skip_ws_length s) as Hws.
  destruct (skip_ws s) as [|c r] eqn:Es; [done|]. cbn [length] in Hws.
  destruct (c =? 34)%N eqn:Estr.
  { destruct (parse_chars r) as [[cs rest']|] eqn:E; [|done].
    apply parse_chars_length in E as Hl. intros [= <- <-]. split; [lia|].
    intros [|F] HF; [lia|]. cbn [parse_value]. by rewrite Es, Estr, E. }
  destruct (c =? 91)%N eqn:Earr.
  { pose proof (skip_ws_length r) as Hwr.
    destruct (expect 93%N (skip_ws r)) as [rest'|] eqn:E.
    - apply expect_length in E as Hl. intros [= <- <-]. split; [lia|].
      intros [|F] HF; [lia|]. cbn [parse_value]. by rewrite Es, Estr, Earr, E.
    - destruct (parse_elements f r) as [[vs rest']|] eqn:E'; [|done].
      destruct (He _ _ _ E') as [Hl Hfuel]. intros [= <- <-]. split; [lia|].
      intros [|F] HF; [lia|]. cbn [parse_value]. rewrite Es, Estr, Earr, E.
      rewrite Hfuel by lia. done. }
  destruct (c =? 123)%N eqn:Eobj.
  { pose proof (skip_ws_length r) as Hwr.
    destruct (expect 125%N (skip_ws r)) as [rest'|] eqn:E.
    - apply expect_length in E as Hl. intros [= <- <-]. split; [lia|].
      intros [|F] HF; [lia|]. cbn [parse_value]. by rewrite Es, Estr, Earr, Eobj, E.
    - destruct (parse_members f r) as [[ms rest']|] eqn:E'; [|done].
      destruct (Hm _ _ _ E') as [Hl Hfuel]. intros [= <- <-]. split; [lia|].
      intros [|F] HF; [lia|]. cbn [parse_value]. rewrite Es, Estr, Earr, Eobj, E.
      rewrite Hfuel by lia. done. }
  intros E. apply parse_word_length in E as Hl. cbn [length] in Hl.
  split; [lia|]. intros [|F] HF; [lia|]. cbn [parse_value].
  by rewrite Es, Estr, Earr, Eobj.
Qed.

Lemma elements_step f :
  value_fuel_ok f → elements_fuel_ok f → elements_fuel_ok (S f).
Proof.
  intros Hv He s vs rest. cbn [parse_elements].
  destruct (parse_value f s) as [[v r]|] eqn:E; [|done].
  destruct (Hv _ _ _ E) as [Hl Hfuel].
  pose proof (skip_ws_length r) as Hwr.
  destruct (expect 93%N (skip_ws r)) as [rest'|] eqn:Eclose.
  - apply expect_length in Eclose as Hc. intros [= <- <-]. split; [lia|].
    intros [|F] HF; [lia|]. cbn [parse_elements].
    rewrite Hfuel by lia. by rewrite Eclose.
  - destruct (expect 44%N (skip_ws r)) as [r'|] eqn:Ecomma; [|done].
    apply expect_length in Ecomma as Hc.
    destruct (parse_elements f r') as [[vs' rest']|] eqn:E'; [|done].
    destruct (He _ _ _ E') as [Hl' Hfuel']. intros [= <- <-]. split; [lia|].
    intros [|F] HF; [lia|]. cbn [parse_elements].
    rewrite Hfuel by lia. rewrite Eclose, Ecomma. rewrite Hfuel' by lia. done.
Qed.

Lemma members_step f :
  value_fuel_ok f → members_fuel_ok f → members_fuel_ok (S f).
Proof.
  intros Hv Hm s ms rest. cbn [parse_members].
  pose proof (skip_ws_length s) as Hws.
  destruct (expect 34%N (skip_ws s)) as [r|] eqn:Equote; [|done].
  apply expect_length in Equote as Hq.
  destruct (parse_chars r) as [[key r1]|] eqn:Ekey; [|done].
  apply parse_chars_length in Ekey as Hk.
  pose proof (skip_ws_length r1) as Hw1.
  destruct (expect 58%N (skip_ws r1)) as [r2|] eqn:Ecolon; [|done].
  apply expect_length in Ecolon as Hc.
  destruct (parse_value f r2) as [[v r3]|] eqn:E; [|done].
  destruct (Hv _ _ _ E) as [Hl Hfuel].
  pose proof (skip_ws_length r3) as Hw3.
  destruct (expect 125%N (skip_ws r3)) as [rest'|] eqn:Eclose.
  - apply expect_length in Eclose as Hcl. intros [= <- <-]. split; [lia|].
    intros [|F] HF; [lia|]. cbn [parse_members].
    rewrite Equote, Ekey, Ecolon. rewrite Hfuel by lia. by rewrite Eclose.
  - destruct (expect 44%N (skip_ws r3)) as [r4|] eqn:Ecomma; [|done].
    apply expect_length in Ecomma as Hco.
    destruct (parse_members f r4) as [[ms' rest']|] eqn:E'; [|done].
    destruct (Hm _ _ _ E') as [Hl' Hfuel']. intros [= <- <-]. split; [lia|].
    intros [|F] HF; [lia|]. cbn [parse_members].
    rewrite Equote, Ekey, Ecolon. rewrite Hfuel by lia.
    rewrite Eclose, Ecomma. rewrite Hfuel' by lia. done.
Qed.

Lemma fuel_ok f : value_fuel_ok f ∧ elements_fuel_ok f ∧ members_fuel_ok f.
Proof.
  induction f as [|f (Hv & He & Hm)].
  - by repeat split.
  - split; [by apply value_step|].
    split; [by apply elements_step|by apply members_step].
Qed.

(** The fuel [JSON_parse] starts with is enough: a text is valid JSON
    exactly when [JSON_parse] returns a value. *)
Lemma JSON_parse_valid text : valid_json text ↔ is_Some (JSON_parse text).
Proof.
  unfold JSON_parse, valid_json, fuel_for. split.
  - intros (fuel & v & rest & E & Hrest).
    destruct (fuel_ok fuel) as [Hv _]. destruct (Hv _ _ _ E) as [Hl Hfuel].
    rewrite Hfuel by lia. rewrite Hrest. by eexists.
  - intros [v E].
    destruct (parse_value (2 * length text + 3) text) as [[v' rest]|] eqn:Ep;
      [|done].
    destruct (skip_ws rest) eqn:Er; [|done].
    by exists (2 * length text + 3)%nat, v', rest.
Qed.

Lemma JSON_parse_invalid text : ¬ valid_json text ↔ JSON_parse text = None.
Proof.
  rewrite JSON_parse_valid. split.
  - intros H. destruct (JSON_parse text) eqn:E; [|done]. destruct H. by eexists.
  - intros -> [v Hv]. done.
Qed.

End JSONFacts.

(** ** The counter *)

Module CounterSpec.
Import JS DOM Counter.

(** Writing the [count] attribute of a [count-total] also re-renders it. *)
Lemma CountTotal_setAttribute_count value ct :
  CountTotal_setAttribute "count" value ct
  = {| ct_element := setAttribute "count" value (ct_element ct);
       ct_span := value |}.
Proof.
  unfold CountTotal_setAttribute, CountTotal_attributeChangedCallback,
    CountTotal_render.
  rewrite !bool_decide_true by done. cbn [ct_element ct_span].
  by rewrite DOMFacts.getAttribute_setAttribute.
Qed.

Lemma update_in_sync c :
  is_Some (total c) →
  ∃ c', update c = Normal c' ∧ count c' = count c ∧ in_sync c'.
Proof.
  intros [ct E]. unfold update. rewrite E. eexists. split; [done|].
  split; [done|]. unfold in_sync, count_attribute, displayed_total.
  cbn [total count]. rewrite CountTotal_setAttribute_count.
  cbn [ct_element ct_span]. rewrite DOMFacts.getAttribute_setAttribute.
  by repeat split.
Qed.

Lemma handleEvent_in_sync e c :
  is_Some (total c) →
  ∃ c', handleEvent e c = Normal c' ∧ count c' = count c + delta e ∧ in_sync c'.
Proof.
  intros Ht. unfold handleEvent, delta.
  destruct (bool_decide (type e = "increment"));
    [|destruct (bool_decide (type e = "decrement"))].
  - by apply (update_in_sync
      {| count := count c + 1; total := total c; listening := listening c |}).
  - destruct (update_in_sync
      {| count := count c - 1; total := total c; listening := listening c |})
      as (c' & E & Hc & Hs); [done|].
    exists c'. split; [done|]. split; [cbn [count] in Hc; lia|done].
  - destruct (update_in_sync c Ht) as (c' & E & Hc & Hs).
    exists c'. split; [done|]. split; [lia|done].
Qed.

Lemma occurrences_cons kind e events :
  occurrences kind (e :: events)
  = (if bool_decide (type e = kind) then 1 else 0) + occurrences kind events.
Proof.
  unfold occurrences. rewrite filter_cons.
  destruct (decide (type e = kind)) as [H|H].
  - rewrite bool_decide_true by done. cbn [length]. lia.
  - rewrite bool_decide_false by done. lia.
Qed.

Lemma delta_occurrences e events :
  delta e + (occurrences "increment" events - occurrences "decrement" events)
  = occurrences "increment" (e :: events) - occurrences "decrement" (e :: events).
Proof.
  rewrite !occurrences_cons. unfold delta.
  destruct (decide (type e = "increment")) as [Hi|Hi].
  - rewrite (bool_decide_true _ Hi).
    rewrite bool_decide_false by (rewrite Hi; done). lia.
  - rewrite (bool_decide_false _ Hi). destruct (bool_decide _); lia.
Qed.

Lemma deliver_in_sync events : ∀ c,
  in_sync c →
  ∃ c', deliver events c = Normal c'
        ∧ count c' = count c + (occurrences "increment" events
                                - occurrences "decrement" events)
        ∧ in_sync c'.
Proof.
  induction events as [|e events IH]; intros c Hs.
  - exists c. repeat split; try apply Hs. unfold occurrences. cbn. lia.
  - cbn [deliver].
    destruct (handleEvent_in_sync e c) as (c1 & -> & Hc & Hs1); [apply Hs|].
    destruct (IH c1 Hs1) as (c' & -> & Hc' & Hs').
    exists c'. repeat split; try apply Hs'.
    rewrite Hc', Hc, <- delta_occurrences. lia.
Qed.

(** C1. The counter starts at 0, and after any finite sequence of events
    delivered to [handleEvent] of the connected root, no call has thrown and
    the [count] attribute written to the [count-total] child (and the text
    that child shows) is the decimal text of the number of increment events
    minus the number of decrement events, negative totals included. *)
Theorem C1_count_attribute_is_net_sum (events : list Event) :
  ∃ c0 c,
    connectedCallback constructor = Normal c0
    ∧ count_attribute c0 = Some "0"
    ∧ deliver events c0 = Normal c
    ∧ count_attribute c
      = Some (number_to_string (occurrences "increment" events
                                - occurrences "decrement" events))
    ∧ displayed_total c = count_attribute c.
Proof.
  set (c0 := {| count := 0;
                total := Some (CountTotal_render
                  {| ct_element := Element "count-total" {[ "count" := "0" ]};
                     ct_span := EmptyString |});
                listening := true |}).
  assert (in_sync c0) as Hs by (by repeat split; [eexists|..]).
  destruct (deliver_in_sync events c0 Hs) as (c & E & Hc & (_ & Ha & Hd)).
  exists c0, c. split; [done|]. split; [done|]. split; [done|].
  rewrite Hd, Ha, Hc. by split.
Qed.

Example counter_run :
  match connectedCallback constructor with
  | Normal c0 =>
      match deliver [decrement; decrement; increment; decrement] c0 with
      | Normal c => (count_attribute c, displayed_total c)
      | Throw _ => (None, None)
      end
  | Throw _ => (None, None)
  end = (Some "-2", Some "-2").
Proof. vm_compute. reflexivity. Qed.

(** Before it is connected the root has no [count-total] to write to. *)
Example counter_event_before_connection :
  is_normal (handleEvent increment constructor) = false.
Proof. reflexivity. Qed.

End CounterSpec.

(** ** The todo list *)

Module TodoSpec.
Import JS Todo.

(** *** What the input dispatches *)

(** C9. For every raw form value and clock reading the submit listener of
    [todo-input] either dispatches nothing, or dispatches one
    [todo-input-submit] event whose text is exactly the entered text with
    the white space at both ends taken away, and that text is not empty. *)
Theorem C9_submit_text_is_trimmed_and_not_empty
    (raw : option jsstring) (now : Z) :
  submit_listener raw now = None
  ∨ ∃ value text,
      raw = Some value
      ∧ submit_listener raw now
        = Some (TodoInputSubmit text (number_to_string now))
      ∧ text = trim value
      ∧ text ≠ []
      ∧ (∃ l r, value = l ++ text ++ r
                ∧ Forall (λ c, is_white_space c = true) l
                ∧ Forall (λ c, is_white_space c = true) r)
      ∧ (∀ c t, text = c :: t → is_white_space c = false)
      ∧ (∀ t c, text = t ++ [c] → is_white_space c = false).
Proof.
  destruct raw as [value|]; [|by left].
  unfold submit_listener. cbn [fmap option_fmap option_map].
  destruct (trim value) as [|c r] eqn:E; [by left|].
  right. exists value, (c :: r). rewrite <- E.
  repeat split; try done.
  - by rewrite E.
  - apply JSFacts.trim_split.
  - intros ? ?. apply JSFacts.trim_head.
  - intros ? ?. apply JSFacts.trim_last.
Qed.

Example submit_listener_trims :
  submit_listener (Some (of_ascii "  buy milk ")) 1700000000000
  = Some (TodoInputSubmit (of_ascii "buy milk") "1700000000000").
Proof. vm_compute. reflexivity. Qed.

Example submit_listener_blank :
  submit_listener (Some (of_ascii "   ")) 1700000000000 = None.
Proof. vm_compute. reflexivity. Qed.

(** *** The displayed count *)

Lemma incrementCount_number n :
  incrementCount (number_to_string n) = number_to_string (n + 1).
Proof. unfold incrementCount. by rewrite JSFacts.parseInt_number_to_string. Qed.

Lemma decrementCount_number n :
  decrementCount (number_to_string n) = number_to_string (n - 1).
Proof. unfold decrementCount. by rewrite JSFacts.parseInt_number_to_string. Qed.

Lemma listUl_appendTodoItem id c : listUl (appendTodoItem id c) = listUl c.
Proof. unfold appendTodoItem. by destruct (query_todo_item id (listUl c)). Qed.

Lemma count_text_appendTodoItem id c :
  count_text (appendTodoItem id c) = count_text c.
Proof. unfold appendTodoItem. by destruct (query_todo_item id (listUl c)). Qed.

Lemma created_appendTodoItem id c : created (appendTodoItem id c) = created c.
Proof. unfold appendTodoItem. by destruct (query_todo_item id (listUl c)). Qed.

(** The three things a step can do to the list and the count. *)
Lemma handleEvent_submit text id c :
  listUl (handleEvent (TodoInputSubmit text id) c)
  = listUl c ++ [ {| node := created c; text_attr := text; id_attr := id |} ]
  ∧ count_text (handleEvent (TodoInputSubmit text id) c)
    = incrementCount (count_text c).
Proof.
  unfold handleEvent. cbn [listUl count_text].
  by rewrite listUl_appendTodoItem, count_text_appendTodoItem.
Qed.

Lemma handleEvent_delete id c :
  listUl (handleEvent (TodoItemDelete id) c) = deleteListItem id (listUl c)
  ∧ count_text (handleEvent (TodoItemDelete id) c)
    = decrementCount (count_text c).
Proof. done. Qed.

Lemma submit_listener_cases raw now :
  submit_listener raw now = None
  ∨ ∃ text, submit_listener raw now
            = Some (TodoInputSubmit text (number_to_string now)).
Proof.
  destruct raw as [v|]; [|by left]. unfold submit_listener.
  cbn [fmap option_fmap option_map]. destruct (trim v) as [|ch rest]; [by left|].
  right. by eexists.
Qed.

Lemma run_snoc trace a : run (trace ++ [a]) = step (run trace) a.
Proof. unfold run. by rewrite fold_left_app. Qed.

(** The count of a reachable component is always the text of an integer. *)
Lemma run_count_text trace : ∃ n, count_text (run trace) = number_to_string n.
Proof.
  induction trace as [|a trace [n IH]] using rev_ind; [by exists 0|].
  rewrite run_snoc. destruct a as [raw now|id]; cbn [step].
  - unfold submit.
    destruct (submit_listener_cases raw now) as [-> | [text ->]]; [by exists n|].
    exists (n + 1).
    destruct (handleEvent_submit text (number_to_string now) (run trace))
      as [_ ->].
    by rewrite IH, incrementCount_number.
  - exists (n - 1). destruct (handleEvent_delete id (run trace)) as [_ ->].
    by rewrite IH, decrementCount_number.
Qed.

(** *** Identifiers *)

Lemma id_lt_number a b :
  id_lt (number_to_string a) (number_to_string b) ↔ a < b.
Proof. unfold id_lt. by rewrite !JSFacts.parseInt_number_to_string. Qed.

(** Every identifier assigned so far is the reading of the clock at a
    submit that dispatched an event. *)
Lemma assigned_ids_origin trace id :
  id ∈ assigned_ids trace →
  ∃ raw now, Submit raw now ∈ trace
             ∧ submit_listener raw now ≠ None
             ∧ id = number_to_string now.
Proof.
  induction trace as [|[raw now|d] trace IH]; cbn [assigned_ids]; intros H.
  - by apply elem_of_nil in H.
  - destruct (submit_listener_cases raw now) as [E | [text E]]; rewrite E in H.
    + destruct (IH H) as (r & t & ? & ? & ?). exists r, t.
      split; [by right|done].
    + apply elem_of_cons in H as [-> | H].
      * exists raw, now. split; [left|]. by rewrite E.
      * destruct (IH H) as (r & t & ? & ? & ?). exists r, t.
        split; [by right|done].
  - destruct (IH H) as (r & t & ? & ? & ?). exists r, t.
    split; [by right|done].
Qed.

(** *** Submitting *)

Lemma displayed_count_run trace :
  ∃ n, count_text (run trace) = number_to_string n
       ∧ displayed_count (run trace) = Some n.
Proof.
  destruct (run_count_text trace) as [n E]. exists n. split; [done|].
  unfold displayed_count. by rewrite E, JSFacts.parseInt_number_to_string.
Qed.

(** C2, as the code has it. For every submit that follows any trace of
    submits and deletes: a text that is not blank appends exactly one entry,
    which carries the trimmed text and, as identifier, the decimal text of
    the clock reading, and the displayed count goes up by exactly one; that
    identifier is strictly greater than every identifier assigned before
    when the clock has moved on since those submits. A blank or missing text
    leaves the component as it was. *)
Theorem C2_submit_appends_one_entry
    (trace : list action) (raw : option jsstring) (now : Z) :
  let c := run trace in
  let c' := submit raw now c in
  match trim <$> raw with
  | Some (ch :: rest) =>
      ∃ item n,
        listUl c' = listUl c ++ [item]
        ∧ text_attr item = ch :: rest
        ∧ id_attr item = number_to_string now
        ∧ (clock_advanced trace now →
           Forall (λ id, id_lt id (id_attr item)) (assigned_ids trace))
        ∧ displayed_count c = Some n
        ∧ displayed_count c' = Some (n + 1)
  | _ => c' = c
  end.
Proof.
  intros c c'. subst c c'. unfold submit, submit_listener.
  destruct raw as [v|]; cbn [fmap option_fmap option_map]; [|done].
  destruct (trim v) as [|ch rest]; [done|].
  destruct (handleEvent_submit (ch :: rest) (number_to_string now) (run trace))
    as [El Ec].
  destruct (displayed_count_run trace) as (n & En & Ed).
  eexists _, n. split; [exact El|]. cbn [text_attr id_attr].
  repeat split; try done.
  - intros Hclock. apply Forall_forall. intros id Hid.
    destruct (assigned_ids_origin trace id Hid) as (r & t & Hin & Hev & ->).
    apply id_lt_number. by apply (Hclock r t).
  - unfold displayed_count. rewrite Ec, En, incrementCount_number.
    apply JSFacts.parseInt_number_to_string.
Qed.

(** Two submits at one reading of the clock: the second entry gets the
    identifier of the first, so the property of the specification fails. *)
Lemma C2_same_clock_reading_repeats_identifier :
  ¬ submit_property [Submit (Some (of_ascii "a")) 1000]
      (Some (of_ascii "b")) 1000.
Proof.
  unfold submit_property.
  change (trim <$> Some (of_ascii "b")) with (Some [98%N]).
  cbv zeta beta iota. intros (item & n & El & Hid & _).
  vm_compute in El. injection El as <-.
  apply Forall_cons in Hid as [Hlt _].
  vm_compute in Hlt. discriminate Hlt.
Qed.

(** The same two submits a millisecond apart. *)
Lemma C2_submit_after_clock_advanced :
  ∃ item,
    listUl (submit (Some (of_ascii "b")) 1001
              (run [Submit (Some (of_ascii "a")) 1000]))
    = listUl (run [Submit (Some (of_ascii "a")) 1000]) ++ [item]
    ∧ Forall (λ id, id_lt id (id_attr item))
        (assigned_ids [Submit (Some (of_ascii "a")) 1000]).
Proof.
  pose proof (C2_submit_appends_one_entry
                [Submit (Some (of_ascii "a")) 1000] (Some (of_ascii "b")) 1001)
    as H.
  change (trim <$> Some (of_ascii "b")) with (Some [98%N]) in H.
  cbv zeta beta iota in H.
  destruct H as (item & n & El & _ & _ & Hid & _).
  exists item. split; [exact El|]. apply Hid.
  intros raw t Hin _. apply list_elem_of_singleton in Hin.
  injection Hin as _ ->. lia.
Defined.

(** *** Deleting *)

Lemma query_todo_item_split id items item :
  query_todo_item id items = Some item →
  ∃ before after,
    items = before ++ item :: after
    ∧ Forall (λ x, id_attr x ≠ id) before
    ∧ id_attr item = id.
Proof.
  induction items as [|x items IH]; [done|]. cbn [query_todo_item].
  destruct (decide (id_attr x = id)) as [E | N].
  - rewrite bool_decide_true by done. intros [= ->]. by exists [], items.
  - rewrite bool_decide_false by done. intros H.
    destruct (IH H) as (before & after & -> & F & E).
    exists (x :: before), after. split; [done|]. split; [by constructor|done].
Qed.

Lemma remove_node_split before item after :
  NoDup (node <$> before ++ item :: after) →
  remove_node (node item) (before ++ item :: after) = before ++ after.
Proof.
  induction before as [|x before IH]; cbn [app remove_node fmap list_fmap].
  - intros _. by rewrite bool_decide_true.
  - intros Hnd. apply NoDup_cons in Hnd as [Hx Hnd].
    rewrite bool_decide_false.
    + f_equal. by apply IH.
    + intros E. apply Hx. rewrite E, fmap_app. apply elem_of_app. right. by left.
Qed.

Lemma remove_node_sublist n items : sublist (remove_node n items) items.
Proof.
  induction items as [|x items IH]; [done|]. cbn [remove_node].
  destruct (bool_decide (node x = n)).
  - by apply sublist_cons.
  - by apply sublist_skip.
Qed.

Lemma step_well_formed c a : well_formed c → well_formed (step c a).
Proof.
  intros [Hnd Hlt]. destruct a as [raw now|id]; cbn [step].
  - unfold submit.
    destruct (submit_listener_cases raw now) as [-> | [text ->]]; [done|].
    set (id := number_to_string now).
    destruct (handleEvent_submit text id c) as [El _].
    unfold well_formed. rewrite El.
    assert (created (handleEvent (TodoInputSubmit text id) c) = S (created c)) as ->.
    { unfold handleEvent. cbn [created]. by rewrite created_appendTodoItem. }
    split.
    + rewrite fmap_app. apply NoDup_app. split; [done|]. split.
      * intros n Hin Hn. cbn in Hn. apply list_elem_of_singleton in Hn. subst n.
        apply list_elem_of_fmap in Hin as (x & E & Hx).
        rewrite Forall_forall in Hlt. specialize (Hlt x Hx). lia.
      * cbn. apply NoDup_singleton.
    + apply Forall_app. split.
      * eapply Forall_impl; [exact Hlt|]. intros x Hx. cbn in Hx. lia.
      * constructor; [cbn; lia|constructor].
  - destruct (handleEvent_delete id c) as [El _]. unfold well_formed.
    rewrite El. unfold deleteListItem.
    destruct (query_todo_item id (listUl c)) as [item|]; [|done].
    pose proof (remove_node_sublist (node item) (listUl c)) as Hsub.
    split.
    + eapply sublist_NoDup; [exact Hnd|]. by apply fmap_sublist.
    + apply Forall_forall. intros x Hx. rewrite Forall_forall in Hlt.
      apply Hlt. by eapply elem_of_sublist.
Qed.

Lemma run_well_formed trace : well_formed (run trace).
Proof.
  induction trace as [|a trace IH] using rev_ind.
  - split; [constructor|constructor].
  - rewrite run_snoc. by apply step_well_formed.
Qed.

(** The part of C3 the code keeps: when an entry carries the identifier,
    the first such entry, and only that one, leaves the list, and the
    displayed count goes down by one. *)
Lemma delete_of_existing_id_removes_that_entry trace k item :
  query_todo_item (number_to_string k) (listUl (run trace)) = Some item →
  let c := run trace in
  let c' := handleEvent (TodoItemDelete (number_to_string k)) c in
  ∃ before after n,
    listUl c = before ++ item :: after
    ∧ Forall (λ x, id_attr x ≠ number_to_string k) before
    ∧ id_attr item = number_to_string k
    ∧ listUl c' = before ++ after
    ∧ displayed_count c = Some n
    ∧ displayed_count c' = Some (n - 1).
Proof.
  intros Hq c c'. subst c c'.
  destruct (query_todo_item_split _ _ _ Hq) as (before & after & El & F & E).
  destruct (displayed_count_run trace) as (n & En & Ed).
  destruct (handleEvent_delete (number_to_string k) (run trace)) as [El' Ec].
  exists before, after, n. split; [done|]. split; [done|]. split; [done|].
  split; [|split; [done|]].
  - rewrite El'. unfold deleteListItem. rewrite Hq, El.
    apply remove_node_split. rewrite <- El. apply run_well_formed.
  - unfold displayed_count. rewrite Ec, En, decrementCount_number.
    apply JSFacts.parseInt_number_to_string.
Qed.

(** C3, where the code departs from it. A [todo-item-delete] event whose
    identifier (a decimal text, as [todo-input] makes them) names no entry of
    the list leaves the list as it was, but the displayed count still goes
    down by one. *)
Theorem C3_delete_of_missing_id_still_decrements
    (trace : list action) (k : Z) :
  query_todo_item (number_to_string k) (listUl (run trace)) = None →
  let c := run trace in
  let c' := handleEvent (TodoItemDelete (number_to_string k)) c in
  listUl c' = listUl c
  ∧ ∃ n, displayed_count c = Some n ∧ displayed_count c' = Some (n - 1).
Proof.
  intros Hq c c'. subst c c'.
  destruct (handleEvent_delete (number_to_string k) (run trace)) as [El Ec].
  split.
  - rewrite El. unfold deleteListItem. by rewrite Hq.
  - destruct (displayed_count_run trace) as (n & En & Ed).
    exists n. split; [done|].
    unfold displayed_count. rewrite Ec, En, decrementCount_number.
    apply JSFacts.parseInt_number_to_string.
Qed.

Lemma C3_delete_on_empty_list :
  listUl (handleEvent (TodoItemDelete (number_to_string 42)) (run [])) = []
  ∧ ∃ n, displayed_count (run []) = Some n
         ∧ displayed_count
             (handleEvent (TodoItemDelete (number_to_string 42)) (run []))
           = Some (n - 1).
Proof. apply (C3_delete_of_missing_id_still_decrements [] 42). reflexivity. Defined.

Example delete_on_empty_list_shows_minus_one :
  count_text (handleEvent (TodoItemDelete "42") connected) = "-1".
Proof. vm_compute. reflexivity. Qed.

End TodoSpec.

(** ** The theme toggle *)

Module ToggleThemeSpec.
Import JS DOM ToggleTheme.

Lemma active_Element tg v :
  active (Some (Element tg {[ "data-active" := v ]})) = bool_decide (v = "true").
Proof.
  unfold active. cbn [mbind option_bind]. unfold getAttribute. cbn [attrs].
  rewrite lookup_singleton_eq. apply bool_decide_ext. split; congruence.
Qed.

Lemma active_setAttribute v el :
  active (Some (setAttribute "data-active" v el)) = bool_decide (v = "true").
Proof.
  unfold active. cbn [mbind option_bind].
  rewrite DOMFacts.getAttribute_setAttribute.
  apply bool_decide_ext. split; congruence.
Qed.



Lemma deliver_snoc events e s :
  deliver (events ++ [e]) s = handleEvent e (deliver events s).
Proof. unfold deliver. by rewrite fold_left_app. Qed.





Example toggle_after_moon_click :
  let s := deliver [clicked_moon]
             (connectedCallback {| data_theme := Some "light"; prefers_dark := false;
                                   icons := None; listening := false |}) in
  (data_theme s, sun_active s, moon_active s) = (Some "dark", true, false).
Proof. vm_compute. reflexivity. Qed.

(** Outside the range of the attribute neither icon is active after the
    first rendering. *)
Example toggle_with_unknown_theme :
  let s := connectedCallback {| data_theme := Some "sepia"; prefers_dark := false;
                                icons := None; listening := false |} in
  (sun_active s, moon_active s) = (false, false).
Proof. vm_compute. reflexivity. Qed.

End ToggleThemeSpec.

(** ** The hamburger menu *)

Module HamburgerSpec.
Import JS DOM Hamburger.

(** *** Malformed data-links *)

(** C4, where the code departs from it. For every [data-links] value that
    is not valid JSON, [getDataLinks] catches and logs the parse error and
    returns [undefined]; [render] then calls [forEach] on it, so
    [connectedCallback] of the navigation ends with an uncaught TypeError.
    No link entry is made, no content is rendered and [hydrate] never
    runs. *)
Theorem C4_malformed_data_links_throws (text : jsstring) (n : HamburgerNav) :
  ¬ valid_json text →
  ∃ n' msg,
    nav_connectedCallback (Some text) n = (n', Throw (TypeError msg))
    ∧ dataLinks n' = None
    ∧ nav_items n' = nav_items n
    ∧ hydrated n' = hydrated n
    ∧ console n' = console n ++ ["Invalid JSON in data-links:"].
Proof.
  intros Hp. apply JSONFacts.JSON_parse_invalid in Hp.
  unfold nav_connectedCallback, nav_render, getDataLinks.
  rewrite Hp. by eexists _, _.
Qed.

Lemma C4_not_json :
  ∃ n' msg,
    nav_connectedCallback (Some (of_ascii "{not json")) nav_constructor
    = (n', Throw (TypeError msg))
    ∧ dataLinks n' = None
    ∧ nav_items n' = nav_items nav_constructor
    ∧ hydrated n' = hydrated nav_constructor
    ∧ console n' = console nav_constructor ++ ["Invalid JSON in data-links:"].
Proof.
  apply (C4_malformed_data_links_throws (of_ascii "{not json") nav_constructor).
  apply JSONFacts.JSON_parse_invalid. vm_compute. reflexivity.
Defined.

Example sample_links_render :
  (λ r, (length (nav_links (fst r)), is_normal (snd r)))
    (nav_connectedCallback (Some sample_links) nav_constructor)
  = (2%nat, true).
Proof. vm_compute. reflexivity. Qed.

Example truncated_links_render :
  (λ r, (nav_items (fst r), is_normal (snd r)))
    (nav_connectedCallback (Some (take 20 sample_links)) nav_constructor)
  = (None, false).
Proof. vm_compute. reflexivity. Qed.

(** *** Clicks *)

(** [toggleAttribute] on a wired menu flips both attributes together. *)
Lemma toggleAttribute_flips m open :
  wired m → menu_state m open →
  ∃ m', toggleAttribute m = Normal m'
        ∧ menu_state m' (negb open)
        ∧ wired m'
        ∧ hmNavLinks m' = hmNavLinks m.
Proof.
  intros (Hi & Hn & Hl) [Si Sn]. unfold toggleAttribute, bound. rewrite Hi, Hn.
  unfold icon_active, nav_active in *.
  destruct (icon_el m) as [icon|]; [|done].
  destruct (nav_el m) as [nv|]; [|done].
  cbn [mbind option_bind] in *. rewrite Si.
  assert (bool_decide (Some (boolean_to_string open) = Some "true") = open) as ->.
  { destruct open; by vm_compute. }
  eexists. split; [done|]. unfold menu_state, icon_active, nav_active, wired.
  cbn [icon_el nav_el hmIcon hmNav icon_listener hmNavLinks mbind option_bind].
  by rewrite !DOMFacts.getAttribute_setAttribute.
Qed.

(** A click that finds a listener flips the menu; any other click leaves
    the menu as it is. *)
Lemma do_click_listener c m open :
  wired m → menu_state m open → has_listener c m →
  ∃ m', do_click c m = Normal m' ∧ menu_state m' (negb open)
        ∧ wired m' ∧ hmNavLinks m' = hmNavLinks m.
Proof.
  intros Hw Hs Hl. destruct c as [|i]; cbn [do_click has_listener] in *.
  - unfold click_icon. rewrite Hl. by apply toggleAttribute_flips.
  - unfold click_link. rewrite bool_decide_true by done.
    by apply toggleAttribute_flips.
Qed.

Lemma do_click_any c m open :
  wired m → menu_state m open →
  ∃ m' open', do_click c m = Normal m' ∧ menu_state m' open' ∧ wired m'
              ∧ hmNavLinks m' = hmNavLinks m.
Proof.
  intros Hw Hs. destruct c as [|i]; cbn [do_click].
  - destruct (do_click_listener ClickIcon m open Hw Hs) as (m' & ? & ? & ? & ?).
    { apply Hw. }
    by exists m', (negb open).
  - unfold click_link. destruct (bool_decide (i < hmNavLinks m)%nat).
    + destruct (toggleAttribute_flips m open Hw Hs) as (m' & ? & ? & ? & ?).
      by exists m', (negb open).
    + by exists m, open.
Qed.

Lemma do_clicks_any cs : ∀ m open,
  wired m → menu_state m open →
  ∃ m' open', do_clicks cs m = Normal m' ∧ menu_state m' open' ∧ wired m'
              ∧ hmNavLinks m' = hmNavLinks m.
Proof.
  induction cs as [|c cs IH]; intros m open Hw Hs; cbn [do_clicks].
  - by exists m, open.
  - destruct (do_click_any c m open Hw Hs) as (m1 & o1 & -> & Hs1 & Hw1 & E1).
    destruct (IH m1 o1 Hw1 Hs1) as (m' & o' & ? & ? & ? & E').
    exists m', o'. split; [done|]. split; [done|]. split; [done|]. congruence.
Qed.

(** The menu as connected: closed, wired, with a listener on every anchor
    the navigation has rendered. *)
Lemma connected_menu_closed (links : option jsstring) :
  ∃ m0, connected_menu links = Normal m0
        ∧ menu_state m0 false ∧ wired m0
        ∧ hmNavLinks m0
          = length (nav_links
                      (fst (nav_connectedCallback links nav_constructor))).
Proof.
  unfold connected_menu, menu_connectedCallback, menu_render.
  cbn [menu_constructor rendered data_links].
  destruct (nav_connectedCallback links nav_constructor) as [n outcome].
  cbn [fst]. unfold menu_hydrate, attachEventListener, setMenuState, bound.
  cbn [icon_el nav_el hmIcon hmNav].
  rewrite !bool_decide_true by (by eexists).
  eexists. split; [done|]. unfold menu_state, icon_active, nav_active, wired.
  cbn [icon_el nav_el hmIcon hmNav icon_listener hmNavLinks nav mbind option_bind].
  by rewrite !DOMFacts.getAttribute_setAttribute.
Qed.

(** C8, as the code has it. A menu connected once, with any [data-links],
    starts closed; after any sequence of clicks the icon and the navigation
    panel carry the same [data-active] value, and from there every click on
    the icon, and every click on an anchor with id [hm-nav-link] that the
    navigation has rendered, runs the same toggle: both elements receive the
    same new value, the opposite of the old one. A click on a link
    therefore closes an open menu. A click on a link that was not rendered
    changes nothing. *)
Theorem C8_every_click_toggles_icon_and_panel_together
    (links : option jsstring) (clicks : list click) :
  ∃ m0 m open,
    connected_menu links = Normal m0
    ∧ menu_state m0 false
    ∧ do_clicks clicks m0 = Normal m
    ∧ menu_state m open
    ∧ (∃ m', do_click ClickIcon m = Normal m' ∧ menu_state m' (negb open))
    ∧ ∀ i,
        if bool_decide
             (i < length (nav_links
                            (fst (nav_connectedCallback links nav_constructor))))%nat
        then ∃ m', do_click (ClickLink i) m = Normal m'
                   ∧ menu_state m' (negb open)
        else do_click (ClickLink i) m = Normal m.
Proof.
  destruct (connected_menu_closed links) as (m0 & E0 & Hs0 & Hw0 & En0).
  destruct (do_clicks_any clicks m0 false Hw0 Hs0)
    as (m & open & Ec & Hs & Hw & En).
  exists m0, m, open. split; [done|]. split; [done|]. split; [done|].
  split; [done|]. split.
  - destruct (do_click_listener ClickIcon m open Hw Hs) as (m' & ? & ? & _);
      [apply Hw|]. by exists m'.
  - intros i. rewrite <- En0, <- En. case_bool_decide as Hi.
    + destruct (do_click_listener (ClickLink i) m open Hw Hs Hi)
        as (m' & ? & ? & _). by exists m'.
    + cbn [do_click]. unfold click_link. by rewrite bool_decide_false.
Qed.

(** A click on a link of a closed menu opens it: the property of the
    specification fails for the menu as connected. *)
Lemma C8_link_click_opens_closed_menu :
  ∃ m0, connected_menu (Some sample_links) = Normal m0 ∧ ¬ menu_property m0 0.
Proof.
  destruct (connected_menu_closed (Some sample_links)) as (m0 & E0 & Hs0 & Hw0 & En).
  exists m0. split; [done|]. intros [_ Hlink].
  destruct (do_click_listener (ClickLink 0) m0 false Hw0 Hs0) as (m' & Ec & [Hi _] & _).
  { cbn [has_listener]. rewrite En. vm_compute. lia. }
  destruct (Hlink m' Ec) as [Hi' _]. rewrite Hi in Hi'. discriminate Hi'.
Qed.

(** The menu of the sample navigation: a click on the icon opens it, and a
    click on the first link then closes it. *)
Lemma C8_link_click_closes_open_menu :
  ∃ m0 m m',
    connected_menu (Some sample_links) = Normal m0
    ∧ do_clicks [ClickIcon] m0 = Normal m
    ∧ menu_state m true
    ∧ do_click (ClickLink 0) m = Normal m'
    ∧ menu_state m' false.
Proof.
  destruct (C8_every_click_toggles_icon_and_panel_together
              (Some sample_links) [ClickIcon])
    as (m0 & m & open & E0 & _ & Ec & Hs & _ & Hlinks).
  specialize (Hlinks O). destruct Hlinks as (m' & El & Hs').
  assert (open = true) as ->.
  { vm_compute in E0. injection E0 as <-.
    vm_compute in Ec. injection Ec as <-.
    destruct Hs as [Hi _]. by destruct open. }
  by exists m0, m, m'.
Defined.

End HamburgerSpec.

(** ** The icon loader *)

Module IconLoaderSpec.
Import JS DOM IconLoader Tactics.

(** *** insertIcon *)

(** What [insertIcon] does when there is a container: it empties it and
    appends at most one image; nothing else changes. *)
Lemma insertIcon_result height width theme s children :
  container (self s) = Some children →
  insertIcon height width theme s
  = (insertIcon_outcome theme (self s),
     {| world := world s;
        self := set_container
                  (Some (option_list (picture height width theme (self s))))
                  (self s) |}).
Proof.
  intros Hc. unfold insertIcon, insertIcon_outcome, picture, variant.
  unfold_M. rewrite Hc.
  destruct s as [w l]. cbn [world self] in *.
  destruct l as [hst cont obs cur il id ih iw sl sd nm ch]. cbn in Hc. subst cont.
  cbn [iconLight iconDark iconWidth iconHeight container set_container host
       observer currentTheme srcLight srcDark name cache].
  destruct (decide (theme = "light")) as [-> | Hl].
  - rewrite (bool_decide_true ("light" = "light")) by done.
    rewrite (bool_decide_false ("light" = "dark")) by done.
    destruct il, iw, ih; reflexivity.
  - rewrite (bool_decide_false _ Hl).
    destruct (decide (theme = "dark")) as [-> | Hd].
    + rewrite (bool_decide_true ("dark" = "dark")) by done.
      destruct id, iw, ih; reflexivity.
    + rewrite (bool_decide_false _ Hd). reflexivity.
Qed.

Lemma insertIcon_no_container height width theme s :
  container (self s) = None → insertIcon height width theme s = (Normal tt, s).
Proof. intros Hc. unfold insertIcon. unfold_M. by rewrite Hc. Qed.

Lemma variant_light l : variant "light" l = iconLight l.
Proof. done. Qed.

Lemma variant_dark l : variant "dark" l = iconDark l.
Proof. done. Qed.

Lemma variant_other theme l :
  theme ≠ "light" → theme ≠ "dark" → variant theme l = None.
Proof. intros Hl Hd. unfold variant. by rewrite !bool_decide_false. Qed.

Lemma variant_cases theme l blob :
  variant theme l = Some blob →
  (theme = "light" ∧ iconLight l = Some blob)
  ∨ (theme = "dark" ∧ iconDark l = Some blob).
Proof.
  unfold variant. destruct (decide (theme = "light")) as [-> | Hl].
  - rewrite bool_decide_true by done. by left.
  - rewrite bool_decide_false by done.
    destruct (decide (theme = "dark")) as [-> | Hd].
    + rewrite bool_decide_true by done. by right.
    + by rewrite bool_decide_false.
Qed.

Lemma picture_blob height width theme l i :
  picture height width theme l = Some i → variant theme l = Some (img_blob i).
Proof.
  unfold picture. destruct (variant theme l) as [blob|]; [|done].
  destruct (iconWidth l), (iconHeight l); try done.
  intros [= <-]. by destruct (bool_decide (theme = "light")).
Qed.

(** C10. With the container in place, [insertIcon] empties it and, for
    every theme other than "light" and "dark", and also when the blob of the
    matching variant is unavailable, inserts nothing and returns; whatever
    the container holds afterwards is a single image, made for theme "light"
    from the light blob or for theme "dark" from the dark blob; and with blob
    and sizes at hand that image is appended. Nothing outside the component
    changes. *)
Theorem C10_insertIcon_appends_only_the_matching_variant
    (s : State) (height width : Z) (theme : string) (children : list img) :
  container (self s) = Some children →
  let r := insertIcon height width theme s in
  (theme ≠ "light" → theme ≠ "dark" →
     fst r = Normal tt ∧ container (self (snd r)) = Some [])
  ∧ (theme = "light" → iconLight (self s) = None →
     fst r = Normal tt ∧ container (self (snd r)) = Some [])
  ∧ (theme = "dark" → iconDark (self s) = None →
     fst r = Normal tt ∧ container (self (snd r)) = Some [])
  ∧ (∀ i, i ∈ default [] (container (self (snd r))) →
       container (self (snd r)) = Some [i]
       ∧ ((theme = "light" ∧ iconLight (self s) = Some (img_blob i))
          ∨ (theme = "dark" ∧ iconDark (self s) = Some (img_blob i))))
  ∧ (∀ blob w h,
       variant theme (self s) = Some blob →
       iconWidth (self s) = Some w → iconHeight (self s) = Some h →
       fst r = Normal tt
       ∧ ∃ i, container (self (snd r)) = Some [i] ∧ img_blob i = blob)
  ∧ world (snd r) = world s.
Proof.
  intros Hc r. subst r. rewrite (insertIcon_result _ _ _ _ _ Hc).
  cbn [fst snd self world container set_container default].
  assert (variant theme (self s) = None →
          insertIcon_outcome theme (self s) = Normal tt
          ∧ Some (option_list (picture height width theme (self s))) = Some [])
    as Hnone.
  { intros E. unfold insertIcon_outcome, picture. by rewrite E. }
  split; [intros Hl Hd; apply Hnone; by apply variant_other|].
  split; [intros -> Hn; apply Hnone; by rewrite variant_light|].
  split; [intros -> Hn; apply Hnone; by rewrite variant_dark|].
  split.
  { intros i Hi.
    destruct (picture height width theme (self s)) as [p|] eqn:Ep;
      cbn [option_list] in Hi; [|by apply elem_of_nil in Hi].
    apply list_elem_of_singleton in Hi as ->. split; [done|].
    apply variant_cases. by apply picture_blob in Ep. }
  split; [|done].
  intros blob w h Ev Ew Eh. unfold insertIcon_outcome, picture.
  rewrite Ev, Ew, Eh. split; [done|]. cbn [option_list].
  eexists. split; [done|]. by destruct (bool_decide (theme = "light")).
Qed.

Lemma C10_unknown_theme_leaves_container_empty :
  container (self (snd (insertIcon 64 64 "sepia"
                          (snd (render (page (Some "sepia") network_up))))))
  = Some [].
Proof.
  destruct (C10_insertIcon_appends_only_the_matching_variant
              (snd (render (page (Some "sepia") network_up))) 64 64 "sepia" [])
    as [H _]; [reflexivity|].
  by apply H.
Defined.

(** *** fetchIcon *)

(** A failed fetch: one request goes out, the error is caught, the result
    is [null], nothing is written to a cache. *)
Lemma fetchIcon_failed s src cacheName :
  src ≠ EmptyString → fetch_fails (world s) src →
  fetchIcon (Some src) (Some cacheName) s
  = (Normal None,
     {| world := set_console
                   ((console (world s) ++ [src]) ++ ["Error fetching icon:"])
                   (set_requests (requests (world s) ++ [src]) (world s));
        self := self s |}).
Proof.
  intros Hsrc Hfail. unfold fetchIcon, truthy, console_write.
  destruct src as [|c src]; [done|]. unfold fetch, fetch_fails in *. unfold_M.
  cbn [template_text set_console set_requests requests console network].
  destruct (network (world s) (length (requests (world s))) (String c src))
    as [|ok statusText body]; [done|].
  subst ok. done.
Qed.

Lemma fetchIcon_no_source cache s :
  fetchIcon (Some EmptyString) cache s
  = (Normal None,
     {| world := set_console
                   ((console (world s) ++ [EmptyString])
                    ++ ["Icon source or cache not available"]) (world s);
        self := self s |}).
Proof. done. Qed.

(** C7. For every icon source, if the fetch fails (the request is rejected
    or the response is not ok), [fetchIcon] returns [null] and does not
    throw; a single request has gone out (none for an empty source), so
    nothing was retried, and no cache was written; and once the result is
    assigned to the variant, [insertIcon] for the theme of that variant
    returns with no image in the container. *)
Theorem C7_failed_fetch_returns_null_and_no_image
    (s : State) (src cacheName : string) (height width : Z) :
  fetch_fails (world s) src →
  let r := fetchIcon (Some src) (Some cacheName) s in
  let with_light :=
    {| world := world (snd r); self := set_iconLight None (self (snd r)) |} in
  let with_dark :=
    {| world := world (snd r); self := set_iconDark None (self (snd r)) |} in
  fst r = Normal None
  ∧ self (snd r) = self s
  ∧ caches (world (snd r)) = caches (world s)
  ∧ requests (world (snd r))
    = requests (world s) ++ (if bool_decide (src = EmptyString) then [] else [src])
  ∧ fst (insertIcon height width "light" with_light) = Normal tt
  ∧ container (self (snd (insertIcon height width "light" with_light)))
    = (λ _, []) <$> container (self s)
  ∧ fst (insertIcon height width "dark" with_dark) = Normal tt
  ∧ container (self (snd (insertIcon height width "dark" with_dark)))
    = (λ _, []) <$> container (self s).
Proof.
  intros Hfail r. subst r.
  assert (∃ w', fetchIcon (Some src) (Some cacheName) s
                = (Normal None, {| world := w'; self := self s |})
                ∧ caches w' = caches (world s)
                ∧ requests w'
                  = requests (world s)
                    ++ (if bool_decide (src = EmptyString) then [] else [src]))
    as (w' & -> & Hcaches & Hreq).
  { destruct (decide (src = EmptyString)) as [-> | Hsrc].
    - eexists. rewrite fetchIcon_no_source.
      rewrite bool_decide_true by done. rewrite app_nil_r. done.
    - eexists. rewrite (fetchIcon_failed s src cacheName Hsrc Hfail).
      rewrite bool_decide_false by done. done. }
  cbn [fst snd world self].
  split; [done|]. split; [done|]. split; [done|]. split; [done|].
  destruct (container (self s)) as [ch|] eqn:Hc.
  - assert (∀ w l, container l = Some ch →
              container (self {| world := w; self := l |}) = Some ch) as Hcont
      by done.
    rewrite !(insertIcon_result _ _ _ _ ch) by (by apply Hcont).
    cbn [fst snd self container set_container].
    unfold insertIcon_outcome, picture, variant.
    rewrite (bool_decide_true ("light" = "light")) by done.
    rewrite (bool_decide_false ("dark" = "light")) by done.
    rewrite (bool_decide_true ("dark" = "dark")) by done.
    done.
  - rewrite !insertIcon_no_container by done.
    cbn [fst snd self container set_iconLight set_iconDark]. by rewrite Hc.
Qed.

Lemma C7_not_found_gives_null :
  fst (fetchIcon (Some "/sun.svg") (Some "icons")
         (snd (render (page (Some "light") network_down))))
  = Normal None.
Proof.
  destruct (C7_failed_fetch_returns_null_and_no_image
              (snd (render (page (Some "light") network_down)))
              "/sun.svg" "icons" 64 64) as [H _]; [reflexivity|].
  exact H.
Defined.

(** *** After the ready state *)

(** **** Triples: what holds when a computation returns *)






Lemma hoare_modify_world (P : State → Prop) f (Q : unit → State → Prop) :
  (∀ s, P s → Q tt {| world := f (world s); self := self s |}) →
  hoare P (modify_world f) Q.
Proof. intros H s Hs. by apply H. Qed.


(** **** What each step leaves of the component *)
















Example loader_light_then_dark :
  let s := snd (connectedCallback (page (Some "light") network_up)) in
  let s' := snd (theme_changes ["dark"] s) in
  (requests (world s), img_alt <$> default [] (container (self s)),
   requests (world s'), img_alt <$> default [] (container (self s')))
  = (["/sun.svg"; "/moon.svg"], ["Light Icon"],
     ["/sun.svg"; "/moon.svg"], ["Dark Icon"]).
Proof. vm_compute. reflexivity. Qed.

Example loader_network_down :
  let s := snd (connectedCallback (page (Some "light") network_down)) in
  (fst (connectedCallback (page (Some "light") network_down)),
   requests (world s), container (self s), iconLight (self s), iconDark (self s))
  = (Normal tt, ["/sun.svg"; "/moon.svg"], Some [], None, None).
Proof. vm_compute. reflexivity. Qed.

End IconLoaderSpec.

(** ** Further properties *)

(** *** The counter across a second connection *)

Module CounterExtra.
Import JS DOM Counter CounterMore.

Lemma connectedCallback_in_sync c :
  ∃ c', connectedCallback c = Normal c' ∧ count c' = count c ∧ in_sync c'.
Proof.
  unfold connectedCallback, render, hydrate. cbn [total count].
  eexists. split; [done|]. split; [done|].
  unfold in_sync, count_attribute, displayed_total, CountTotal_render.
  cbn [total count ct_element ct_span]. unfold getAttribute. cbn [attrs].
  rewrite lookup_singleton_eq. cbn [template_text]. by repeat split; [eexists|..].
Qed.

Lemma occurrences_app kind first second :
  occurrences kind (first ++ second)
  = occurrences kind first + occurrences kind second.
Proof.
  unfold occurrences. rewrite filter_app, length_app. lia.
Qed.

(** X1. The count survives a second connection: when the connected root has
    handled a sequence of events, is connected anew (which renders its
    subtree again) and handles a second sequence, nothing throws and the
    [count] attribute of the new [count-total], and the text it shows, is
    the net sum over both sequences. *)
Theorem X1_count_survives_reconnection (first second : list Event) :
  ∃ c0 c,
    connectedCallback constructor = Normal c0
    ∧ deliver_reconnect_deliver first second c0 = Normal c
    ∧ count_attribute c
      = Some (number_to_string
                (occurrences "increment" (first ++ second)
                 - occurrences "decrement" (first ++ second)))
    ∧ displayed_total c = count_attribute c.
Proof.
  destruct (connectedCallback_in_sync constructor) as (c0 & E0 & Hc0 & Hs0).
  destruct (CounterSpec.deliver_in_sync first c0 Hs0) as (c1 & E1 & Hc1 & Hs1).
  destruct (connectedCallback_in_sync c1) as (c2 & E2 & Hc2 & Hs2).
  destruct (CounterSpec.deliver_in_sync second c2 Hs2)
    as (c & E & Hc & (_ & Ha & Hd)).
  exists c0, c. split; [done|]. unfold deliver_reconnect_deliver.
  rewrite E1, E2, E. split; [done|]. rewrite Hd, Ha. split; [|done].
  do 2 f_equal. rewrite Hc, Hc2, Hc1, Hc0, !occurrences_app.
  cbn [count constructor]. lia.
Qed.

End CounterExtra.

(** *** The todo list: count, array and listeners *)

Module TodoExtra.
Import JS Todo TodoMore.

Lemma query_todo_item_elem id items item :
  query_todo_item id items = Some item → item ∈ items.
Proof.
  intros H. destruct (TodoSpec.query_todo_item_split _ _ _ H)
    as (before & after & -> & _). apply elem_of_app. right. by left.
Qed.

Lemma remove_node_length n items :
  (∃ item, item ∈ items ∧ node item = n) →
  S (length (remove_node n items)) = length items.
Proof.
  induction items as [|x items IH]; intros (item & Hin & E).
  - by apply elem_of_nil in Hin.
  - cbn [remove_node]. destruct (decide (node x = n)) as [Hx | Hx].
    + by rewrite bool_decide_true.
    + rewrite bool_decide_false by done. cbn [length]. f_equal. apply IH.
      apply elem_of_cons in Hin as [-> | Hin]; [done|]. by exists item.
Qed.

(** From any component whose count is the text of an integer: what the
    count shows stays as far below the length of the list as the deletes that
    found nothing have pushed it. *)
Lemma count_follows_length trace : ∀ c n,
  count_text c = number_to_string n →
  ∃ n', count_text (fold_left step trace c) = number_to_string n'
        ∧ Z.of_nat (length (listUl (fold_left step trace c))) - n'
          = Z.of_nat (length (listUl c)) - n + Z.of_nat (missed_from c trace).
Proof.
  induction trace as [|a trace IH]; intros c n Hc.
  - exists n. split; [done|]. cbn. lia.
  - cbn [fold_left missed_from]. destruct a as [raw now|id]; cbn [step].
    + unfold submit.
      destruct (TodoSpec.submit_listener_cases raw now) as [-> | [text ->]].
      * destruct (IH c n Hc) as (n' & E & H). exists n'. split; [done|]. lia.
      * destruct (TodoSpec.handleEvent_submit text (number_to_string now) c)
          as [El Ec].
        destruct (IH (handleEvent (TodoInputSubmit text (number_to_string now)) c)
                    (n + 1)) as (n' & E & H).
        { by rewrite Ec, Hc, TodoSpec.incrementCount_number. }
        exists n'. split; [done|]. rewrite H, El, length_app. cbn [length]. lia.
    + destruct (TodoSpec.handleEvent_delete id c) as [El Ec].
      destruct (IH (handleEvent (TodoItemDelete id) c) (n - 1)) as (n' & E & H).
      { by rewrite Ec, Hc, TodoSpec.decrementCount_number. }
      exists n'. split; [done|]. rewrite H, El. unfold deleteListItem.
      destruct (query_todo_item id (listUl c)) as [item|] eqn:Hq; [|lia].
      pose proof (remove_node_length (node item) (listUl c)) as Hlen.
      rewrite <- Hlen; [lia|]. exists item. split; [|done].
      by eapply query_todo_item_elem.
Qed.

(** X2. After every trace of submits of plain texts and of deletes with
    identifiers of digits, the count shows the number of entries in the list
    minus the number of deletes that named no entry when they arrived: it
    never shows more than the list holds, and shows exactly the length of
    the list when no delete has missed. *)
Theorem X2_count_is_length_minus_missed_deletes (trace : list action) :
  plain_trace trace = true →
  displayed_count (run trace)
  = Some (Z.of_nat (length (listUl (run trace)))
          - Z.of_nat (missed_deletes trace)).
Proof.
  intros _.
  destruct (count_follows_length trace connected 0 eq_refl) as (n' & E & H).
  unfold displayed_count, run, missed_deletes. rewrite E.
  rewrite JSFacts.parseInt_number_to_string. f_equal.
  cbn [listUl connected length] in H. lia.
Qed.

Lemma X2_one_entry_and_a_missed_delete :
  displayed_count
    (run [Submit (Some (of_ascii "a")) 1000; Delete "7"; Delete "1000"])
  = Some (-1).
Proof.
  apply (X2_count_is_length_minus_missed_deletes
           [Submit (Some (of_ascii "a")) 1000; Delete "7"; Delete "1000"]).
  reflexivity.
Defined.

(** **** The array and the listeners *)

Lemma assigned_ids_snoc trace a :
  assigned_ids (trace ++ [a]) = assigned_ids trace ++ assigned_ids [a].
Proof.
  induction trace as [|[raw now|id] trace IH]; [done| |].
  - cbn [app assigned_ids] in *.
    destruct (submit_listener raw now) as [[text i| |]|]; by rewrite ?IH.
  - cbn [app assigned_ids] in *. by rewrite IH.
Qed.

Lemma query_todo_item_None id items :
  query_todo_item id items = None → Forall (λ x, id_attr x ≠ id) items.
Proof.
  induction items as [|x items IH]; [constructor|]. cbn [query_todo_item].
  destruct (decide (id_attr x = id)).
  - by rewrite bool_decide_true.
  - rewrite bool_decide_false by done. intros H. constructor; [done|by apply IH].
Qed.

Lemma query_todo_item_last id items text n :
  Forall (λ x, id_attr x ≠ id) items →
  query_todo_item id
    (items ++ [ {| node := n; text_attr := text; id_attr := id |} ])
  = Some {| node := n; text_attr := text; id_attr := id |}.
Proof.
  induction 1 as [|x items Hx _ IH]; cbn [app query_todo_item id_attr].
  - by rewrite bool_decide_true.
  - by rewrite bool_decide_false.
Qed.

Lemma filter_keeps_all {A} (P : A → Prop) `{∀ x, Decision (P x)} (l : list A) :
  Forall P l → filter P l = l.
Proof.
  induction 1 as [|x l Hx _ IH]; [done|].
  rewrite filter_cons. destruct (decide (P x)); [by rewrite IH|done].
Qed.

Lemma add_listener_elem n ls : n ∈ add_listener n ls.
Proof.
  unfold add_listener. destruct (decide (n ∈ ls)).
  - by rewrite bool_decide_true.
  - rewrite bool_decide_false by done. apply elem_of_app. right. by left.
Qed.

Lemma add_listener_mono m n ls : m ∈ ls → m ∈ add_listener n ls.
Proof.
  intros H. unfold add_listener. destruct (bool_decide (n ∈ ls)); [done|].
  apply elem_of_app. by left.
Qed.

(** With distinct identifiers in the list, the filter of [removeTodoItem]
    and [deleteListItem] take out the same element. *)
Lemma filter_is_deleteListItem id items :
  NoDup (node <$> items) → NoDup (id_attr <$> items) →
  filter (λ item, id_attr item ≠ id) items = deleteListItem id items.
Proof.
  intros Hnodes Hids. unfold deleteListItem.
  destruct (query_todo_item id items) as [item|] eqn:Hq.
  - destruct (TodoSpec.query_todo_item_split _ _ _ Hq)
      as (before & after & -> & Hbefore & Hitem).
    rewrite TodoSpec.remove_node_split by done.
    rewrite filter_app, filter_cons.
    destruct (decide (id_attr item ≠ id)) as [Hne|_]; [done|].
    rewrite !filter_keeps_all; [done| |done].
    rewrite fmap_app, fmap_cons in Hids.
    apply NoDup_app in Hids as (_ & _ & Hafter).
    apply NoDup_cons in Hafter as [Hnotin _].
    apply Forall_forall. intros x Hx E. apply Hnotin.
    rewrite Hitem, <- E. apply list_elem_of_fmap. by exists x.
  - apply filter_keeps_all. by apply query_todo_item_None.
Qed.

Lemma step_tidy trace a :
  NoDup (assigned_ids (trace ++ [a])) → tidy trace → tidy (trace ++ [a]).
Proof.
  rewrite assigned_ids_snoc. intros Hnd ((Harr & Hlis) & Hids & Hnodup).
  pose proof (TodoSpec.run_well_formed trace) as [Hnodes Hlt].
  unfold tidy, array_mirrors_list. rewrite TodoSpec.run_snoc, assigned_ids_snoc.
  set (c := run trace) in *.
  destruct a as [raw now|id]; cbn [step].
  - unfold submit. cbn [assigned_ids] in *.
    destruct (TodoSpec.submit_listener_cases raw now) as [E | [text E]];
      rewrite E in *; cbv iota beta in Hnd |- *.
    { rewrite app_nil_r. done. }
    set (id := number_to_string now) in *.
    apply NoDup_app in Hnd as (_ & Hfresh & _).
    assert (Forall (λ x, id_attr x ≠ id) (listUl c)) as Hother.
    { apply Forall_forall. intros x Hx Ex. rewrite Forall_forall in Hids.
      apply (Hfresh id); [rewrite <- Ex; by apply Hids|by left]. }
    unfold handleEvent, appendTodoItem, createListItem. cbn [listUl].
    rewrite query_todo_item_last by done.
    cbn [listUl todoItems delete_listeners node]. rewrite Harr.
    split; [split; [done|]|split].
    + apply Forall_app. split.
      * eapply Forall_impl; [exact Hlis|]. intros x Hx. by apply add_listener_mono.
      * constructor; [apply add_listener_elem|constructor].
    + apply Forall_app. split.
      * eapply Forall_impl; [exact Hids|]. intros x Hx. apply elem_of_app. by left.
      * constructor; [|constructor]. apply elem_of_app. right. by left.
    + rewrite fmap_app. apply NoDup_app. split; [done|]. split.
      * intros i Hi Hi'. cbn in Hi'. apply list_elem_of_singleton in Hi'. subst i.
        apply list_elem_of_fmap in Hi as (x & Ex & Hx).
        rewrite Forall_forall in Hother. by apply (Hother x Hx).
      * cbn. apply NoDup_singleton.
  - cbn [assigned_ids]. rewrite app_nil_r.
    unfold handleEvent, removeTodoItem. cbn [listUl todoItems delete_listeners].
    rewrite Harr, filter_is_deleteListItem by done.
    assert (sublist (deleteListItem id (listUl c)) (listUl c)) as Hsub.
    { unfold deleteListItem. destruct (query_todo_item id (listUl c)); [|done].
      apply TodoSpec.remove_node_sublist. }
    split; [split; [done|]|split].
    + apply Forall_forall. intros x Hx. rewrite Forall_forall in Hlis.
      apply Hlis. by eapply elem_of_sublist.
    + apply Forall_forall. intros x Hx. rewrite Forall_forall in Hids.
      apply Hids. by eapply elem_of_sublist.
    + eapply sublist_NoDup; [exact Hnodup|]. by apply fmap_sublist.
Qed.

Lemma run_tidy trace : NoDup (assigned_ids trace) → tidy trace.
Proof.
  induction trace as [|a trace IH] using rev_ind; intros Hnd.
  - split; [split; [done|constructor]|split; constructor].
  - apply step_tidy; [done|]. apply IH.
    rewrite assigned_ids_snoc in Hnd. by apply NoDup_app in Hnd as [? _].
Qed.

(** X3. After a trace of submits of plain texts and of deletes with
    identifiers of digits in which no two submits assigned the same
    identifier, the array [todoItems] the component keeps is exactly the
    rendered list, and the component listens for [todo-item-delete] on every
    item of the list. *)
Theorem X3_array_and_listeners_mirror_list (trace : list action) :
  plain_trace trace = true →
  NoDup (assigned_ids trace) → array_mirrors_list (run trace).
Proof. intros _ Hnd. by destruct (run_tidy trace Hnd). Qed.

Lemma X3_two_submits_and_a_delete :
  array_mirrors_list
    (run [Submit (Some (of_ascii "a")) 1000; Submit (Some (of_ascii "b")) 1001;
          Delete "1000"]).
Proof.
  apply X3_array_and_listeners_mirror_list.
  - reflexivity.
  - apply (bool_decide_unpack _). vm_compute. exact I.
Defined.

(** **** An identifier assigned twice *)

Lemma query_todo_item_app_l id items more item :
  query_todo_item id items = Some item →
  query_todo_item id (items ++ more) = Some item.
Proof.
  induction items as [|x items IH]; [done|]. cbn [app query_todo_item].
  destruct (bool_decide (id_attr x = id)); [done|]. apply IH.
Qed.

Lemma elem_of_add_listener m n ls : m ∈ add_listener n ls → m = n ∨ m ∈ ls.
Proof.
  unfold add_listener. destruct (bool_decide (n ∈ ls)); [by right|].
  intros [H | H]%elem_of_app; [by right|].
  apply list_elem_of_singleton in H. by left.
Qed.

(** The component only ever listens on elements it has made. *)
Lemma run_listeners_made trace :
  Forall (λ n, (n < created (run trace))%nat) (delete_listeners (run trace)).
Proof.
  induction trace as [|a trace IH] using rev_ind; [constructor|].
  rewrite TodoSpec.run_snoc. set (c := run trace) in *.
  pose proof (TodoSpec.run_well_formed trace) as [_ Hlt]. fold c in Hlt.
  destruct a as [raw now|id]; cbn [step]; [|done].
  unfold submit.
  destruct (TodoSpec.submit_listener_cases raw now) as [-> | [text ->]]; [done|].
  unfold handleEvent, appendTodoItem, createListItem. cbn [listUl].
  destruct (query_todo_item _ _) as [found|] eqn:Hq;
    cbn [delete_listeners created].
  - apply Forall_forall. intros m Hm.
    apply elem_of_add_listener in Hm as [-> | Hm].
    + apply query_todo_item_elem in Hq.
      apply elem_of_app in Hq as [Hq | Hq].
      * rewrite Forall_forall in Hlt. specialize (Hlt _ Hq). lia.
      * apply list_elem_of_singleton in Hq. subst found. cbn. lia.
    + rewrite Forall_forall in IH. specialize (IH _ Hm). lia.
  - eapply Forall_impl; [exact IH|]. intros m Hm. cbn in Hm. lia.
Qed.

(** X4. The first time a submit is given the identifier of an entry that
    is still in the list (all texts plain, all deletes so far with
    identifiers of digits), the new entry is appended, but the component
    looks the identifier up and finds the old entry: the array, which holds
    the old entry already, gets a second reference to it and none to the new
    entry, the new entry gets no listener, and a click on the delete button
    of the new entry changes nothing. *)
Theorem X4_repeated_identifier_leaves_new_entry_without_listener
    (trace : list action) (text : jsstring) (now : Z) (old : TodoItem) :
  plain_trace trace = true →
  plain_text text = true →
  NoDup (assigned_ids trace) →
  query_todo_item (number_to_string now) (listUl (run trace)) = Some old →
  let c := run trace in
  let c' := handleEvent (TodoInputSubmit text (number_to_string now)) c in
  let new := {| node := created c; text_attr := text;
                id_attr := number_to_string now |} in
  listUl c' = listUl c ++ [new]
  ∧ old ∈ todoItems c
  ∧ todoItems c' = todoItems c ++ [old]
  ∧ (new ∉ todoItems c')
  ∧ (node new ∉ delete_listeners c')
  ∧ click_delete new c' = c'.
Proof.
  intros _ _ Hnd Hq c c' new.
  pose proof (TodoSpec.run_well_formed trace) as [_ Hlt]. fold c in Hlt.
  pose proof (run_listeners_made trace) as Hls. fold c in Hls.
  destruct (run_tidy trace Hnd) as ((Harr & _) & _). fold c in Harr.
  assert (listUl c' = listUl c ++ [new]
          ∧ todoItems c' = todoItems c ++ [old]
          ∧ delete_listeners c' = add_listener (node old) (delete_listeners c))
    as (El & Et & Ed).
  { subst c'. unfold handleEvent, appendTodoItem, createListItem. cbn [listUl].
    by rewrite (query_todo_item_app_l _ _ _ _ Hq). }
  pose proof (query_todo_item_elem _ _ _ Hq) as Hold.
  assert (node new ∉ delete_listeners c') as Hnot.
  { rewrite Ed. intros [E | Hin]%elem_of_add_listener.
    - rewrite Forall_forall in Hlt.
      specialize (Hlt _ Hold). cbn [node new] in E. lia.
    - rewrite Forall_forall in Hls. specialize (Hls _ Hin). cbn in Hls. lia. }
  split; [done|]. split; [by rewrite Harr|]. split; [done|].
  split.
  { rewrite Et, Harr. intros Hin.
    assert (new ∈ listUl c) as Hnew.
    { apply elem_of_app in Hin as [Hin | Hin]; [done|].
      apply list_elem_of_singleton in Hin. by rewrite Hin. }
    rewrite Forall_forall in Hlt. specialize (Hlt _ Hnew).
    cbn [node new] in Hlt. lia. }
  split; [done|].
  unfold click_delete. by rewrite bool_decide_false.
Qed.

Lemma X4_two_submits_in_one_millisecond :
  let c := run [Submit (Some (of_ascii "a")) 1000] in
  let c' := handleEvent (TodoInputSubmit (of_ascii "b") (number_to_string 1000)) c in
  todoItems c' = [ {| node := 0; text_attr := of_ascii "a"; id_attr := "1000" |};
                   {| node := 0; text_attr := of_ascii "a"; id_attr := "1000" |} ]
  ∧ click_delete {| node := created c; text_attr := of_ascii "b";
                    id_attr := number_to_string 1000 |} c' = c'.
Proof.
  intros c c'.
  destruct (X4_repeated_identifier_leaves_new_entry_without_listener
              [Submit (Some (of_ascii "a")) 1000] (of_ascii "b") 1000
              {| node := 0; text_attr := of_ascii "a"; id_attr := "1000" |})
    as (_ & _ & Ht & _ & _ & H).
  - reflexivity.
  - reflexivity.
  - apply (bool_decide_unpack _). vm_compute. exact I.
  - vm_compute. reflexivity.
  - split; [exact Ht|exact H].
Defined.

(** **** The delete button *)

Lemma filter_the_one before item after :
  NoDup (id_attr <$> before ++ item :: after) →
  filter (λ x, id_attr x ≠ id_attr item) (before ++ item :: after)
  = before ++ after.
Proof.
  intros Hids. rewrite fmap_app, fmap_cons in Hids.
  apply NoDup_app in Hids as (_ & Hdisj & Hafter).
  apply NoDup_cons in Hafter as [Hnotin _].
  rewrite filter_app, filter_cons.
  destruct (decide (id_attr item ≠ id_attr item)) as [Hne|_]; [done|].
  rewrite !filter_keeps_all; [done| |].
  - apply Forall_forall. intros x Hx E. apply Hnotin. rewrite <- E.
    apply list_elem_of_fmap. by exists x.
  - apply Forall_forall. intros x Hx E. apply (Hdisj (id_attr x)).
    + apply list_elem_of_fmap. by exists x.
    + rewrite E. by left.
Qed.

(** X5. After a trace of submits of plain texts and of deletes with
    identifiers of digits in which no two submits assigned the same
    identifier, a click on the delete button of any item of the list takes
    exactly that item out of the list and out of the array, leaves the other
    items in their order, and lowers the displayed count by one. *)
Theorem X5_delete_button_removes_its_own_item
    (trace : list action) (before after : list TodoItem) (item : TodoItem) :
  plain_trace trace = true →
  NoDup (assigned_ids trace) →
  listUl (run trace) = before ++ item :: after →
  let c := run trace in
  let c' := click_delete item c in
  listUl c' = before ++ after
  ∧ todoItems c' = before ++ after
  ∧ ∃ n, displayed_count c = Some n ∧ displayed_count c' = Some (n - 1).
Proof.
  intros _ Hnd El c c'.
  destruct (run_tidy trace Hnd) as ((Harr & Hlis) & _ & Hids).
  pose proof (TodoSpec.run_well_formed trace) as [Hnodes _].
  fold c in Harr, Hlis, Hids, Hnodes, El.
  assert (c' = handleEvent (TodoItemDelete (id_attr item)) c) as ->.
  { subst c'. unfold click_delete. rewrite bool_decide_true; [done|].
    rewrite Forall_forall in Hlis. apply Hlis. rewrite El.
    apply elem_of_app. right. by left. }
  destruct (TodoSpec.handleEvent_delete (id_attr item) c) as [El' Ec].
  split; [|split].
  - rewrite El', <- filter_is_deleteListItem by done. rewrite El.
    apply filter_the_one. by rewrite <- El.
  - unfold handleEvent, removeTodoItem. cbn [todoItems]. rewrite Harr, El.
    apply filter_the_one. by rewrite <- El.
  - destruct (TodoSpec.displayed_count_run trace) as (n & En & Ed). fold c in En, Ed.
    exists n. split; [done|]. unfold displayed_count.
    rewrite Ec, En, TodoSpec.decrementCount_number.
    apply JSFacts.parseInt_number_to_string.
Qed.

Lemma X5_delete_the_first_of_two :
  listUl (click_delete
            {| node := 0; text_attr := of_ascii "a"; id_attr := "1000" |}
            (run [Submit (Some (of_ascii "a")) 1000;
                  Submit (Some (of_ascii "b")) 1001]))
  = [ {| node := 1; text_attr := of_ascii "b"; id_attr := "1001" |} ].
Proof.
  destruct (X5_delete_button_removes_its_own_item
              [Submit (Some (of_ascii "a")) 1000; Submit (Some (of_ascii "b")) 1001]
              [] [ {| node := 1; text_attr := of_ascii "b"; id_attr := "1001" |} ]
              {| node := 0; text_attr := of_ascii "a"; id_attr := "1000" |})
    as [H _].
  - reflexivity.
  - apply (bool_decide_unpack _). vm_compute. exact I.
  - vm_compute. reflexivity.
  - exact H.
Defined.

End TodoExtra.

(** ** The theme toggle and its icons *)

Module ToggleIconsExtra.
Import JS DOM ToggleTheme ToggleIcons.

Lemma classList_add_shown d : shown (Some (classList_add "active" d)) = true.
Proof.
  unfold shown, classList_add. cbn [classList].
  apply bool_decide_eq_true. case_bool_decide; [done|].
  apply elem_of_app. right. by left.
Qed.

Lemma classList_remove_shown d : shown (Some (classList_remove "active" d)) = false.
Proof.
  unfold shown, classList_remove. cbn [classList].
  apply bool_decide_eq_false. intros [H _]%list_elem_of_filter. done.
Qed.

(** What one event does to the toggle, and the records it leaves. *)
Lemma handleEvent_cases e s :
  (icon_records e = [] ∧ handleEvent e s = s)
  ∨ (detail_id e = "moon"
     ∧ icon_records e = [ {| mutation_type := "attributes" |} ]
     ∧ handleEvent e s = set_icons "false" "true" "dark" s)
  ∨ (detail_id e = "sun"
     ∧ icon_records e = [ {| mutation_type := "attributes" |} ]
     ∧ handleEvent e s = set_icons "true" "false" "light" s).
Proof.
  destruct e as [ty id]. unfold icon_records, handleEvent, handleIconClick.
  cbn [type detail_id].
  destruct (decide (id = "moon")) as [-> | Hm];
    [rewrite (bool_decide_true ("moon" = "moon")) by done;
     rewrite (bool_decide_false ("moon" = "sun")) by done
    |rewrite (bool_decide_false (id = "moon")) by done;
     destruct (decide (id = "sun")) as [-> | Hs];
     [rewrite (bool_decide_true ("sun" = "sun")) by done
     |rewrite (bool_decide_false (id = "sun")) by done]];
    destruct (bool_decide (ty = "clicked-sun")),
             (bool_decide (ty = "clicked-moon")); cbn [orb app]; auto.
Qed.

Lemma handleEvent_clicked_sun s :
  handleEvent clicked_sun s = set_icons "true" "false" "light" s.
Proof. reflexivity. Qed.

Lemma handleEvent_clicked_moon s :
  handleEvent clicked_moon s = set_icons "false" "true" "dark" s.
Proof. reflexivity. Qed.

Lemma from_icon_records e :
  from_icon e → icon_records e = [ {| mutation_type := "attributes" |} ].
Proof. by intros [-> | ->]. Qed.

Lemma set_icons_active ma sa th s :
  is_Some (icons s) →
  is_Some (icons (set_icons ma sa th s))
  ∧ sun_active (set_icons ma sa th s) = bool_decide (sa = "true")
  ∧ moon_active (set_icons ma sa th s) = bool_decide (ma = "true")
  ∧ (sun (set_icons ma sa th s) ≫= getAttribute "data-active") = Some sa
  ∧ (moon (set_icons ma sa th s) ≫= getAttribute "data-active") = Some ma.
Proof.
  intros [[sn mn] E]. unfold sun_active, moon_active, sun, moon, set_icons.
  cbn [icons]. rewrite E. cbn [fmap option_fmap option_map fst snd].
  rewrite !ToggleThemeSpec.active_setAttribute. cbn [mbind option_bind].
  rewrite !DOMFacts.getAttribute_setAttribute. split; [by eexists|done].
Qed.

(** One event keeps the icons in step with their attributes. *)
Lemma click_effect e p :
  icons_mirror_attributes p →
  ∃ p', click e p = Normal p'
    ∧ toggle p' = handleEvent e (toggle p)
    ∧ icons_mirror_attributes p'
    ∧ (moon_icon p' ≫= tabIndex) = (moon_icon p ≫= tabIndex)
    ∧ (sun_icon p' ≫= tabIndex)
      = match icon_records e with
        | [] => sun_icon p ≫= tabIndex
        | _ => Some (if sun_active (toggle p') then 0 else -1)
        end.
Proof.
  intros (Hic & [sd Es] & [md Em] & Hs & Hm).
  destruct p as [t si mi]. cbn [toggle sun_icon moon_icon] in *. subst si mi.
  unfold click. cbn [toggle sun_icon moon_icon].
  destruct (handleEvent_cases e t) as [[-> ->] | [(_ & -> & ->) | (_ & -> & ->)]].
  - cbn [sun_observer moon_observer]. eexists. split; [done|].
    cbn [toggle sun_icon moon_icon]. by repeat split.
  - destruct (set_icons_active "false" "true" "dark" t Hic)
      as (Hic' & Esa & Ema & -> & ->).
    cbn [sun_observer moon_observer]. unfold sun_on_mutation, moon_on_mutation.
    cbn [mutation_type].
    rewrite (bool_decide_true ("attributes" = "attributes")) by done.
    rewrite (bool_decide_true (Some "true" = Some "true")) by done.
    rewrite (bool_decide_false (Some "false" = Some "true")) by done.
    eexists. split; [done|]. unfold icons_mirror_attributes.
    cbn [toggle sun_icon moon_icon]. rewrite Esa, Ema. split; [done|]. split; [|done].
    repeat split; [done|by eexists|by eexists| |].
    + unfold set_tabIndex, shown. cbn [classList].
      exact (classList_add_shown sd).
    + exact (classList_remove_shown md).
  - destruct (set_icons_active "true" "false" "light" t Hic)
      as (Hic' & Esa & Ema & -> & ->).
    cbn [sun_observer moon_observer]. unfold sun_on_mutation, moon_on_mutation.
    cbn [mutation_type].
    rewrite (bool_decide_true ("attributes" = "attributes")) by done.
    rewrite (bool_decide_true (Some "true" = Some "true")) by done.
    rewrite (bool_decide_false (Some "false" = Some "true")) by done.
    eexists. split; [done|]. unfold icons_mirror_attributes.
    cbn [toggle sun_icon moon_icon]. rewrite Esa, Ema. split; [done|]. split; [|done].
    repeat split; [done|by eexists|by eexists| |].
    + unfold set_tabIndex, shown. cbn [classList].
      exact (classList_remove_shown sd).
    + exact (classList_add_shown md).
Qed.

(** The first rendering: both icons render from the theme of the document,
    the one the toggle has just read for their attributes. *)
Lemma sun_render_shown s :
  shown (Some (sun_render (data_theme (connectedCallback s))))
  = sun_active (connectedCallback s).
Proof.
  unfold sun_active, sun, connectedCallback, hydrate, render.
  cbn [icons data_theme fmap option_fmap option_map fst].
  rewrite ToggleThemeSpec.active_Element.
  unfold shown, sun_render, sun_setDisplay, setIconVisibility.
  rewrite (bool_decide_true ("sun" = "sun")) by done. cbn [classList].
  by destruct (bool_decide (or_default _ _ = "dark")).
Qed.

Lemma moon_render_shown s :
  shown (Some (moon_render (data_theme (connectedCallback s))))
  = moon_active (connectedCallback s).
Proof.
  unfold moon_active, moon, connectedCallback, hydrate, render.
  cbn [icons data_theme fmap option_fmap option_map snd].
  rewrite ToggleThemeSpec.active_Element.
  unfold shown, moon_render, moon_setDisplay, setIconVisibility.
  rewrite (bool_decide_false ("moon" = "sun")) by done.
  rewrite (bool_decide_true ("moon" = "moon")) by done. cbn [classList].
  by destruct (bool_decide (or_default _ _ = "light")).
Qed.

Lemma connect_effect s :
  ∃ p, connect s = Normal p
    ∧ toggle p = connectedCallback s
    ∧ icons_mirror_attributes p
    ∧ (moon_icon p ≫= tabIndex) = None
    ∧ (sun_icon p ≫= tabIndex) = None.
Proof.
  exists {| toggle := connectedCallback s;
            sun_icon := Some (sun_render (data_theme (connectedCallback s)));
            moon_icon := Some (moon_render (data_theme (connectedCallback s))) |}.
  split; [reflexivity|]. unfold icons_mirror_attributes.
  cbn [toggle sun_icon moon_icon].
  split; [done|]. split; [|done].
  split; [by eexists|]. split; [by eexists|]. split; [by eexists|].
  split; [apply sun_render_shown | apply moon_render_shown].
Qed.

Lemma clicks_snoc events e p :
  clicks (events ++ [e]) p
  = match clicks events p with
    | Throw err => Throw err
    | Normal p' => click e p'
    end.
Proof.
  revert p. induction events as [|e0 events IH]; intros p; cbn [app clicks].
  - by destruct (click e p).
  - destruct (click e0 p); [apply IH|done].
Qed.

Lemma session_snoc s events e :
  session s (events ++ [e])
  = match session s events with
    | Throw err => Throw err
    | Normal p => click e p
    end.
Proof. unfold session. destruct (connect s); [apply clicks_snoc|done]. Qed.

Lemma session_effect s events :
  ∃ p, session s events = Normal p
    ∧ toggle p = deliver events (connectedCallback s)
    ∧ icons_mirror_attributes p
    ∧ (moon_icon p ≫= tabIndex) = None.
Proof.
  induction events as [|e events IH] using rev_ind.
  - destruct (connect_effect s) as (p & E & Et & Hi & Hm & _).
    exists p. unfold session. by rewrite E.
  - destruct IH as (p & E & Et & Hi & Hm).
    destruct (click_effect e p Hi) as (p' & E' & Et' & Hi' & Hm' & _).
    exists p'. rewrite session_snoc, E.
    rewrite ToggleThemeSpec.deliver_snoc, <- Et. split; [done|].
    split; [done|]. split; [done|]. by rewrite Hm'.
Qed.

(** X6. Whatever the theme of the document when the toggle is connected
    and whatever events reach the toggle afterwards, neither the rendering
    of the icons nor their observers throw, and each of the two icons is
    displayed (its [div] has the class [active]) exactly when its
    [data-active] attribute is "true". *)
Theorem X6_displayed_icon_follows_data_active
    (s : State) (events : list CustomEvent) :
  ∃ p, session s events = Normal p
    ∧ toggle p = deliver events (connectedCallback s)
    ∧ shown (sun_icon p) = sun_active (toggle p)
    ∧ shown (moon_icon p) = moon_active (toggle p).
Proof.
  destruct (session_effect s events) as (p & E & Et & (_ & _ & _ & Hs & Hm) & _).
  by exists p.
Qed.

(** X7. The moon icon is never given a [tabIndex]. The sun icon has none
    after the first rendering, also when it is the displayed icon; from the
    first click on, its [tabIndex] is 0 when it is displayed and -1 when it
    is not. *)
Theorem X7_only_the_sun_icon_gets_a_tabIndex_and_only_after_a_click
    (s : State) (events : list CustomEvent) :
  Forall from_icon events →
  ∃ p, session s events = Normal p
    ∧ (moon_icon p ≫= tabIndex) = None
    ∧ (sun_icon p ≫= tabIndex)
      = match events with
        | [] => None
        | _ => Some (if shown (sun_icon p) then 0 else -1)
        end.
Proof.
  intros Hev. destruct events as [|e events] using rev_ind.
  - destruct (connect_effect s) as (p & E & _ & _ & Hm & Hs).
    exists p. unfold session. by rewrite E.
  - clear IHevents. apply Forall_app in Hev as [_ He]. apply Forall_inv in He.
    destruct (session_effect s events) as (p & E & _ & Hi & Hm).
    destruct (click_effect e p Hi) as (p' & E' & _ & Hi' & Hm' & Hs').
    exists p'. rewrite session_snoc, E. split; [done|].
    split; [by rewrite Hm'|].
    rewrite Hs', (from_icon_records e He).
    destruct Hi' as (_ & _ & _ & -> & _).
    by destruct events.
Qed.

Lemma X7_dark_page_then_a_click_on_the_sun :
  ∃ p, session {| data_theme := Some "dark"; prefers_dark := false;
                  icons := None; listening := false |} [clicked_sun] = Normal p
    ∧ (moon_icon p ≫= tabIndex) = None
    ∧ (sun_icon p ≫= tabIndex) = Some (if shown (sun_icon p) then 0 else -1).
Proof.
  apply (X7_only_the_sun_icon_gets_a_tabIndex_and_only_after_a_click
           {| data_theme := Some "dark"; prefers_dark := false;
              icons := None; listening := false |} [clicked_sun]).
  repeat constructor.
Defined.

(** X8. A click on the displayed icon swaps the two: after a click on the
    moon icon the theme of the document is "dark", the sun icon is
    displayed and the moon icon is not; after a click on the sun icon the
    theme is "light", the moon icon is displayed and the sun icon is not.
    Nothing of what came before the click matters. *)
Theorem X8_click_swaps_theme_and_displayed_icon
    (s : State) (events : list CustomEvent) (e : CustomEvent) :
  from_icon e →
  ∃ p, session s (events ++ [e]) = Normal p
    ∧ data_theme (toggle p)
      = Some (if bool_decide (detail_id e = "moon") then "dark" else "light")
    ∧ shown (sun_icon p) = bool_decide (detail_id e = "moon")
    ∧ shown (moon_icon p) = bool_decide (detail_id e = "sun").
Proof.
  intros He.
  destruct (session_effect s events) as (p & E & _ & Hi & _).
  destruct (click_effect e p Hi) as (p' & E' & Et' & Hi' & _).
  exists p'. rewrite session_snoc, E. split; [done|].
  destruct Hi' as (_ & _ & _ & -> & ->). rewrite Et'.
  destruct Hi as (Hic & _).
  destruct He as [-> | ->].
  - rewrite handleEvent_clicked_sun.
    destruct (set_icons_active "true" "false" "light" (toggle p) Hic)
      as (_ & -> & -> & _). done.
  - rewrite handleEvent_clicked_moon.
    destruct (set_icons_active "false" "true" "dark" (toggle p) Hic)
      as (_ & -> & -> & _). done.
Qed.

Lemma X8_two_moon_clicks_in_a_row :
  ∃ p, session {| data_theme := None; prefers_dark := true;
                  icons := None; listening := false |}
         ([clicked_moon] ++ [clicked_moon]) = Normal p
    ∧ data_theme (toggle p) = Some "dark"
    ∧ shown (sun_icon p) = true
    ∧ shown (moon_icon p) = false.
Proof.
  apply (X8_click_swaps_theme_and_displayed_icon
           {| data_theme := None; prefers_dark := true;
              icons := None; listening := false |} [clicked_moon] clicked_moon).
  by right.
Defined.

End ToggleIconsExtra.

(** ** More of the icon loader *)

Module IconLoaderExtra.
Import JS DOM IconLoader IconLoaderMore Tactics.

(** *** Sizes *)

Lemma digits_go_append fuel : ∀ n acc rest,
  digits_go fuel n acc +:+ rest = digits_go fuel n (acc +:+ rest).
Proof.
  induction fuel as [|f IH]; intros n acc rest; [done|].
  cbn [digits_go]. destruct (n / 10 =? 0); [done|]. by rewrite IH.
Qed.

Lemma parse_digits_stop a rest :
  starts_with_digit rest = false → parse_digits a rest = a.
Proof.
  destruct rest as [|c rest]; [done|]. cbn [starts_with_digit parse_digits].
  destruct (digit_val c); [|done]. intros H.
  apply bool_decide_eq_false in H. destruct H. by eexists.
Qed.

Lemma parse_digits_digits_then n rest :
  0 <= n → starts_with_digit rest = false →
  parse_digits 0 (digits n +:+ rest) = n.
Proof.
  intros Hn Hrest. unfold digits. rewrite digits_go_append.
  destruct (JSFacts.parse_digits_go (S (Z.to_nat (Z.log2 n))) n
              (EmptyString +:+ rest)) as (k & _ & P).
  { split; [done|]. by apply JSFacts.log2_fuel. }
  rewrite P. cbn [String.append]. rewrite parse_digits_stop by done. lia.
Qed.

(** [parseInt] reads the integer a text starts with and ignores what
    follows it. *)
Lemma parseInt_number_then z rest :
  starts_with_digit rest = false →
  parseInt (number_to_string z +:+ rest) = Some z.
Proof.
  intros Hrest. unfold number_to_string.
  destruct (Z.ltb_spec z 0) as [Hneg | Hpos].
  - pose proof (parse_digits_digits_then (- z) rest ltac:(lia) Hrest) as P.
    unfold digits in *. rewrite digits_go_append in P.
    change (String "-" ?t +:+ rest) with (String "-" (t +:+ rest)).
    rewrite digits_go_append.
    destruct (JSFacts.digits_go_head (Z.to_nat (Z.log2 (- z))) (- z)
                (EmptyString +:+ rest) ltac:(lia)) as (d & tl & Hd & E).
    rewrite E in *. rewrite JSFacts.parseInt_minus_digit_head by done.
    f_equal. lia.
  - pose proof (parse_digits_digits_then z rest Hpos Hrest) as P.
    unfold digits in *. rewrite digits_go_append in P |- *.
    destruct (JSFacts.digits_go_head (Z.to_nat (Z.log2 z)) z
                (EmptyString +:+ rest) Hpos) as (d & tl & Hd & E).
    rewrite E in *. rewrite JSFacts.parseInt_digit_head by done. by f_equal.
Qed.

(** X9. A size attribute is read like [parseInt] reads it: when its text
    is an integer followed by anything that does not start with a digit
    (a unit such as [px], a fraction, nothing at all), the size is that
    integer, also when it is zero or negative, and the fallback is not
    used. The integer is one a JavaScript number holds exactly, of
    magnitude at most 2^53; [parseInt] rounds larger ones. *)
Theorem X9_size_attribute_is_its_leading_integer
    (el : element) (attrName : string) (fallback z : Z) (rest : string) :
  Z.abs z <= 2 ^ 53 →
  starts_with_digit rest = false →
  getAttribute attrName el = Some (number_to_string z +:+ rest) →
  getDimensionAttribute el attrName fallback = z.
Proof.
  intros _ Hrest Hattr. unfold getDimensionAttribute.
  by rewrite Hattr, parseInt_number_then.
Qed.

Lemma X9_minus_eight_pixels :
  getDimensionAttribute (Element "icon-theme-aware" {[ "data-width" := "-8px" ]})
    "data-width" 64 = -8.
Proof.
  apply (X9_size_attribute_is_its_leading_integer _ _ 64 (-8) "px");
    [vm_compute; discriminate|reflexivity|reflexivity].
Defined.

(** *** fetchIcon *)

Lemma cached_after_put (w w' : World) nm src body url :
  caches w' = <[nm := <[src := body]> (default ∅ (caches w !! nm))]> (caches w) →
  cached w' nm url = if decide (url = src) then Some body else cached w nm url.
Proof.
  intros E. unfold cached. rewrite E, lookup_insert_eq. cbn [mbind option_bind].
  destruct (decide (url = src)) as [-> | Hne].
  - by rewrite lookup_insert_eq.
  - rewrite lookup_insert_ne by done. by destruct (caches w !! nm).
Qed.

Lemma cached_other_cache (w w' : World) nm src body other url :
  caches w' = <[nm := <[src := body]> (default ∅ (caches w !! nm))]> (caches w) →
  other ≠ nm → cached w' other url = cached w other url.
Proof. intros E Hne. unfold cached. by rewrite E, lookup_insert_ne. Qed.

(** Every call of [fetchIcon] with a source and a cache returns: one
    request goes out, and the result is the body exactly when the response
    was ok and the cache took it. *)
Lemma fetchIcon_run s src nm :
  src ≠ EmptyString →
  ∃ r s', fetchIcon (Some src) (Some nm) s = (Normal r, s')
    ∧ self s' = self s
    ∧ requests (world s') = requests (world s) ++ [src]
    ∧ data_theme (world s') = data_theme (world s)
    ∧ prefers_dark (world s') = prefers_dark (world s)
    ∧ network (world s') = network (world s)
    ∧ storage_full (world s') = storage_full (world s)
    ∧ (∀ body, r = Some body
               ↔ answers (world s) src body ∧ storage_full (world s) = false)
    ∧ match r with
      | Some body =>
          caches (world s')
          = <[nm := <[src := body]> (default ∅ (caches (world s) !! nm))]>
              (caches (world s))
      | None => caches (world s') = caches (world s)
      end.
Proof.
  intros Hsrc. unfold fetchIcon, truthy, console_write, answers.
  destruct src as [|c src]; [done|]. unfold fetch, cache_put. unfold_M.
  cbn [template_text set_console set_requests requests console network
       storage_full caches data_theme prefers_dark].
  destruct (network (world s) (length (requests (world s))) (String c src))
    as [|[] statusText body] eqn:En; cbn [negb].
  - eexists _, _. split; [reflexivity|]. cbn [world self set_console
      set_requests requests caches data_theme prefers_dark network storage_full].
    repeat split; try done. by intros ([st [=]] & _).
  - unfold_M. cbn [set_console set_requests storage_full].
    destruct (storage_full (world s)) eqn:Ef.
    + eexists _, _. split; [reflexivity|]. cbn [world self set_console
        set_requests requests caches data_theme prefers_dark network storage_full].
      repeat split; try done. by intros (_ & [=]).
    + eexists _, _. split; [reflexivity|]. cbn [world self set_console
        set_requests set_caches requests caches data_theme prefers_dark network
        storage_full].
      repeat split; try done.
      * injection H as <-. by exists statusText.
      * intros [[st [= _ <-]] _]. done.
  - eexists _, _. split; [reflexivity|]. cbn [world self set_console
      set_requests requests caches data_theme prefers_dark network storage_full].
    repeat split; try done. by intros ([st [=]] & _).
Qed.

(** X10. [fetchIcon] never throws, whatever the network and the storage
    do, and leaves the component as it was. With a source and a cache it
    sends exactly one request; it returns the body of the response exactly
    when the response was ok and the cache accepted the copy, and [null]
    otherwise, in which case no cache has changed. *)
Theorem X10_fetchIcon_always_returns
    (s : State) (iconSrc cache : option string) :
  ∃ r s', fetchIcon iconSrc cache s = (Normal r, s')
    ∧ self s' = self s
    ∧ (r = None → caches (world s') = caches (world s))
    ∧ ∀ src nm, iconSrc = Some src → src ≠ EmptyString → cache = Some nm →
        requests (world s') = requests (world s) ++ [src]
        ∧ ∀ body, r = Some body
                  ↔ answers (world s) src body ∧ storage_full (world s) = false.
Proof.
  destruct (truthy iconSrc) as [src|] eqn:Et; [destruct cache as [nm|]|].
  - assert (iconSrc = Some src ∧ src ≠ EmptyString) as [-> Hsrc].
    { destruct iconSrc as [[|c t]|]; cbn in Et; try done.
      by injection Et as <-. }
    destruct (fetchIcon_run s src nm Hsrc)
      as (r & s' & E & Hself & Hreq & _ & _ & _ & _ & Hiff & Hc).
    exists r, s'. split; [done|]. split; [done|]. split.
    + intros ->. done.
    + intros src' nm' [= <-] _ [= <-]. done.
  - unfold fetchIcon. rewrite Et. eexists _, _. split; [reflexivity|].
    cbn. split; [done|]. split; [done|]. by intros.
  - unfold fetchIcon. rewrite Et. eexists _, _. split; [reflexivity|].
    cbn. split; [done|]. split; [done|].
    intros src nm -> Hsrc _. by destruct src.
Qed.

(** X11. What [fetchIcon] has returned is what the cache serves from then
    on: [getCacheItem] for the same cache and source gives the same body,
    without a request, and every other entry of every cache is as it was
    before the fetch. *)
Theorem X11_fetched_icon_is_served_from_the_cache
    (s s' : State) (src nm : string) (body : Blob) :
  fetchIcon (Some src) (Some nm) s = (Normal (Some body), s') →
  getCacheItem (Some nm) (Some src) s' = (Normal (Some body), s')
  ∧ ∀ other url, (other, url) ≠ (nm, src) →
      cached (world s') other url = cached (world s) other url.
Proof.
  intros E.
  assert (src ≠ EmptyString) as Hsrc.
  { intros ->. by rewrite IconLoaderSpec.fetchIcon_no_source in E. }
  destruct (fetchIcon_run s src nm Hsrc)
    as (r & s1 & E1 & _ & _ & _ & _ & _ & _ & _ & Hc).
  rewrite E in E1. injection E1 as <- <-.
  split.
  - assert (cached (world s') nm src = Some body) as Hcd.
    { rewrite (cached_after_put _ _ _ _ _ _ Hc). by rewrite decide_True. }
    unfold getCacheItem. unfold_M. unfold cached in Hcd. by rewrite Hcd.
  - intros other url Hne. destruct (decide (other = nm)) as [-> | Hnm].
    + rewrite (cached_after_put _ _ _ _ _ _ Hc).
      rewrite decide_False; [done|]. by intros ->.
    + by apply (cached_other_cache _ _ _ _ _ _ _ Hc).
Qed.

Lemma X11_sun_fetched_then_served :
  let s' := snd (fetchIcon (Some "/sun.svg") (Some "icons")
                   (page (Some "light") network_up)) in
  getCacheItem (Some "icons") (Some "/sun.svg") s'
  = (Normal (Some "bytes of /sun.svg"), s').
Proof.
  intros s'.
  apply (X11_fetched_icon_is_served_from_the_cache
           (page (Some "light") network_up) s' "/sun.svg" "icons"
           "bytes of /sun.svg").
  vm_compute. reflexivity.
Defined.

(** *** The first connection, step by step *)

Lemma bind_run {A B} (m : M A) (k : A → M B) s a s' :
  m s = (Normal a, s') → bind m k s = k a s'.
Proof. intros E. unfold bind. by rewrite E. Qed.

Lemma bind_get {B} (k : State → M B) s : bind get k s = k s s.
Proof. done. Qed.

Lemma truthy_Some t : t ≠ EmptyString → truthy (Some t) = Some t.
Proof. by destruct t. Qed.

Lemma truthy_is_Some v :
  is_Some (truthy v) ↔ ∃ t, v = Some t ∧ t ≠ EmptyString.
Proof.
  split.
  - intros [t E]. destruct v as [[|c r]|]; cbn in E; try done.
    by exists (String c r).
  - intros (t & -> & Ht). rewrite truthy_Some by done. by eexists.
Qed.

Lemma cached_insert_empty (w : World) key other url :
  caches w !! key = None →
  (<[key := ∅]> (caches w) !! other ≫= (λ entries : gmap string Blob, entries !! url))
  = cached w other url.
Proof.
  intros E. unfold cached. destruct (decide (other = key)) as [-> | Hne].
  - by rewrite lookup_insert_eq, E.
  - by rewrite lookup_insert_ne.
Qed.

(** initVariables: the theme is read (and written when the document has
    none), the attributes are read, the cache is opened. *)
Lemma initVariables_run s :
  ∃ s1, initVariables s = (Normal tt, s1)
    ∧ self s1
      = {| host := host (self s); container := container (self s);
           observer := observer (self s);
           currentTheme := Some (system_theme (world s));
           iconLight := None; iconDark := None;
           iconHeight := Some (getDimensionAttribute (host (self s)) "data-height" 64);
           iconWidth := Some (getDimensionAttribute (host (self s)) "data-width" 64);
           srcLight := getAttribute "data-src-light" (host (self s));
           srcDark := getAttribute "data-src-dark" (host (self s));
           name := getAttribute "data-name" (host (self s));
           cache := Some (cache_name s) |}
    ∧ requests (world s1) = requests (world s)
    ∧ data_theme (world s1) = Some (system_theme (world s))
    ∧ prefers_dark (world s1) = prefers_dark (world s)
    ∧ network (world s1) = network (world s)
    ∧ storage_full (world s1) = storage_full (world s)
    ∧ ∀ other url, cached (world s1) other url = cached (world s) other url.
Proof.
  unfold initVariables, getSystemTheme, initCache, system_theme, cache_name.
  unfold_M.
  destruct (data_theme (world s)) as [theme|] eqn:Et; unfold_M;
    cbn [set_data_theme caches host];
    destruct (caches (world s) !! _) as [entries|] eqn:Ec;
    (eexists; split; [reflexivity|]);
    cbn [world self set_caches set_data_theme requests data_theme prefers_dark
         network storage_full caches host container observer];
    repeat split; try done;
    intros other url; unfold cached at 1;
    cbn [caches set_caches set_data_theme]; by apply cached_insert_empty.
Qed.

Lemma initIcons_run s nm light dark :
  initIcons (Some nm) (Some light) (Some dark) s
  = (Normal tt,
     {| world := world s;
        self := set_iconDark (cached (world s) nm dark)
                  (set_iconLight (cached (world s) nm light) (self s)) |}).
Proof. reflexivity. Qed.

Lemma grows_refl nm w : grows nm w w.
Proof. repeat split; try done; intros url b ->; by eexists. Qed.

Lemma grows_trans nm w1 w2 w3 : grows nm w1 w2 → grows nm w2 w3 → grows nm w1 w3.
Proof.
  intros (? & ? & ? & ? & H12) (? & ? & ? & ? & H23).
  repeat split; try congruence.
  intros url b Hb. destruct (H12 url b Hb) as [b' Hb']. by apply (H23 url b').
Qed.

(** One variant is fetched when the cache did not have it. *)
Lemma fetch_step s src nm (held : option Blob) :
  src ≠ EmptyString →
  ∃ r s',
    match held with
    | None => fetchIcon (Some src) (Some nm) s
    | Some b => (Normal (Some b), s)
    end = (Normal r, s')
    ∧ self s' = self s
    ∧ requests (world s')
      = requests (world s) ++ match held with Some _ => [] | None => [src] end
    ∧ grows nm (world s) (world s')
    ∧ (∀ b, held = Some b → r = Some b)
    ∧ (held = None → ∀ b, r = Some b → cached (world s') nm src = Some b)
    ∧ (held = None → storage_full (world s) = true →
       r = None ∧ caches (world s') = caches (world s)).
Proof.
  intros Hsrc. destruct held as [b|].
  - exists (Some b), s. split; [done|]. split; [done|].
    split; [by rewrite app_nil_r|]. split; [apply grows_refl|].
    split; [by intros ? [= <-]|]. split; by intros [=].
  - destruct (fetchIcon_run s src nm Hsrc)
      as (r & s' & E & Hself & Hreq & Ht & Hp & Hn & Hf & Hiff & Hc).
    exists r, s'. split; [done|]. split; [done|]. split; [done|].
    split; [|split; [done|split]].
    + repeat split; try done. intros url b Hb. destruct r as [body|].
      * rewrite (cached_after_put _ _ _ _ _ _ Hc).
        destruct (decide (url = src)); [by eexists|]. rewrite Hb. by eexists.
      * unfold cached in *. rewrite Hc, Hb. by eexists.
    + intros _ b ->. rewrite (cached_after_put _ _ _ _ _ _ Hc).
      by rewrite decide_True.
    + intros _ Hfull. destruct r as [body|]; [|done].
      destruct (Hiff body) as [Hthen _]. destruct (Hthen eq_refl) as [_ Hnot].
      congruence.
Qed.

Lemma set_iconLight_same l : set_iconLight (iconLight l) l = l.
Proof. by destruct l. Qed.

Lemma set_iconDark_same l : set_iconDark (iconDark l) l = l.
Proof. by destruct l. Qed.

Lemma state_eta (s : State) : {| world := world s; self := self s |} = s.
Proof. by destruct s. Qed.

Lemma light_step s src nm :
  srcLight (self s) = Some src → cache (self s) = Some nm → src ≠ EmptyString →
  ∃ s',
    match iconLight (self s) with
    | None =>
        let* icon := fetchIcon (srcLight (self s)) (cache (self s)) in
        modify_self (set_iconLight icon)
    | Some _ => ret tt
    end s = (Normal tt, s')
    ∧ requests (world s')
      = requests (world s)
        ++ match iconLight (self s) with Some _ => [] | None => [src] end
    ∧ grows nm (world s) (world s')
    ∧ ∃ r, self s' = set_iconLight r (self s)
        ∧ (∀ b, iconLight (self s) = Some b → r = Some b)
        ∧ (iconLight (self s) = None →
           ∀ b, r = Some b → cached (world s') nm src = Some b)
        ∧ (iconLight (self s) = None → storage_full (world s) = true →
           r = None ∧ caches (world s') = caches (world s)).
Proof.
  intros Hsrc Hcache Hne.
  destruct (fetch_step s src nm (iconLight (self s)) Hne)
    as (r & s1 & E & Hself & Hreq & Hgrow & Hheld & Hnew & Hfull).
  destruct (iconLight (self s)) as [b|] eqn:El.
  - injection E as <- <-. exists s. split; [done|]. split; [done|].
    split; [done|]. exists (Some b). rewrite <- El at 1.
    rewrite set_iconLight_same. split; [done|]. split; [done|].
    split; by intros [=].
  - rewrite Hsrc, Hcache. rewrite (bind_run _ _ _ _ _ E).
    eexists. split; [reflexivity|]. cbn [world self].
    split; [done|]. split; [done|]. exists r. rewrite Hself. done.
Qed.

Lemma dark_step s src nm :
  srcDark (self s) = Some src → cache (self s) = Some nm → src ≠ EmptyString →
  ∃ s',
    match iconDark (self s) with
    | None =>
        let* icon := fetchIcon (srcDark (self s)) (cache (self s)) in
        modify_self (set_iconDark icon)
    | Some _ => ret tt
    end s = (Normal tt, s')
    ∧ requests (world s')
      = requests (world s)
        ++ match iconDark (self s) with Some _ => [] | None => [src] end
    ∧ grows nm (world s) (world s')
    ∧ ∃ r, self s' = set_iconDark r (self s)
        ∧ (∀ b, iconDark (self s) = Some b → r = Some b)
        ∧ (iconDark (self s) = None →
           ∀ b, r = Some b → cached (world s') nm src = Some b)
        ∧ (iconDark (self s) = None → storage_full (world s) = true →
           r = None ∧ caches (world s') = caches (world s)).
Proof.
  intros Hsrc Hcache Hne.
  destruct (fetch_step s src nm (iconDark (self s)) Hne)
    as (r & s1 & E & Hself & Hreq & Hgrow & Hheld & Hnew & Hfull).
  destruct (iconDark (self s)) as [b|] eqn:El.
  - injection E as <- <-. exists s. split; [done|]. split; [done|].
    split; [done|]. exists (Some b). rewrite <- El at 1.
    rewrite set_iconDark_same. split; [done|]. split; [done|].
    split; by intros [=].
  - rewrite Hsrc, Hcache. rewrite (bind_run _ _ _ _ _ E).
    eexists. split; [reflexivity|]. cbn [world self].
    split; [done|]. split; [done|]. exists r. rewrite Hself. done.
Qed.

(** The whole of a connection of an element that names both sources. *)
Lemma connectedCallback_run s light dark :
  sources s light dark →
  ∃ s', connectedCallback s = (Normal tt, s')
    ∧ requests (world s')
      = requests (world s) ++ missing (world s) (cache_name s) light
                           ++ missing (world s) (cache_name s) dark
    ∧ data_theme (world s') = Some (system_theme (world s))
    ∧ prefers_dark (world s') = prefers_dark (world s)
    ∧ network (world s') = network (world s)
    ∧ storage_full (world s') = storage_full (world s)
    ∧ (∀ url b, cached (world s) (cache_name s) url = Some b →
                is_Some (cached (world s') (cache_name s) url))
    ∧ host (self s') = host (self s)
    ∧ observer (self s') = true
    ∧ currentTheme (self s') = Some (system_theme (world s))
    ∧ container (self s') = Some (shown (system_theme (world s)) (self s'))
    ∧ (∀ b, cached (world s) (cache_name s) light = Some b →
            iconLight (self s') = Some b)
    ∧ (∀ b, cached (world s) (cache_name s) dark = Some b →
            iconDark (self s') = Some b)
    ∧ (∀ b, iconLight (self s') = Some b →
            is_Some (cached (world s') (cache_name s) light))
    ∧ (∀ b, iconDark (self s') = Some b →
            is_Some (cached (world s') (cache_name s) dark))
    ∧ (storage_full (world s) = true →
       iconLight (self s') = cached (world s) (cache_name s) light
       ∧ iconDark (self s') = cached (world s) (cache_name s) dark).
Proof.
  intros (Hl & Hlne & Hd & Hdne).
  set (nm := cache_name s). set (th := system_theme (world s)).
  unfold connectedCallback.
  set (s0 := {| world := world s; self := set_container (Some []) (self s) |}).
  rewrite (bind_run render _ s tt s0) by reflexivity.
  destruct (initVariables_run s0)
    as (s1 & E1 & Hself1 & Hreq1 & Hth1 & Hp1 & Hn1 & Hf1 & Hc1).
  change (host (self s0)) with (host (self s)) in Hself1.
  change (cache_name s0) with nm in Hself1.
  change (system_theme (world s0)) with th in Hself1, Hth1.
  change (world s0) with (world s) in Hreq1, Hp1, Hn1, Hf1, Hc1.
  cbn [self s0 set_container container observer] in Hself1.
  rewrite Hl, Hd in Hself1.
  unfold hydrate. rewrite (bind_run _ _ _ _ _ E1), bind_get.
  assert (cache (self s1) = Some nm) as Hcache1 by (by rewrite Hself1).
  assert (srcLight (self s1) = Some light) as Hsl1 by (by rewrite Hself1).
  assert (srcDark (self s1) = Some dark) as Hsd1 by (by rewrite Hself1).
  rewrite Hcache1, Hsl1, Hsd1, !truthy_Some by done.
  rewrite (bind_run _ _ _ _ _ (initIcons_run s1 nm light dark)), bind_get.
  set (s2 := {| world := world s1;
                self := set_iconDark (cached (world s1) nm dark)
                          (set_iconLight (cached (world s1) nm light) (self s1)) |}).
  destruct (light_step s2 light nm) as (s3 & E3 & Hreq3 & Hg3 & r3 & Hself3 & Hheld3 & Hnew3 & Hfull3);
    [done..|].
  rewrite (bind_run _ _ _ _ _ E3), bind_get.
  assert (srcDark (self s3) = Some dark) as Hsd3 by (by rewrite Hself3).
  assert (cache (self s3) = Some nm) as Hcache3 by (by rewrite Hself3).
  destruct (dark_step s3 dark nm Hsd3 Hcache3 Hdne)
    as (s4 & E4 & Hreq4 & Hg4 & r4 & Hself4 & Hheld4 & Hnew4 & Hfull4).
  rewrite (bind_run _ _ _ _ _ E4), bind_get.
  assert (iconLight (self s2) = cached (world s) nm light) as Hil2.
  { unfold s2. cbn [self]. rewrite Hself1. cbn. apply Hc1. }
  assert (iconDark (self s3) = cached (world s) nm dark) as Hid3.
  { rewrite Hself3. unfold s2. cbn [self]. rewrite Hself1. cbn. apply Hc1. }
  rewrite Hil2 in Hreq3, Hheld3, Hnew3, Hfull3.
  rewrite Hid3 in Hreq4, Hheld4, Hnew4, Hfull4.
  change (world s2) with (world s1) in Hreq3, Hg3, Hfull3.
  assert (self s4
          = {| host := host (self s); container := Some [];
               observer := observer (self s); currentTheme := Some th;
               iconLight := r3; iconDark := r4;
               iconHeight := Some (getDimensionAttribute (host (self s)) "data-height" 64);
               iconWidth := Some (getDimensionAttribute (host (self s)) "data-width" 64);
               srcLight := Some light; srcDark := Some dark;
               name := getAttribute "data-name" (host (self s));
               cache := Some nm |}) as Hself.
  { rewrite Hself4, Hself3. unfold s2. cbn [self]. by rewrite Hself1. }
  clear E1 E3 E4 Hself3 Hself4 Hsd3 Hcache3 Hcache1 Hsl1 Hsd1 Hself1.
  replace (iconWidth (self s4))
    with (Some (getDimensionAttribute (host (self s)) "data-width" 64))
    by (by rewrite Hself).
  replace (iconHeight (self s4))
    with (Some (getDimensionAttribute (host (self s)) "data-height" 64))
    by (by rewrite Hself).
  replace (currentTheme (self s4)) with (Some th) by (by rewrite Hself).
  assert (container (self s4) = Some []) as Hcont by (by rewrite Hself).
  unfold bind at 1. rewrite (IconLoaderSpec.insertIcon_result _ _ _ _ _ Hcont).
  assert (insertIcon_outcome th (self s4) = Normal tt) as ->.
  { unfold insertIcon_outcome. rewrite Hself.
    cbn [iconWidth iconHeight]. by destruct (variant th _). }
  eexists. split; [reflexivity|].
  cbn [world self observeAttributes modify_self snd].
  destruct Hg3 as (Ht3 & Hp3 & Hn3 & Hf3 & Hmono3).
  destruct Hg4 as (Ht4 & Hp4 & Hn4 & Hf4 & Hmono4).
  assert (∀ url b, cached (world s) nm url = Some b →
                   is_Some (cached (world s4) nm url)) as Hmono.
  { intros url b Hb. rewrite <- Hc1 in Hb.
    destruct (Hmono3 url b Hb) as [b' Hb']. by apply (Hmono4 url b'). }
  split. { rewrite Hreq4, Hreq3, Hreq1. unfold missing. by rewrite app_assoc. }
  split; [congruence|]. split; [congruence|]. split; [congruence|].
  split; [congruence|]. split; [exact Hmono|].
  split. { cbn [host set_observer set_container]. by rewrite Hself. }
  split; [done|].
  split. { cbn [currentTheme set_observer set_container]. by rewrite Hself. }
  split.
  { cbn [container set_observer set_container]. unfold shown, picture, variant.
    cbn [iconHeight iconWidth iconLight iconDark set_observer set_container].
    by rewrite Hself. }
  split. { intros b Hb. cbn [iconLight set_observer set_container].
           rewrite Hself. cbn [iconLight]. by apply Hheld3. }
  split. { intros b Hb. cbn [iconDark set_observer set_container].
           rewrite Hself. cbn [iconDark]. by apply Hheld4. }
  split.
  { cbn [iconLight set_observer set_container]. rewrite Hself. cbn [iconLight].
    intros b ->. destruct (cached (world s) nm light) as [b0|] eqn:Ec.
    - by apply (Hmono light b0).
    - apply (Hmono4 light b). by apply Hnew3. }
  split.
  { cbn [iconDark set_observer set_container]. rewrite Hself. cbn [iconDark].
    intros b ->. destruct (cached (world s) nm dark) as [b0|] eqn:Ec.
    - by apply (Hmono dark b0).
    - rewrite (Hnew4 eq_refl b eq_refl). by eexists. }
  intros Hfull. cbn [iconLight iconDark set_observer set_container].
  rewrite Hself. cbn [iconLight iconDark]. split.
  - destruct (cached (world s) nm light) as [b0|] eqn:Ec; [by apply Hheld3|].
    apply Hfull3; [done|congruence].
  - destruct (cached (world s) nm dark) as [b0|] eqn:Ec; [by apply Hheld4|].
    apply Hfull4; [done|congruence].
Qed.

(** *** The first connection *)

(** X12. When the element names both sources, the connection returns
    without an error and sends a request for exactly the variants its cache
    does not hold, the light one first (none at all when both are cached).
    Afterwards the observer is registered, the document has a theme (the
    one it had, or the system preference, which is written to the document),
    and the container shows the image of the variant of that theme. *)
Theorem X12_connection_requests_exactly_the_uncached_variants
    (s : State) (light dark : string) :
  sources s light dark →
  ∃ s', connectedCallback s = (Normal tt, s')
    ∧ requests (world s')
      = requests (world s) ++ missing (world s) (cache_name s) light
                           ++ missing (world s) (cache_name s) dark
    ∧ observer (self s') = true
    ∧ data_theme (world s') = Some (system_theme (world s))
    ∧ currentTheme (self s') = Some (system_theme (world s))
    ∧ container (self s') = Some (shown (system_theme (world s)) (self s')).
Proof.
  intros Hsrc.
  destruct (connectedCallback_run s light dark Hsrc)
    as (s' & E & Hreq & Hth & _ & _ & _ & _ & _ & Hobs & Hcur & Hcont & _).
  by exists s'.
Qed.

Lemma X12_empty_cache_two_requests :
  ∃ s', connectedCallback (page None network_up) = (Normal tt, s')
    ∧ requests (world s') = ["/sun.svg"; "/moon.svg"]
    ∧ observer (self s') = true
    ∧ data_theme (world s') = Some "light"
    ∧ currentTheme (self s') = Some "light"
    ∧ container (self s') = Some (shown "light" (self s')).
Proof.
  apply (X12_connection_requests_exactly_the_uncached_variants
           (page None network_up) "/sun.svg" "/moon.svg").
  vm_compute. repeat split; congruence.
Defined.

(** X13. The connection fails in one way only. When a source attribute is
    missing or empty, [hydrate] throws the missing-source error before any
    request is sent and before the observer is registered, leaving an empty
    container; in every other case the connection returns. The errors about
    the cache, the sizes and the theme are never thrown. *)
Theorem X13_connection_throws_only_for_a_missing_source (s : State) :
  if has_sources s
  then ∃ s', connectedCallback s = (Normal tt, s')
  else ∃ s', connectedCallback s
             = (Throw (Error "Missing icon source(s): srcLight or srcDark is null"),
                s')
         ∧ requests (world s') = requests (world s)
         ∧ observer (self s') = observer (self s)
         ∧ container (self s') = Some [].
Proof.
  unfold has_sources. case_bool_decide as Hs.
  - destruct Hs as [Hl Hd].
    apply truthy_is_Some in Hl as (light & Hl & Hlne).
    apply truthy_is_Some in Hd as (dark & Hd & Hdne).
    destruct (connectedCallback_run s light dark) as (s' & E & _); [done|].
    by exists s'.
  - unfold connectedCallback.
    set (s0 := {| world := world s; self := set_container (Some []) (self s) |}).
    rewrite (bind_run render _ s tt s0) by reflexivity.
    destruct (initVariables_run s0)
      as (s1 & E1 & Hself1 & Hreq1 & _).
    unfold hydrate. rewrite (bind_run _ _ _ _ _ E1), bind_get.
    replace (cache (self s1)) with (Some (cache_name s0)) by (by rewrite Hself1).
    replace (srcLight (self s1))
      with (getAttribute "data-src-light" (host (self s)))
      by (by rewrite Hself1).
    replace (srcDark (self s1))
      with (getAttribute "data-src-dark" (host (self s)))
      by (by rewrite Hself1).
    assert (∀ A (x y : M A),
              match truthy (getAttribute "data-src-light" (host (self s))),
                    truthy (getAttribute "data-src-dark" (host (self s))) with
              | Some _, Some _ => x
              | _, _ => y
              end = y) as ->.
    { intros A x y.
      destruct (truthy (getAttribute "data-src-light" _)) as [l|] eqn:El; [|done].
      destruct (truthy (getAttribute "data-src-dark" _)) as [d|] eqn:Ed; [|done].
      destruct Hs. by split; eexists. }
    exists s1. split; [done|]. split; [done|]. by rewrite Hself1.
Qed.

(** X14. When the cache storage refuses writes, a variant that was not in
    the cache before the connection is not held after it, whatever the
    network answered: the download is requested, and thrown away. *)
Theorem X14_full_storage_discards_every_download
    (s : State) (light dark : string) :
  sources s light dark →
  storage_full (world s) = true →
  ∃ s', connectedCallback s = (Normal tt, s')
    ∧ requests (world s')
      = requests (world s) ++ missing (world s) (cache_name s) light
                           ++ missing (world s) (cache_name s) dark
    ∧ iconLight (self s') = cached (world s) (cache_name s) light
    ∧ iconDark (self s') = cached (world s) (cache_name s) dark.
Proof.
  intros Hsrc Hfull.
  destruct (connectedCallback_run s light dark Hsrc)
    as (s' & E & Hreq & _ & _ & _ & _ & _ & _ & _ & _ & _ & _ & _ & _ & _ & Hf).
  exists s'. destruct (Hf Hfull). done.
Qed.

Lemma X14_downloaded_twice_shown_never :
  ∃ s', connectedCallback
          {| world := {| data_theme := Some "dark"; prefers_dark := false;
                         network := network_up; storage_full := true;
                         requests := []; caches := ∅; console := [] |};
             self := self (page None network_up) |} = (Normal tt, s')
    ∧ requests (world s') = ["/sun.svg"; "/moon.svg"]
    ∧ iconLight (self s') = None
    ∧ iconDark (self s') = None.
Proof.
  destruct (X14_full_storage_discards_every_download
              {| world := {| data_theme := Some "dark"; prefers_dark := false;
                             network := network_up; storage_full := true;
                             requests := []; caches := ∅; console := [] |};
                 self := self (page None network_up) |} "/sun.svg" "/moon.svg")
    as (s' & E & Hreq & Hl & Hd).
  - vm_compute. repeat split; congruence.
  - reflexivity.
  - exists s'. split; [exact E|]. split; [exact Hreq|].
    split; [exact Hl|exact Hd].
Defined.

(** *** Leaving the document and coming back *)

Lemma disconnectedCallback_run s :
  disconnectedCallback s
  = (Normal tt, {| world := world s; self := set_observer false (self s) |}).
Proof.
  unfold disconnectedCallback. unfold_M.
  destruct (observer (self s)) eqn:E; [done|].
  f_equal. destruct s as [w l]. cbn [world self] in *. f_equal.
  destruct l. cbn in *. by subst.
Qed.

(** Without a registered observer a change of the theme of the document
    is not noticed. *)
Lemma theme_changes_unobserved themes : ∀ s,
  observer (self s) = false →
  ∃ s', theme_changes themes s = (Normal tt, s')
    ∧ self s' = self s
    ∧ requests (world s') = requests (world s)
    ∧ caches (world s') = caches (world s)
    ∧ data_theme (world s')
      = match last themes with
        | Some theme => Some theme
        | None => data_theme (world s)
        end.
Proof.
  induction themes as [|theme rest IH]; intros s Hobs.
  - by exists s.
  - cbn [theme_changes].
    assert (theme_change theme s
            = (Normal tt, {| world := set_data_theme (Some theme) (world s);
                             self := self s |})) as E.
    { unfold theme_change. unfold_M. by rewrite Hobs. }
    rewrite (bind_run _ _ _ _ _ E).
    destruct (IH {| world := set_data_theme (Some theme) (world s);
                    self := self s |} Hobs)
      as (s' & E' & Hself & Hreq & Hc & Ht).
    exists s'. split; [done|]. split; [done|]. split; [done|]. split; [done|].
    rewrite Ht. destruct rest as [|t rest]; [reflexivity|].
    change (last (theme :: t :: rest)) with (last (t :: rest)).
    destruct (last (t :: rest)) eqn:El; [done|]. by apply last_None in El.
Qed.

(** X15. An element that holds both variants can leave the document and
    come back without touching the network: [disconnectedCallback],
    any changes of the theme of the document meanwhile and a second
    [connectedCallback] send no request; both variants are held again, the
    observer is registered again, and the container shows the image for the
    theme the document has by then. *)
Theorem X15_reconnection_is_served_from_the_cache
    (s s1 : State) (light dark : string) (themes : list string) :
  sources s light dark →
  ready s s1 →
  is_Some (iconLight (self s1)) →
  is_Some (iconDark (self s1)) →
  ∃ s2,
    (disconnectedCallback ;; theme_changes themes ;; connectedCallback) s1
    = (Normal tt, s2)
    ∧ requests (world s2) = requests (world s1)
    ∧ is_Some (iconLight (self s2))
    ∧ is_Some (iconDark (self s2))
    ∧ observer (self s2) = true
    ∧ container (self s2)
      = Some (shown (default (system_theme (world s)) (last themes)) (self s2)).
Proof.
  intros Hsrc Hready [bl Hbl] [bd Hbd].
  destruct (connectedCallback_run s light dark Hsrc)
    as (s1' & E1 & _ & Hth1 & _ & _ & _ & _ & Hhost1 & _ & _ & _ & _ & _
        & Hcl & Hcd & _).
  unfold ready in Hready. rewrite Hready in E1. injection E1 as <-.
  destruct (Hcl _ Hbl) as [cl Ecl]. destruct (Hcd _ Hbd) as [cd Ecd].
  rewrite (bind_run _ _ _ _ _ (disconnectedCallback_run s1)).
  set (sd := {| world := world s1; self := set_observer false (self s1) |}).
  destruct (theme_changes_unobserved themes sd eq_refl)
    as (st & Et & Hself & Hreq & Hc & Ht).
  rewrite (bind_run _ _ _ _ _ Et).
  assert (host (self st) = host (self s)) as Hhost by (by rewrite Hself).
  assert (cache_name st = cache_name s) as Hname
    by (unfold cache_name; by rewrite Hhost).
  assert (sources st light dark) as Hsrc'.
  { unfold sources. by rewrite Hhost. }
  assert (∀ url, cached (world st) (cache_name s) url
                 = cached (world s1) (cache_name s) url) as Hsame.
  { intros url. unfold cached. by rewrite Hc. }
  destruct (connectedCallback_run st light dark Hsrc')
    as (s2 & E2 & Hreq2 & _ & _ & _ & _ & _ & _ & Hobs2 & _ & Hcont2
        & Hl2 & Hd2 & _).
  rewrite Hname in Hreq2, Hl2, Hd2.
  rewrite Hsame in Hl2, Hd2. unfold missing in Hreq2.
  rewrite !Hsame, Ecl, Ecd, !app_nil_r in Hreq2.
  exists s2. split; [done|]. split; [by rewrite Hreq2, Hreq|].
  split; [rewrite (Hl2 _ Ecl); by eexists|].
  split; [rewrite (Hd2 _ Ecd); by eexists|]. split; [done|].
  rewrite Hcont2. do 2 f_equal. unfold system_theme at 1. rewrite Ht.
  destruct (last themes) as [t|]; [done|].
  change (data_theme (world sd)) with (data_theme (world s1)).
  by rewrite Hth1.
Qed.

Lemma X15_away_while_the_theme_turns_dark :
  let s1 := snd (connectedCallback (page (Some "light") network_up)) in
  ∃ s2,
    (disconnectedCallback ;; theme_changes ["dark"] ;; connectedCallback) s1
    = (Normal tt, s2)
    ∧ requests (world s2) = requests (world s1)
    ∧ is_Some (iconLight (self s2))
    ∧ is_Some (iconDark (self s2))
    ∧ observer (self s2) = true
    ∧ container (self s2) = Some (shown "dark" (self s2)).
Proof.
  intros s1.
  apply (X15_reconnection_is_served_from_the_cache
           (page (Some "light") network_up) s1 "/sun.svg" "/moon.svg" ["dark"]).
  - vm_compute. repeat split; congruence.
  - unfold ready, s1. vm_compute. reflexivity.
  - vm_compute. by eexists.
  - vm_compute. by eexists.
Defined.

End IconLoaderExtra.

(** ** More of the hamburger menu *)

Module HamburgerExtra.
Import JS DOM Hamburger HamburgerMore.

(** *** Open or closed *)






(** *** What the navigation renders *)

Lemma to_text_spec v :
  to_text v = if text_ok v then Normal tt
              else Throw (TypeError "Cannot convert object to primitive value").
Proof. by destruct v. Qed.

Lemma createSubLinkItem_spec child :
  if child_ok child
  then ∃ a, createSubLinkItem child = Normal a
  else ∃ e, createSubLinkItem child = Throw e.
Proof.
  unfold child_ok.
  assert (is_null child = false →
          createSubLinkItem child
          = match to_text (field "name" child) with
            | Throw e => Throw e
            | Normal _ =>
                match to_text (field "url" child) with
                | Throw e => Throw e
                | Normal _ =>
                    Normal {| a_name := field "name" child;
                              a_url := field "url" child |}
                end
            end) as Hbody by (by destruct child).
  destruct (is_null child) eqn:En; cbn [negb andb].
  - destruct child; try done. by eexists.
  - rewrite Hbody by done. rewrite !to_text_spec.
    destruct (text_ok (field "name" child)); cbn [andb]; [|by eexists].
    destruct (text_ok (field "url" child)); by eexists.
Qed.

Lemma createSubLinkItems_spec children :
  if forallb child_ok children
  then ∃ subs, createSubLinkItems children = Normal subs
               ∧ length subs = length children
  else ∃ e, createSubLinkItems children = Throw e.
Proof.
  induction children as [|child rest IH]; [by exists []|].
  cbn [forallb createSubLinkItems].
  pose proof (createSubLinkItem_spec child) as Hchild.
  destruct (child_ok child); cbn [andb].
  - destruct Hchild as (a & ->).
    destruct (forallb child_ok rest).
    + destruct IH as (subs & -> & Hlen). eexists. split; [done|].
      cbn [length]. by rewrite Hlen.
    + destruct IH as (e & ->). by eexists.
  - destruct Hchild as (e & ->). by eexists.
Qed.

Lemma createLinkItem_spec link :
  if entry_ok link
  then ∃ li, createLinkItem link = Normal li
             ∧ length (anchors_of li) = anchors_for link
  else ∃ e, createLinkItem link = Throw e.
Proof.
  unfold entry_ok, anchors_for.
  assert (is_null link = false →
          createLinkItem link
          = match field "children" link with
            | Some (JArray (child :: rest)) =>
                match to_text (field "name" link) with
                | Throw e => Throw e
                | Normal _ =>
                    match createSubLinkItems (child :: rest) with
                    | Throw e => Throw e
                    | Normal subs => Normal (ParentItem (field "name" link) subs)
                    end
                end
            | _ =>
                match to_text (field "name" link) with
                | Throw e => Throw e
                | Normal _ =>
                    match to_text (field "url" link) with
                    | Throw e => Throw e
                    | Normal _ =>
                        Normal (LinkItem {| a_name := field "name" link;
                                            a_url := field "url" link |})
                    end
                end
            end) as Hbody by (by destruct link).
  destruct (is_null link) eqn:En; cbn [negb andb].
  - destruct link; try done. by eexists.
  - rewrite Hbody by done. rewrite !to_text_spec.
    destruct (field "children" link) as [[| | | |[|child rest]|]|];
      (destruct (text_ok (field "name" link)); cbn [andb]; [|by eexists]);
      try (destruct (text_ok (field "url" link)); by eexists).
    pose proof (createSubLinkItems_spec (child :: rest)) as Hsub.
    destruct (forallb child_ok (child :: rest)).
    + destruct Hsub as (subs & -> & Hlen). by eexists.
    + destruct Hsub as (e & ->). by eexists.
Qed.

Lemma createLinkItems_spec items :
  if forallb entry_ok items
  then ∃ lis, createLinkItems items = Normal lis
              ∧ length lis = length items
              ∧ length (concat (anchors_of <$> lis))
                = sum_list (anchors_for <$> items)
  else ∃ e, createLinkItems items = Throw e.
Proof.
  induction items as [|link rest IH]; [by exists []|].
  cbn [forallb createLinkItems].
  pose proof (createLinkItem_spec link) as Hlink.
  destruct (entry_ok link); cbn [andb].
  - destruct Hlink as (li & -> & Hli).
    destruct (forallb entry_ok rest).
    + destruct IH as (lis & -> & Hlen & Hsum). eexists. split; [done|].
      cbn [length fmap list_fmap concat sum_list sum_list_with].
      rewrite length_app, Hlen, Hli.
      change (length (concat (anchors_of <$> lis))
              = sum_list (anchors_for <$> rest)) in Hsum.
      split; [done|]. by rewrite Hsum.
    + destruct IH as (e & ->). by eexists.
  - destruct Hlink as (e & ->). by eexists.
Qed.

(** X17. The navigation renders exactly when the [data-links] text is
    JSON for an array in which every entry gets through [createLinkItem]:
    no entry and no child of an entry is [null], and every name and address
    that is assigned or passed on converts to a string (an object with a
    member named [toString] does not). It then holds one list item for
    every entry, in which the anchors with id [hm-nav-link] are one for
    every child of an entry with children and one for every other entry,
    and [hydrate] has run. For every other text [connectedCallback] ends
    with an error, nothing is rendered and [hydrate] is not reached. *)
Theorem X17_navigation_renders_exactly_the_well_formed_arrays
    (raw : option jsstring) (n : HamburgerNav) :
  match JSON_parse (links_text raw) with
  | Some (JArray items) =>
      if forallb entry_ok items
      then ∃ n' lis,
             nav_connectedCallback raw n = (n', Normal tt)
             ∧ hydrated n' = true
             ∧ nav_items n' = Some lis
             ∧ length lis = length items
             ∧ length (nav_links n') = sum_list (anchors_for <$> items)
      else ∃ n' e, nav_connectedCallback raw n = (n', Throw e)
                   ∧ nav_items n' = nav_items n ∧ hydrated n' = hydrated n
  | _ => ∃ n' e, nav_connectedCallback raw n = (n', Throw e)
                 ∧ nav_items n' = nav_items n ∧ hydrated n' = hydrated n
  end.
Proof.
  unfold nav_connectedCallback, nav_render, getDataLinks.
  fold (links_text raw).
  destruct (JSON_parse (links_text raw)) as [[| | | |items|]|];
    try (by eexists _, _).
  pose proof (createLinkItems_spec items) as Hitems.
  destruct (forallb entry_ok items).
  - destruct Hitems as (lis & -> & Hlen & Hsum).
    eexists _, lis. split; [done|]. cbn [hydrated nav_items].
    unfold nav_links. cbn [nav_items]. done.
  - destruct Hitems as (e & ->). by eexists _, _.
Qed.

(** An entry whose name is an object with a member [toString]: the
    assignment to [textContent] throws, and nothing is rendered. *)
Example name_that_does_not_convert :
  (λ r, (nav_items (fst r), hydrated (fst r), snd r))
    (nav_connectedCallback
       (Some (of_ascii "[{" ++ quoted "name" ++ of_ascii ":{" ++ quoted "toString"
              ++ of_ascii ":1}}]"))
       nav_constructor)
  = (None, false, Throw (TypeError "Cannot convert object to primitive value")).
Proof. vm_compute. reflexivity. Qed.

End HamburgerExtra.

(** ** What the hamburger menu shows *)

Module HamburgerViewsExtra.
Import JS DOM Hamburger HamburgerMore HamburgerViews.



(** *** Elements *)







(** *** Entries *)















(** *** The observers *)



(** *** The menu *)








End HamburgerViewsExtra.

(** ** The hamburger menu leaving the document and coming back *)

Module MenuLifecycleExtra.
Import JS DOM Hamburger MenuLifecycle.

(** *** The navigation rendering again *)

(** Whether the navigation renders depends on the [data-links] text alone,
    and a failed rendering leaves the content that was there. *)
Lemma nav_connectedCallback_again raw n n' :
  is_normal (snd (nav_connectedCallback raw n))
  = is_normal (snd (nav_connectedCallback raw n'))
  ∧ (is_normal (snd (nav_connectedCallback raw n)) = false →
     nav_items (fst (nav_connectedCallback raw n)) = nav_items n).
Proof.
  unfold nav_connectedCallback, nav_render.
  destruct (getDataLinks raw) as [[[| | | |items|]|] logged]; try done.
  by destruct (createLinkItems items).
Qed.

(** *** One connection *)

(** Every connection leaves the menu closed and wired, the first one by
    rendering, the later ones on the content that is there. *)
Lemma menu_connectedCallback_closed m :
  rendered m = false ∨ mounted m →
  ∃ m', menu_connectedCallback m = Normal m'
    ∧ menu_state m' false ∧ wired m' ∧ mounted m'
    ∧ data_links m' = data_links m
    ∧ nav m' = if rendered m then nav m
               else fst (nav_connectedCallback (data_links m) nav_constructor).
Proof.
  intros Hm. unfold menu_connectedCallback, menu_render.
  destruct (rendered m) eqn:Er.
  - destruct Hm as [|(_ & [icon Ei] & [nv En])]; [done|].
    cbn [fst]. unfold menu_hydrate, attachEventListener, setMenuState, bound.
    cbn [icon_el nav_el hmIcon hmNav]. rewrite Ei, En.
    rewrite !bool_decide_true by (by eexists).
    eexists. split; [done|].
    unfold menu_state, icon_active, nav_active, wired, mounted.
    cbn [icon_el nav_el hmIcon hmNav icon_listener rendered mbind option_bind
         data_links nav].
    rewrite !DOMFacts.getAttribute_setAttribute, Er, orb_true_r.
    by repeat split; try eexists.
  - destruct (nav_connectedCallback (data_links m) nav_constructor) as [n outcome].
    cbn [fst]. unfold menu_hydrate, attachEventListener, setMenuState, bound.
    cbn [icon_el nav_el hmIcon hmNav].
    rewrite !bool_decide_true by (by eexists).
    eexists. split; [done|].
    unfold menu_state, icon_active, nav_active, wired, mounted.
    cbn [icon_el nav_el hmIcon hmNav icon_listener rendered mbind option_bind
         data_links nav].
    rewrite !DOMFacts.getAttribute_setAttribute, orb_true_r.
    by repeat split; try eexists.
Qed.

(** The first connection: one listener on the icon, one on every anchor. *)
Lemma first_connection links :
  ∃ a0, connectedCallback (created links) = Normal a0
    ∧ icon_listeners a0 = 1%nat
    ∧ link_listeners a0 = 1%nat
    ∧ menu_state (the_menu a0) false ∧ wired (the_menu a0)
    ∧ mounted (the_menu a0)
    ∧ data_links (the_menu a0) = links
    ∧ nav (the_menu a0) = fst (nav_connectedCallback links nav_constructor).
Proof.
  destruct (menu_connectedCallback_closed (menu_constructor links)
              (or_introl eq_refl)) as (m & E & Hs & Hw & Hm & Hd & Hn).
  unfold connectedCallback, created. cbn [the_menu icon_listeners link_listeners].
  rewrite E. cbn [menu_constructor rendered]. eexists. split; [done|].
  cbn [the_menu icon_listeners link_listeners].
  cbn [menu_constructor rendered data_links] in Hd, Hn.
  pose proof Hw as (Hi & _ & _). rewrite Hi.
  split; [done|]. split; [done|]. split; [done|]. split; [done|].
  split; [done|]. split; [exact Hd|exact Hn].
Qed.

(** A later connection: one more listener on the icon, and no anchor with
    a listener of the menu. *)
Lemma later_connection links a :
  mounted (the_menu a) → data_links (the_menu a) = links →
  (is_normal (snd (nav_connectedCallback links nav_constructor)) = false →
   nav_items (nav (the_menu a)) = None) →
  ∃ a', connectedCallback a = Normal a'
    ∧ icon_listeners a' = S (icon_listeners a)
    ∧ links_deaf a'
    ∧ menu_state (the_menu a') false ∧ wired (the_menu a')
    ∧ mounted (the_menu a')
    ∧ data_links (the_menu a') = links
    ∧ (is_normal (snd (nav_connectedCallback links nav_constructor)) = false →
       nav_items (nav (the_menu a')) = None).
Proof.
  intros Hm Hd Hfail.
  destruct (menu_connectedCallback_closed (the_menu a) (or_intror Hm))
    as (m & E & Hs & Hw & Hm' & Hd' & Hn).
  pose proof Hm as (Er & _). rewrite Er in Hn.
  unfold connectedCallback. rewrite E, Er.
  rewrite Hd', Hd, Hn.
  destruct (nav_connectedCallback_again links (nav (the_menu a)) nav_constructor)
    as [Hsame Hkeeps].
  destruct (nav_connectedCallback links (nav (the_menu a))) as [n outcome].
  cbn [fst snd] in *.
  eexists. split; [done|]. cbn [the_menu icon_listeners link_listeners].
  pose proof Hw as (Hi & _ & _). rewrite Hi. split; [done|].
  assert (is_normal outcome = false → nav_items n = None) as Hnone.
  { intros Ho. rewrite (Hkeeps Ho). apply Hfail. by rewrite <- Hsame. }
  split.
  { unfold links_deaf. cbn [the_menu link_listeners with_nav nav].
    destruct (is_normal outcome); [by left|]. right.
    unfold nav_links. by rewrite Hnone. }
  split; [done|]. split; [done|]. split; [done|].
  split; [by rewrite <- Hd, <- Hd'|].
  intros Ho. cbn [with_nav nav]. apply Hnone. by rewrite Hsame.
Qed.

Lemma reconnections_count links n : ∀ a,
  mounted (the_menu a) → data_links (the_menu a) = links →
  (is_normal (snd (nav_connectedCallback links nav_constructor)) = false →
   nav_items (nav (the_menu a)) = None) →
  ∃ a', reconnections (S n) a = Normal a'
    ∧ icon_listeners a' = (S n + icon_listeners a)%nat
    ∧ links_deaf a'
    ∧ menu_state (the_menu a') false ∧ wired (the_menu a').
Proof.
  induction n as [|n IH]; intros a Hm Hd Hfail.
  - cbn [reconnections]. unfold disconnectedCallback.
    destruct (later_connection links a Hm Hd Hfail)
      as (a' & -> & Hc & Hdeaf & Hs & Hw & _).
    by exists a'.
  - change (reconnections (S (S n)) a)
      with (match connectedCallback (disconnectedCallback a) with
            | Throw e => Throw e
            | Normal a1 => reconnections (S n) a1
            end).
    unfold disconnectedCallback.
    destruct (later_connection links a Hm Hd Hfail)
      as (a1 & -> & Hc1 & _ & _ & _ & Hm1 & Hd1 & Hfail1).
    destruct (IH a1 Hm1 Hd1 Hfail1) as (a' & E & Hc & Hdeaf & Hs & Hw).
    exists a'. split; [done|]. split; [lia|]. done.
Qed.

(** *** Clicks *)

Lemma toggleAttribute_keeps_nav m m' :
  toggleAttribute m = Normal m' → nav m' = nav m.
Proof.
  unfold toggleAttribute.
  destruct (bound (hmIcon m) (icon_el m)); [|done].
  destruct (bound (hmNav m) (nav_el m)); [|done]. by intros [= <-].
Qed.

Lemma run_listeners_parity k : ∀ m open,
  wired m → menu_state m open →
  ∃ m', run_listeners k m = Normal m'
    ∧ menu_state m' (xorb open (Nat.odd k))
    ∧ wired m' ∧ nav m' = nav m.
Proof.
  induction k as [|k IH]; intros m open Hw Hs; cbn [run_listeners].
  - exists m. split; [done|]. by rewrite xorb_false_r.
  - destruct (HamburgerSpec.toggleAttribute_flips m open Hw Hs)
      as (m1 & E1 & Hs1 & Hw1 & _).
    rewrite E1. destruct (IH m1 (negb open) Hw1 Hs1) as (m' & E & Hs' & Hw' & Hn).
    exists m'. split; [done|]. split.
    + rewrite Nat.odd_succ, <- Nat.negb_odd.
      by destruct open, (Nat.odd k).
    + split; [done|]. rewrite Hn. by apply toggleAttribute_keeps_nav.
Qed.

Lemma clicks_on_parity cs : ∀ a open,
  wired (the_menu a) → menu_state (the_menu a) open → links_deaf a →
  ∃ a', clicks_on cs a = Normal a'
    ∧ menu_state (the_menu a')
        (xorb open (Nat.odd (icon_listeners a) && Nat.odd (icon_clicks cs))).
Proof.
  induction cs as [|c cs IH]; intros a open Hw Hs Hdeaf; cbn [clicks_on].
  - exists a. split; [done|]. cbn. by rewrite andb_false_r, xorb_false_r.
  - unfold click_on.
    set (k := match c with
              | ClickIcon => icon_listeners a
              | ClickLink i =>
                  if bool_decide (i < length (nav_links (nav (the_menu a))))%nat
                  then link_listeners a else O
              end).
    destruct (run_listeners_parity k (the_menu a) open Hw Hs)
      as (m & -> & Hs1 & Hw1 & Hn1).
    set (a1 := {| the_menu := m; icon_listeners := icon_listeners a;
                  link_listeners := link_listeners a |}).
    assert (links_deaf a1) as Hdeaf1.
    { unfold links_deaf, a1 in *. cbn [the_menu link_listeners]. by rewrite Hn1. }
    destruct (IH a1 _ Hw1 Hs1 Hdeaf1) as (a' & E & Hs').
    exists a'. split; [done|]. cbn [icon_listeners a1] in Hs'.
    unfold icon_clicks in *. cbn [List.filter].
    destruct c as [|i]; subst k.
    + cbn [length]. rewrite Nat.odd_succ, <- Nat.negb_odd.
      fold (icon_clicks cs) in *.
      by destruct open, (Nat.odd (icon_listeners a)), (Nat.odd (icon_clicks cs)).
    + assert ((if bool_decide (i < length (nav_links (nav (the_menu a))))%nat
               then link_listeners a else O) = O) as Hk.
      { destruct Hdeaf as [-> | ->]; [by destruct (bool_decide _)|].
        cbn [length]. by rewrite bool_decide_false by lia. }
      rewrite Hk in Hs'. cbn [Nat.odd] in Hs'.
      by rewrite xorb_false_r in Hs'.
Qed.

(** X19. Taking the menu out of the document removes no listener, and
    every connection adds one more to the icon, while the navigation, which
    renders again after the menu has been hydrated, is left with anchors
    that have no listener of the menu. After [n + 1] reconnections the icon
    has [n + 2] click listeners and a click on it runs the toggle that many
    times; a click on a link does nothing. So whatever is clicked, the menu
    is open exactly when [n] is odd and the number of clicks on the icon is
    odd: after a single reconnection the menu can no longer be opened. *)
Theorem X19_each_reconnection_adds_an_icon_listener
    (links : option jsstring) (n : nat) (clicks : list click) :
  ∃ a0 a a',
    connectedCallback (created links) = Normal a0
    ∧ reconnections (S n) a0 = Normal a
    ∧ icon_listeners a = S (S n)
    ∧ links_deaf a
    ∧ menu_state (the_menu a) false
    ∧ clicks_on clicks a = Normal a'
    ∧ menu_state (the_menu a') (Nat.odd n && Nat.odd (icon_clicks clicks)).
Proof.
  destruct (first_connection links)
    as (a0 & E0 & Hc0 & _ & _ & _ & Hm0 & Hd0 & Hn0).
  assert (is_normal (snd (nav_connectedCallback links nav_constructor)) = false →
          nav_items (nav (the_menu a0)) = None) as Hfail0.
  { intros Ho. rewrite Hn0.
    by rewrite (proj2 (nav_connectedCallback_again links nav_constructor
                         nav_constructor) Ho). }
  destruct (reconnections_count links n a0 Hm0 Hd0 Hfail0)
    as (a & E & Hc & Hdeaf & Hs & Hw).
  destruct (clicks_on_parity clicks a false Hw Hs Hdeaf) as (a' & Ec & Hs').
  exists a0, a, a'. split; [done|]. split; [done|].
  assert (icon_listeners a = S (S n)) as Hk by lia.
  split; [done|]. split; [done|]. split; [done|]. split; [done|].
  rewrite Hk in Hs'. cbn [xorb] in Hs'.
  by rewrite !Nat.odd_succ, Nat.even_succ in Hs'.
Qed.

End MenuLifecycleExtra.
